(** * VALDReader (carsus/io/vald/vald.py): a shallow embedding

    The reader fetches a VALD line list, isolates the data rows with a regular
    expression, hands them to [pandas.read_csv], splits the [elm_ion] column
    and exports both tables to an HDF5 store.  The embedding follows the code
    statement by statement:

    - text is a list of Unicode code points (Python's [str]), bytes a list of
      [byte];
    - the pattern of [re.compile] is kept as data and run by a backtracking
      matcher, [findall] scans the buffer as [re.findall] does;
    - a [DataFrame] is a list of named columns over a common index; the three
      pandas calls the code makes ([read_csv], [Series.str.replace],
      [Series.str.split(expand=True)]) and column assignment and deletion are
      modelled on the columns;
    - the loader, the heap of table objects (so that aliasing is visible),
      the fetcher's call log, the logger and the HDF5 stores form a state
      that every method threads, raising Python's exceptions as results. *)

From Stdlib Require Import NArith ZArith QArith Lia Ascii String.
From Stdlib.Strings Require Import Byte.
From stdpp Require Import base option list strings gmap.

Local Open Scope N_scope.
Local Open Scope list_scope.

(** ** Text and bytes *)

(** A Python [str]: a sequence of code points. *)
Abbreviation text := (list N).

(** The code points of an ASCII literal. *)
Definition T (s : string) : text := map N_of_ascii (list_ascii_of_string s).

(** The bytes of an ASCII literal. *)
Definition B (s : string) : list byte := list_byte_of_string s.

(** [sep.join(parts)]. *)
Fixpoint join (sep : text) (parts : list text) : text :=
  match parts with
  | [] => []
  | [p] => p
  | p :: ps => p ++ sep ++ join sep ps
  end.

(** A continuation byte [10xxxxxx]. *)
Definition utf8_cont (b : N) : bool := (128 <=? b) && (b <=? 191).

(** [bytes.decode()]: strict UTF-8.  [None] stands for [UnicodeDecodeError]
    (a stray or missing continuation byte, an overlong form, a surrogate, a
    code point past U+10FFFF). *)
Fixpoint utf8_decode (bs : list byte) : option text :=
  match bs with
  | [] => Some []
  | x0 :: r0 =>
    let b0 := Byte.to_N x0 in
    if b0 <? 128 then cons b0 <$> utf8_decode r0
    else if (194 <=? b0) && (b0 <=? 223) then
      match r0 with
      | x1 :: r1 =>
        let b1 := Byte.to_N x1 in
        if utf8_cont b1
        then cons ((b0 - 192) * 64 + (b1 - 128)) <$> utf8_decode r1
        else None
      | _ => None
      end
    else if (224 <=? b0) && (b0 <=? 239) then
      match r0 with
      | x1 :: x2 :: r2 =>
        let b1 := Byte.to_N x1 in
        let b2 := Byte.to_N x2 in
        let c := (b0 - 224) * 4096 + (b1 - 128) * 64 + (b2 - 128) in
        if utf8_cont b1 && utf8_cont b2 && (2048 <=? c)
           && negb ((55296 <=? c) && (c <=? 57343))
        then cons c <$> utf8_decode r2
        else None
      | _ => None
      end
    else if (240 <=? b0) && (b0 <=? 244) then
      match r0 with
      | x1 :: x2 :: x3 :: r3 =>
        let b1 := Byte.to_N x1 in
        let b2 := Byte.to_N x2 in
        let b3 := Byte.to_N x3 in
        let c := (b0 - 240) * 262144 + (b1 - 128) * 4096
                 + (b2 - 128) * 64 + (b3 - 128) in
        if utf8_cont b1 && utf8_cont b2 && utf8_cont b3
           && (65536 <=? c) && (c <=? 1114111)
        then cons c <$> utf8_decode r3
        else None
      | _ => None
      end
    else None
  end.

(** ** The row pattern

    [re.compile("'[a-zA-Z]+ \d+',[\s*-?\d+[\.\d+]+,]*")].  The literal is not
    a raw string, but [\d], [\s] and [\.] are no escapes of Python's string
    syntax, so the backslashes reach [re] unchanged.  [re] reads the pattern
    as nine items in sequence:

    - the quote; [[a-zA-Z]+]; the space; [\d+]; the quote; the comma;
    - ONE character set, opened by the first bracket and closed by the first
      closing bracket: [\s], the range from [*] to [?] (written [*-?]),
      [\d], [+], the inner opening bracket (a literal inside a set), [\.],
      [\d], [+]; followed by the quantifier [+];
    - the comma;
    - a literal closing bracket with the quantifier [*].

    [data_match] below is that reading; [data_match_compiled] checks it
    against [re_compile]. *)

Inductive set_item :=
| Chr (c : N)            (* one character *)
| Rng (lo hi : N)        (* lo-hi *)
| CatDigit               (* \d *)
| CatSpace.              (* \s *)

Inductive quantifier := One | Plus | Star.

Definition charset := list set_item.
Definition regex := list (charset * quantifier).

(** [\s] on a [str] pattern: [Py_UNICODE_ISSPACE]. *)
Definition uni_space (c : N) : bool :=
  (9 <=? c) && (c <=? 13) || (28 <=? c) && (c <=? 32)
  || (c =? 133) || (c =? 160) || (c =? 5760)
  || (8192 <=? c) && (c <=? 8202)
  || (c =? 8232) || (c =? 8233) || (c =? 8239) || (c =? 8287) || (c =? 12288).

(** The source of the pattern, and [re]'s reading of it for the part of the
    syntax the pattern uses: characters, the escapes [\d] and [\s], a
    backslash before a character that is no letter or digit, sets with
    ranges, and the quantifiers [+] and [*].  [None] stands for whatever else
    (groups, alternatives, anchors, counted, lazy or possessive repeats, a
    negated set) and for what [re] refuses. *)
Definition pattern : text := T "'[a-zA-Z]+ \d+',[\s*-?\d+[\.\d+]+,]*".

Definition is_ascii_alnum (c : N) : bool :=
  (48 <=? c) && (c <=? 57) || (65 <=? c) && (c <=? 90) || (97 <=? c) && (c <=? 122).

(** The character after a backslash. *)
Definition escape_item (c : N) : option set_item :=
  if c =? 100 then Some CatDigit
  else if c =? 115 then Some CatSpace
  else if is_ascii_alnum c then None
  else Some (Chr c).

(** One member of a set: a character or an escape. *)
Definition set_member (s : text) : option (set_item * text) :=
  match s with
  | 92 :: e :: r => i ← escape_item e; Some (i, r)
  | 92 :: [] => None
  | c :: r => Some (Chr c, r)
  | [] => None
  end.

(** The members of a set up to the closing bracket, which closes the set
    only when it is not the first member; a hyphen between two characters
    makes a range, one before the closing bracket is a character. *)
Fixpoint parse_set (fuel : nat) (acc : charset) (s : text) : option (charset * text) :=
  match fuel with
  | O => None
  | S fuel' =>
    match acc, s with
    | _ :: _, 93 :: rest => Some (rev acc, rest)
    | _, _ =>
      match set_member s with
      | None => None
      | Some (i, r) =>
        match r with
        | 45 :: 93 :: r2 => Some (rev (Chr 45 :: i :: acc), r2)
        | 45 :: r1 =>
          match i, set_member r1 with
          | Chr lo, Some (Chr hi, r2) =>
            if lo <=? hi then parse_set fuel' (Rng lo hi :: acc) r2 else None
          | _, _ => None
          end
        | _ => parse_set fuel' (i :: acc) r
        end
      end
    end
  end.

(** The characters with a meaning of their own outside a set. *)
Definition is_special (c : N) : bool :=
  existsb (N.eqb c) [46; 40; 41; 42; 43; 63; 94; 36; 124; 123].

Definition parse_item (s : text) : option (charset * text) :=
  match s with
  | 92 :: e :: r => i ← escape_item e; Some ([i], r)
  | 91 :: 94 :: _ => None
  | 91 :: r => parse_set (length r) [] r
  | c :: r => if is_special c || (c =? 92) then None else Some ([Chr c], r)
  | [] => None
  end.

Fixpoint re_parse (fuel : nat) (s : text) : option regex :=
  match fuel with
  | O => None
  | S fuel' =>
    match s with
    | [] => Some []
    | _ =>
      match parse_item s with
      | None => None
      | Some (cs, r) =>
        match r with
        | 43 :: r' => cons (cs, Plus) <$> re_parse fuel' r'
        | 42 :: r' => cons (cs, Star) <$> re_parse fuel' r'
        | _ => cons (cs, One) <$> re_parse fuel' r
        end
      end
    end
  end.

(** [re.compile]. *)
Definition re_compile (s : text) : option regex := re_parse (S (length s)) s.

(** The set [[\s*-?\d+[\.\d+]]. *)
Definition field_set : charset :=
  [CatSpace; Rng 42 63; CatDigit; Chr 43; Chr 91; Chr 46; CatDigit; Chr 43].

Definition data_match : regex :=
  [ ([Chr 39], One);
    ([Rng 97 122; Rng 65 90], Plus);
    ([Chr 32], One);
    ([CatDigit], Plus);
    ([Chr 39], One);
    ([Chr 44], One);
    (field_set, Plus);
    ([Chr 44], One);
    ([Chr 93], Star) ].

(** The sample line of the format comment in [read_vald_raw], without the
    padding blanks. *)
Definition sample_line : text :=
  T "'TiO 1',4100.00020,-11.472,0.2011,31.0,3.2242,32.0,99.000,99.000,99.000,6.962,0.000,0.000,".

(** ** Tables

    A pandas [DataFrame] as the code uses it: named columns in order over a
    common index [0 .. nrows-1].  A cell holds the token of the field it was
    read from, [None] being pandas' missing value (NaN).  pandas also infers a
    dtype per column and a numeric column holds the numbers its tokens
    denote; [decimal_value] gives that reading of a token ([float64] rounding
    is not modelled).  [elm_ion] always is a column of strings: it is read
    from fields that start with a quote. *)

Abbreviation cell := (option text).

Record DataFrame := mkFrame {
  nrows : nat;
  columns : list (string * list cell)
}.

Definition column_names (df : DataFrame) : list string := map fst (columns df).

(** [df.shape]. *)
Definition shape (df : DataFrame) : nat * nat := (nrows df, length (columns df)).

(** Every column spans the index. *)
Definition well_formed (df : DataFrame) : Prop :=
  Forall (fun c => length (snd c) = nrows df) (columns df).

Fixpoint lookup_column (name : string) (cols : list (string * list cell))
  : option (list cell) :=
  match cols with
  | [] => None
  | (n, v) :: cols' => if String.eqb n name then Some v else lookup_column name cols'
  end.

(** [df[name] = values] on the column list: an existing column is replaced
    where it stands, a new one goes last. *)
Fixpoint assign_column (name : string) (v : list cell) (cols : list (string * list cell))
  : list (string * list cell) :=
  match cols with
  | [] => [(name, v)]
  | (n, w) :: cols' =>
    if String.eqb n name then (n, v) :: cols' else (n, w) :: assign_column name v cols'
  end.

Fixpoint remove_column (name : string) (cols : list (string * list cell))
  : list (string * list cell) :=
  match cols with
  | [] => []
  | (n, w) :: cols' =>
    if String.eqb n name then cols' else (n, w) :: remove_column name cols'
  end.

(** Python's exceptions, as far as this module meets them. *)
Inductive exn :=
| FetchError            (* whatever the Source Fetcher raises *)
| UnicodeDecodeError
| ParserError           (* pandas.errors.ParserError *)
| KeyError (key : string)
| ValueError            (* "Columns must be same length as key" *)
| StorageError.         (* the HDF5 store cannot be opened or written *)

Inductive result (A : Type) :=
| Ok (a : A)
| Raise (e : exn).
Arguments Ok {A} a.
Arguments Raise {A} e.

(** [vald_columns]. *)
Definition vald_columns : list string :=
  [ "elm_ion"; "wl_air"; "log_gf"; "e_low"; "j_lo"; "e_up"; "j_up";
    "lande_lower"; "lande_upper"; "lande_mean"; "rad"; "stark"; "waals" ]%string.

(** *** [pandas.read_csv(buffer, names=vald_columns, index_col=False)]

    The C tokenizer ([tokenize_bytes] of [tokenizer.c]) with the defaults of
    every other option: fields are separated by commas; a record ends at a
    line feed, at a carriage return, or at the two together; lines that are
    empty or hold only blanks and tabs are skipped.  Quoting (the double
    quote) never comes into play: no match of [data_match] contains a double
    quote ([findall_no_double_quote] below). *)

Fixpoint split_on (p : N -> bool) (s : text) : list text :=
  match s with
  | [] => [[]]
  | c :: s' =>
    if p c then [] :: split_on p s'
    else match split_on p s' with
         | f :: fs => (c :: f) :: fs
         | [] => [[c]]
         end
  end.

Definition is_line_end (c : N) : bool := (c =? 10) || (c =? 13).
Definition is_comma (c : N) : bool := c =? 44.
Definition is_blank (c : N) : bool := (c =? 32) || (c =? 9).

(** The states of the tokenizer that these options reach.  [START_FIELD]
    and [IN_FIELD] differ only in how they treat a quote, and are one state
    here: it holds the fields of the record that are complete and the
    characters of the field being read.  [WHITESPACE_LINE] holds the blanks
    seen since the start of the line, [EAT_CRNL] the fields of the record
    that a carriage return has just ended. *)
Inductive tokenizer_state :=
| START_RECORD
| WHITESPACE_LINE (seen : text)
| IN_FIELD (fields : list text) (field : text)
| EAT_CRNL (fields : list text)
| EAT_CRNL_NOP.

(** The first character of a record.  An empty line is skipped; a blank or
    a tab may start a line of blanks; a comma ends an empty first field. *)
Definition start_record (c : N) : tokenizer_state :=
  if c =? 10 then START_RECORD
  else if c =? 13 then EAT_CRNL_NOP
  else if is_blank c then WHITESPACE_LINE [c]
  else if is_comma c then IN_FIELD [[]] []
  else IN_FIELD [] [c].

(** One character: the records it completes, and the next state.

    - A line of blanks that turns out to hold something else is read again
      from its start, as a record whose first field begins with the blanks.
    - After a carriage return that ended a record ([EAT_CRNL]), a line feed
      belongs to the line end, a comma opens the next record with an empty
      field, and any other character is read again as the first of a record.
    - After a carriage return that ended a skipped line ([EAT_CRNL_NOP]), a
      line feed or a comma is consumed; any other character is read again as
      the first of a record. *)
Definition tokenize_step (st : tokenizer_state) (c : N)
  : list (list text) * tokenizer_state :=
  match st with
  | START_RECORD => ([], start_record c)
  | WHITESPACE_LINE seen =>
    if c =? 10 then ([], START_RECORD)
    else if c =? 13 then ([], EAT_CRNL_NOP)
    else if is_blank c then ([], WHITESPACE_LINE (seen ++ [c]))
    else if is_comma c then ([], IN_FIELD [seen] [])
    else ([], IN_FIELD [] (seen ++ [c]))
  | IN_FIELD fields field =>
    if c =? 10 then ([fields ++ [field]], START_RECORD)
    else if c =? 13 then ([], EAT_CRNL (fields ++ [field]))
    else if is_comma c then ([], IN_FIELD (fields ++ [field]) [])
    else ([], IN_FIELD fields (field ++ [c]))
  | EAT_CRNL fields =>
    if c =? 10 then ([fields], START_RECORD)
    else if is_comma c then ([fields], IN_FIELD [[]] [])
    else ([fields], start_record c)
  | EAT_CRNL_NOP =>
    if (c =? 10) || is_comma c then ([], START_RECORD)
    else ([], start_record c)
  end.

(** The end of the buffer ([parser_handle_eof]): a record that was begun is
    completed. *)
Definition tokenize_eof (st : tokenizer_state) : list (list text) :=
  match st with
  | IN_FIELD fields field => [fields ++ [field]]
  | EAT_CRNL fields => [fields]
  | START_RECORD | WHITESPACE_LINE _ | EAT_CRNL_NOP => []
  end.

Fixpoint tokenize_from (st : tokenizer_state) (s : text) : list (list text) :=
  match s with
  | [] => tokenize_eof st
  | c :: s' => let (done, st') := tokenize_step st c in done ++ tokenize_from st' s'
  end.

(** The records of the buffer, each a list of fields. *)
Definition tokenize (s : text) : list (list text) := tokenize_from START_RECORD s.

(** The default [na_values]. *)
Definition na_values : list text :=
  [ []; T "#N/A"; T "#N/A N/A"; T "#NA"; T "-1.#IND"; T "-1.#QNAN"; T "-NaN";
    T "-nan"; T "1.#IND"; T "1.#QNAN"; T "<NA>"; T "N/A"; T "NA"; T "NULL";
    T "NaN"; T "None"; T "n/a"; T "nan"; T "null" ].

Definition cell_of (token : text) : cell :=
  if bool_decide (token ∈ na_values) then None else Some token.

(** Column [j] of the records; a record that is too short reads as empty
    fields there. *)
Definition column_of (recs : list (list text)) (j : nat) : list cell :=
  map (fun r => cell_of (nth j r [])) recs.

Definition frame_of_records (names : list string) (recs : list (list text)) : DataFrame :=
  {| nrows := length recs;
     columns := imap (fun j name => (name, column_of recs j)) names |}.

(** With [names] given there is no header row, so the first record is never
    refused.  It fixes the number of fields the tokenizer expects from then
    on: its own count, or the number of names when that is larger.  A later
    record with more fields raises [ParserError] ("Expected n fields in line
    l, saw m"); a shorter one is padded.  With [index_col=False] fields past
    the last name are dropped.  An empty buffer gives the empty table over
    [names]. *)
Definition read_csv (names : list string) (s : text) : result DataFrame :=
  match tokenize s with
  | [] => Ok (frame_of_records names [])
  | first :: rest =>
    let expected := Nat.max (length first) (length names) in
    if existsb (fun r => Nat.ltb expected (length r)) rest
    then Raise ParserError
    else Ok (frame_of_records names (first :: rest))
  end.

(** The number a decimal token denotes: an optional sign, digits, an
    optional fraction.  [None] for anything else. *)
Definition digit_value (c : N) : option Z :=
  if (48 <=? c) && (c <=? 57) then Some (Z.of_N c - 48)%Z else None.

Fixpoint digits_value (acc : Z) (s : text) : option (Z * nat) :=
  match s with
  | [] => Some (acc, O)
  | c :: s' =>
    match digit_value c with
    | Some d =>
      match digits_value (acc * 10 + d)%Z s' with
      | Some (v, n) => Some (v, S n)
      | None => None
      end
    | None => None
    end
  end.

Definition unsigned_value (s : text) : option Q :=
  match split_on (fun c => c =? 46) s with
  | [i] =>
    match i, digits_value 0 i with
    | _ :: _, Some (v, _) => Some (inject_Z v)
    | _, _ => None
    end
  | [i; f] =>
    match i ++ f, digits_value 0 (i ++ f) with
    | _ :: _, Some (v, _) => Some (Qmake v (Nat.iter (length f) (Pos.mul 10) 1%positive))
    | _, _ => None
    end
  | _ => None
  end.

Definition decimal_value (s : text) : option Q :=
  match s with
  | 45 :: s' => Qopp <$> unsigned_value s'
  | 43 :: s' => unsigned_value s'
  | _ => unsigned_value s
  end.

(** *** The string methods of a column *)

(** [Series.str.replace("'", "")]: every quote goes; NaN stays NaN. *)
Definition strip_quotes (t : text) : text := filter (fun c => negb (c =? 39)) t.
Definition str_replace_quote (col : list cell) : list cell := map (fmap strip_quotes) col.

(** [str.split(" ")]: at every space. *)
Definition split_space (t : text) : list text := split_on (fun c => c =? 32) t.

(** The parts of one value: a list for a string, the single NaN for NaN. *)
Definition parts_of (c : cell) : list cell :=
  match c with
  | Some t => map Some (split_space t)
  | None => [None]
  end.

(** [Series.str.split(" ", expand=True)]: a frame with as many columns as the
    longest list of parts (none for an empty series); shorter lists are
    padded with missing values, and a NaN value is NaN in every column. *)
Definition split_width (col : list cell) : nat :=
  foldr Nat.max O (map (fun c => length (parts_of c)) col).

Definition str_split_expand (col : list cell) : list (list cell) :=
  map (fun j => map (fun c => nth j (parts_of c) None) col) (seq 0 (split_width col)).

(** ** The loader and its world *)

(** [VALD_URL]. *)
Definition VALD_URL : string :=
  "https://media.githubusercontent.com/media/tardis-sn/carsus-db/master/vald/vald_latest.dat".

(** The attributes of a [VALDReader].  Tables are objects on the heap and the
    attributes hold references to them; [version] does not exist before the
    first read. *)
Record Loader := mkLoader {
  fname : string;
  _vald_raw : option nat;
  _vald : option nat;
  version : option string
}.

(** What the methods act upon: the loader, the heap of [DataFrame] objects,
    the locations the Source Fetcher was asked for (oldest first), the
    messages logged at level INFO, the HDF5 stores on disk (path, then key)
    and the store handles that are open. *)
Record State := mkState {
  self : Loader;
  heap : list DataFrame;
  fetched : list string;
  logged : list string;
  stores : gmap string (gmap string DataFrame);
  open_stores : list string
}.

Definition set_self (f : Loader -> Loader) (s : State) : State :=
  mkState (f (self s)) (heap s) (fetched s) (logged s) (stores s) (open_stores s).
Definition set_heap (f : list DataFrame -> list DataFrame) (s : State) : State :=
  mkState (self s) (f (heap s)) (fetched s) (logged s) (stores s) (open_stores s).
Definition set_fetched (f : list string -> list string) (s : State) : State :=
  mkState (self s) (heap s) (f (fetched s)) (logged s) (stores s) (open_stores s).
Definition set_logged (f : list string -> list string) (s : State) : State :=
  mkState (self s) (heap s) (fetched s) (f (logged s)) (stores s) (open_stores s).
Definition set_stores (f : gmap string (gmap string DataFrame) -> gmap string (gmap string DataFrame))
  (s : State) : State :=
  mkState (self s) (heap s) (fetched s) (logged s) (f (stores s)) (open_stores s).
Definition set_open_stores (f : list string -> list string) (s : State) : State :=
  mkState (self s) (heap s) (fetched s) (logged s) (stores s) (f (open_stores s)).

(** A method: it may change the state and either returns or raises; what it
    changed before raising stays changed. *)
Definition M (A : Type) : Type := State -> result A * State.

Definition ret {A} (a : A) : M A := fun s => (Ok a, s).
Definition raise {A} (e : exn) : M A := fun s => (Raise e, s).
Definition bind {A B} (m : M A) (k : A -> M B) : M B :=
  fun s => match m s with
           | (Ok a, s') => k a s'
           | (Raise e, s') => (Raise e, s')
           end.
Definition get_state : M State := fun s => (Ok s, s).
Definition modify (f : State -> State) : M unit := fun s => (Ok tt, f s).
Definition lift_result {A} (r : result A) : M A := fun s => (r, s).

Notation "x <- c ;; k" := (bind c (fun x => k))
  (at level 100, c at next level, right associativity).
Notation "c ;;; k" := (bind c (fun _ => k))
  (at level 100, right associativity).

(** [VALDReader(ions, fname, unique_level_identifier, priority)]: only
    [fname] is looked at; nothing is read. *)
Definition __init__ (fname_arg : option string) : Loader :=
  {| fname := match fname_arg with None => VALD_URL | Some f => f end;
     _vald_raw := None;
     _vald := None;
     version := None |}.

(** *** Objects on the heap *)

(** A new object; its reference is the next free address. *)
Definition alloc (df : DataFrame) : M nat :=
  fun s => (Ok (length (heap s)), set_heap (fun h => h ++ [df]) s).

(** The object behind a reference (references come from [alloc], so the
    lookup cannot fail for them; a dangling one reads as the empty frame). *)
Definition deref (l : nat) : M DataFrame :=
  fun s => (Ok (default (mkFrame 0 []) (heap s !! l)), s).

Definition store (l : nat) (df : DataFrame) : M unit :=
  modify (set_heap (fun h => <[l := df]> h)).

(** [df.copy()]: a new object with the same contents. *)
Definition copy (l : nat) : M nat := df <- deref l ;; alloc df.

(** [df[name]]. *)
Definition getitem (l : nat) (name : string) : M (list cell) :=
  df <- deref l ;;
  match lookup_column name (columns df) with
  | Some v => ret v
  | None => raise (KeyError name)
  end.

(** [df[name] = values], in place. *)
Definition setitem (l : nat) (name : string) (v : list cell) : M unit :=
  df <- deref l ;;
  store l (mkFrame (nrows df) (assign_column name v (columns df))).

(** [df[[k1, ..., kn]] = frame], in place: the frame must have as many
    columns as there are keys, then column by column. *)
Fixpoint setitem_each (l : nat) (keys : list string) (vs : list (list cell)) : M unit :=
  match keys, vs with
  | k :: keys', v :: vs' => setitem l k v ;;; setitem_each l keys' vs'
  | _, _ => ret tt
  end.

Definition setitem_frame (l : nat) (keys : list string) (vs : list (list cell)) : M unit :=
  if Nat.eqb (length vs) (length keys)
  then setitem_each l keys vs
  else raise ValueError.

(** [del df[name]], in place. *)
Definition delitem (l : nat) (name : string) : M unit :=
  df <- deref l ;;
  match lookup_column name (columns df) with
  | Some _ => store l (mkFrame (nrows df) (remove_column name (columns df)))
  | None => raise (KeyError name)
  end.

(** ** Sample data *)

(** Part of a table of decimal digits: the Arabic-Indic and the fullwidth
    digits. *)
Definition some_decimals (c : N) : bool :=
  (1632 <=? c) && (c <=? 1641) || (65296 <=? c) && (c <=? 65305).

(** A fetcher that finds the same bytes at every location. *)
Definition serve (content : list byte) (checksum : string)
  : list string -> string -> result (list byte * string) :=
  fun _ _ => Ok (content, checksum).

(** A fetcher that finds nothing. *)
Definition unreachable : list string -> string -> result (list byte * string) :=
  fun _ _ => Raise FetchError.


(** A disk on which every store can be opened and written, and one on which
    the key [/vald] cannot be written. *)
Definition disk_opens : string -> bool := fun _ => true.
Definition disk_writes : string -> string -> bool := fun _ _ => true.
Definition disk_full_at_vald : string -> string -> bool :=
  fun _ key => negb (String.eqb key "/vald").

(** A new loader in an empty world. *)
Definition new_loader (fname_arg : option string) : State :=
  mkState (__init__ fname_arg) [] [] [] ∅ [].

(** A file of one data row between two lines of other text. *)
Definition one_row_file : list byte :=
  B "# VALD extract" ++ [x0a]
  ++ B "'TiO 1',4100.00020,-11.472,0.2011,31.0,3.2242,32.0,99.000,99.000,99.000,6.962,0.000,0.000,"
  ++ [x0a] ++ B "References:" ++ [x0a].

(** A raw table of one row, and one whose only [elm_ion] has no space. *)
Definition one_row (elm_ion : text) : DataFrame :=
  frame_of_records vald_columns
    [ elm_ion :: map T [ "4100.00020"; "-11.472"; "0.2011"; "31.0"; "3.2242"; "32.0";
                         "99.000"; "99.000"; "99.000"; "6.962"; "0.000"; "0.000" ]%string ].

Definition two_rows (a b : text) : DataFrame :=
  frame_of_records vald_columns
    [ a :: map T [ "4100.00020"; "-11.472"; "0.2011"; "31.0"; "3.2242"; "32.0";
                   "99.000"; "99.000"; "99.000"; "6.962"; "0.000"; "0.000" ]%string;
      b :: map T [ "4100.00060"; "-9.82"; "0.3"; "30.0"; "3.3"; "31.0";
                   "99.000"; "99.000"; "99.000"; "6.9"; "0.000"; "0.000" ]%string ].

(** A world that holds one table and has a loader that has read nothing. *)
Definition holding (df : DataFrame) : State :=
  mkState (__init__ None) [df] [] [] ∅ [].

Section VALD.


(** [\d] on a [str] pattern is [Py_UNICODE_ISDECIMAL]: the ASCII digits and the
    decimal digits of the other scripts.  Which code points past ASCII count
    depends on the Unicode database of the interpreter; the table is a
    parameter, consulted for non-ASCII code points only. *)
Variable unicode_decimal : N -> bool.

Definition uni_digit (c : N) : bool :=
  if c <? 128 then (48 <=? c) && (c <=? 57) else unicode_decimal c.

Definition item_has (i : set_item) (c : N) : bool :=
  match i with
  | Chr a => c =? a
  | Rng lo hi => (lo <=? c) && (c <=? hi)
  | CatDigit => uni_digit c
  | CatSpace => uni_space c
  end.

Definition in_set (cs : charset) (c : N) : bool := existsb (fun i => item_has i c) cs.

(** A greedy repeat of a one-character item: take characters while they are
    in the set, then try the rest of the pattern; on failure give back one
    character at a time.  The result is the matched text and what follows. *)
Fixpoint greedy (p : N -> bool) (k : text -> option (text * text)) (s : text)
  : option (text * text) :=
  match s with
  | c :: s' =>
    if p c then
      match greedy p k s' with
      | Some (m, r) => Some (c :: m, r)
      | None => k s
      end
    else k s
  | [] => k []
  end.

(** The match of [re] that starts at the head of [s], if any: the matched
    text and the remainder. *)
Fixpoint match_here (re : regex) (s : text) {struct re} : option (text * text) :=
  match re with
  | [] => Some ([], s)
  | (cs, One) :: re' =>
    match s with
    | c :: s' =>
      if in_set cs c
      then match match_here re' s' with Some (m, r) => Some (c :: m, r) | None => None end
      else None
    | [] => None
    end
  | (cs, Plus) :: re' =>
    match s with
    | c :: s' =>
      if in_set cs c
      then match greedy (in_set cs) (match_here re') s' with
           | Some (m, r) => Some (c :: m, r)
           | None => None
           end
      else None
    | [] => None
    end
  | (cs, Star) :: re' => greedy (in_set cs) (match_here re') s
  end.

(** [re.findall] for a pattern without groups: the matched texts, leftmost
    first, each search resuming where the previous match ended ([skip] counts
    the characters of the last match still to pass; an empty match moves on
    by one character). *)
Fixpoint findall_from (re : regex) (skip : nat) (s : text) : list text :=
  match s with
  | [] =>
    match skip, match_here re [] with
    | O, Some (m, _) => [m]
    | _, _ => []
    end
  | _ :: s' =>
    match skip with
    | S n => findall_from re n s'
    | O =>
      match match_here re s with
      | Some (m, _) => m :: findall_from re (Nat.pred (length m)) s'
      | None => findall_from re 0 s'
      end
    end
  end.

Definition findall (re : regex) (s : text) : list text := findall_from re 0 s.

(** What it is for a text to match a pattern: the declarative reading of the
    quantifiers, against which the backtracking matcher is checked
    ([match_here_sound], [match_here_complete]). *)
Fixpoint matches (re : regex) (m : text) : Prop :=
  match re with
  | [] => m = []
  | (cs, One) :: re' =>
    exists c m', m = c :: m' /\ in_set cs c = true /\ matches re' m'
  | (cs, Plus) :: re' =>
    exists c run m', m = c :: run ++ m' /\ in_set cs c = true
      /\ Forall (fun x => in_set cs x = true) run /\ matches re' m'
  | (cs, Star) :: re' =>
    exists run m', m = run ++ m'
      /\ Forall (fun x => in_set cs x = true) run /\ matches re' m'
  end.

(** The longest prefix of [s] whose characters all satisfy [p]. *)
Fixpoint leading (p : N -> bool) (s : text) : text :=
  match s with
  | c :: s' => if p c then c :: leading p s' else []
  | [] => []
  end.


(** The Source Fetcher, [carsus.io.util.read_from_buffer]: for a location,
    the bytes found there and their checksum, or an exception.  What a
    location holds may change over time: the answer may depend on the
    requests made before. *)
Variable read_from_buffer : list string -> string -> result (list byte * string).

(** The HDF5 library during one call of [to_hdf]: whether the store can be
    opened for writing at a path, and whether a table can be written under a
    key of the store at a path.  One call asks each question once, so the
    answers are those of the disk at that call; the disk may answer another
    call differently, and a statement about two calls takes the answers of
    each. *)
Variable hdf_open_ok : string -> bool.
Variable hdf_put_ok : string -> string -> bool.

Definition fetch (location : string) : M (list byte * string) :=
  fun s => (read_from_buffer (fetched s) location,
            set_fetched (fun f => f ++ [location]) s).

(** [logger.info(message)]. *)
Definition logger_info (message : string) : M unit :=
  modify (set_logged (fun l => l ++ [message])).

Definition decode (buffer : list byte) : M text :=
  match utf8_decode buffer with
  | Some t => ret t
  | None => raise UnicodeDecodeError
  end.

(** [read_vald_raw(self, fname=None)]. *)
Definition read_vald_raw (fname_arg : option string) : M (nat * string) :=
  s <- get_state ;;
  let fname_ := match fname_arg with None => fname (self s) | Some f => f end in
  logger_info ("Parsing VALD from: " +:+ fname_) ;;;
  bc <- fetch (fname (self s)) ;;
  content <- decode (fst bc) ;;
  df <- lift_result (read_csv vald_columns
                       (join [10] (findall data_match content))) ;;
  vald <- alloc df ;;
  ret (vald, snd bc).

(** The property [vald_raw]. *)
Definition vald_raw : M nat :=
  s <- get_state ;;
  match _vald_raw (self s) with
  | Some l => ret l
  | None =>
    rv <- read_vald_raw None ;;
    modify (set_self (fun o => mkLoader (fname o) (Some (fst rv)) (_vald o) (Some (snd rv)))) ;;;
    ret (fst rv)
  end.

(** [parse_vald(self, vald_raw=None)]. *)
Definition parse_vald (vald_raw_arg : option nat) : M nat :=
  vald <- match vald_raw_arg with
          | Some l => ret l
          | None => r <- vald_raw ;; copy r
          end ;;
  col <- getitem vald "elm_ion" ;;
  setitem vald "elm_ion" (str_replace_quote col) ;;;
  col' <- getitem vald "elm_ion" ;;
  setitem_frame vald ["molecule"; "ion_charge"]%string (str_split_expand col') ;;;
  delitem vald "elm_ion" ;;;
  ret vald.

(** The property [vald]. *)
Definition vald : M nat :=
  s <- get_state ;;
  match _vald (self s) with
  | Some l => ret l
  | None =>
    p <- parse_vald None ;;
    modify (set_self (fun o => mkLoader (fname o) (_vald_raw o) (Some p) (version o))) ;;;
    ret p
  end.

(** *** The HDF5 store *)

(** [pd.HDFStore(path, "w")]: a new, empty file replaces whatever was at the
    path, and the handle is open. *)
Definition HDFStore_w (path : string) : M string :=
  if hdf_open_ok path
  then modify (fun s => set_open_stores (cons path) (set_stores (<[path := ∅]>) s)) ;;;
       ret path
  else raise StorageError.

(** [f.put(key, df)]: the contents of the table go under the key. *)
Definition put (f : string) (key : string) (l : nat) : M unit :=
  df <- deref l ;;
  if hdf_put_ok f key
  then modify (set_stores (fun st => <[f := <[key := df]> (default ∅ (st !! f))]> st))
  else raise StorageError.

(** [f.close()]. *)
Fixpoint remove_first (x : string) (l : list string) : list string :=
  match l with
  | [] => []
  | y :: l' => if String.eqb x y then l' else y :: remove_first x l'
  end.

Definition close (f : string) (s : State) : State :=
  set_open_stores (remove_first f) s.

(** [with pd.HDFStore(path, "w") as f: body]: the store is closed when the
    body returns and when it raises, and the exception goes on. *)
Definition with_HDFStore_w {A} (path : string) (body : string -> M A) : M A :=
  fun s =>
    match HDFStore_w path s with
    | (Ok f, s1) => let (r, s2) := body f s1 in (r, close f s2)
    | (Raise e, s1) => (Raise e, s1)
    end.

(** [to_hdf(self, fname)]. *)
Definition to_hdf (fname_arg : string) : M unit :=
  with_HDFStore_w fname_arg (fun f =>
    r <- vald_raw ;;
    put f "/vald_raw" r ;;;
    p <- vald ;;
    put f "/vald" p).

(** *** Abbreviations for the statements below *)

(** The state once [read_vald_raw] has logged its message and asked the
    fetcher. *)
Definition requested (fname_arg : option string) (s : State) : State :=
  set_fetched (fun f => f ++ [fname (self s)])
    (set_logged (fun l => l ++ ["Parsing VALD from: " +:+ default (fname (self s)) fname_arg]) s).

(** The raw table a call of [parse_vald] starts from: the one supplied, or
    the cached one. *)
Definition input_table (vald_raw_arg : option nat) (s : State) : option DataFrame :=
  match vald_raw_arg with
  | Some l => heap s !! l
  | None => r ← _vald_raw (self s); heap s !! r
  end.

(** Lines 140 to 145 of [parse_vald], on the object at [l]. *)
Definition split_elm_ion (l : nat) : M nat :=
  col <- getitem l "elm_ion" ;;
  setitem l "elm_ion" (str_replace_quote col) ;;;
  col' <- getitem l "elm_ion" ;;
  setitem_frame l ["molecule"; "ion_charge"]%string (str_split_expand col') ;;;
  delitem l "elm_ion" ;;;
  ret l.

(** The two views of the loader, and a caller that reads them one after the
    other, going on after an exception. *)
Inductive view := RawView | ParsedView.

Definition access (v : view) : M nat :=
  match v with RawView => vald_raw | ParsedView => vald end.

Fixpoint accesses (vs : list view) (s : State) : State :=
  match vs with
  | [] => s
  | v :: vs' => accesses vs' (snd (access v s))
  end.

(** The spec's reading of the split: at the first space only, the rest, with
    any further spaces, being the second part; no second part without a
    space. *)
Fixpoint split_first_space (t : text) : text * option text :=
  match t with
  | [] => ([], None)
  | c :: t' =>
    if c =? 32 then ([], Some t')
    else let (a, b) := split_first_space t' in (c :: a, b)
  end.

(** What holds of a loader however it was used: a cached reference is a
    reference to an object, and a parsed table is cached only when a raw one
    is. *)
Definition loader_ok (s : State) : Prop :=
  (forall r, _vald_raw (self s) = Some r -> (r < length (heap s))%nat)
  /\ (forall p, _vald (self s) = Some p ->
        (p < length (heap s))%nat /\ is_Some (_vald_raw (self s))).

(** The object [parse_vald] works on: the supplied table itself, or a new
    copy of the cached one. *)
Definition work_place (vald_raw_arg : option nat) (s : State) : nat :=
  match vald_raw_arg with Some l => l | None => length (heap s) end.

(** The columns of a table whose [elm_ion], already without quotes, was
    split into [mol] and [ion]. *)
Definition split_columns (raw : DataFrame) (col mol ion : list cell) : DataFrame :=
  mkFrame (nrows raw)
    (remove_column "elm_ion"
       (assign_column "ion_charge" ion
          (assign_column "molecule" mol
             (assign_column "elm_ion" col (columns raw))))).

(** What the views leave alone: the stores and their handles, the location
    of the loader, every object that exists, and whatever is cached; and
    once the raw table is cached, the fetcher's log. *)
Definition extends (s s' : State) : Prop :=
  stores s' = stores s
  /\ open_stores s' = open_stores s
  /\ fname (self s') = fname (self s)
  /\ (forall l df, heap s !! l = Some df -> heap s' !! l = Some df)
  /\ (forall r, _vald_raw (self s) = Some r ->
        _vald_raw (self s') = Some r /\ fetched s' = fetched s)
  /\ (forall p, _vald (self s) = Some p -> _vald (self s') = Some p).

(** The reference a view has cached. *)
Definition cached (v : view) (s : State) : option nat :=
  match v with RawView => _vald_raw (self s) | ParsedView => _vald (self s) end.

(** The state once the store at [path] is open for writing, and once a
    table is written under a key of it. *)
Definition opened (path : string) (s : State) : State :=
  set_open_stores (cons path) (set_stores (<[path := ∅]>) s).

Definition written (path key : string) (df : DataFrame) (s : State) : State :=
  set_stores (fun st => <[path := <[key := df]> (default ∅ (st !! path))]> st) s.

(** *** Abbreviations for the further properties *)

(** The set [[a-zA-Z]]. *)
Definition letter_set : charset := [Rng 97 122; Rng 65 90].

(** The element token and the charge token of a match: the letters after
    the opening quote, and the digits after the space that follows them. *)
Definition quoted_element (m : text) : text := leading (in_set letter_set) (drop 1 m).

Definition quoted_charge (m : text) : text :=
  leading uni_digit (drop (2 + length (quoted_element m)) m).

(** The table of no rows over [vald_columns]. *)
Definition no_rows : DataFrame := mkFrame 0 (map (fun n => (n, [])) vald_columns).

(** The number of fields of a line: one more than it has commas. *)
Definition fields_of (line : text) : nat := length (split_on is_comma line).

(** The parsed table of a raw table whose [elm_ion] column is [elm]. *)
Definition parsed_from (raw : DataFrame) (elm : list cell) : DataFrame :=
  let col := str_replace_quote elm in
  split_columns raw col (map (fun c => nth 0 (parts_of c) None) col)
                        (map (fun c => nth 1 (parts_of c) None) col).

(** The cached views agree: the parsed table, when there is one, is the
    parsed table of the cached raw table. *)
Definition views_agree (s : State) : Prop :=
  forall p, _vald (self s) = Some p ->
    exists r raw elm,
      _vald_raw (self s) = Some r /\ r <> p
      /\ heap s !! r = Some raw
      /\ lookup_column "elm_ion" (columns raw) = Some elm
      /\ heap s !! p = Some (parsed_from raw elm).

(** *** Tactics *)

(** A character is not in a set of the pattern. *)
Ltac set_excludes :=
  let H := fresh in
  intros H; unfold in_set in H; simpl in H; vm_compute in H; discriminate H.

(** A name is, or is not, in a list of column names. *)
Ltac absent_name H :=
  apply list_elem_of_In in H; simpl in H;
  repeat (destruct H as [H|H]; [discriminate H|]); exact H.

Ltac in_names :=
  match goal with
  | |- _ ∈ _ => apply list_elem_of_In; simpl; tauto
  | |- _ ∉ _ => let H := fresh in intros H; absent_name H
  end.

(** ** Properties *)

(** *** The matcher *)

Lemma data_match_compiled : re_compile pattern = Some data_match.
Proof. vm_compute. reflexivity. Qed.

Lemma greedy_sound (p : N -> bool) (k : text -> option (text * text)) (Q : text -> Prop) :
  (forall s m r, k s = Some (m, r) -> Q m /\ s = m ++ r) ->
  forall s m r, greedy p k s = Some (m, r) ->
    exists run m', m = run ++ m' /\ Forall (fun x => p x = true) run /\ Q m' /\ s = m ++ r.
Proof.
  intros Hk s. induction s as [|c s IH]; intros m r H; simpl in H.
  - destruct (Hk _ _ _ H) as [Hq ->]. exists [], m. auto.
  - destruct (p c) eqn:Hp.
    + destruct (greedy p k s) as [[m1 r1]|] eqn:Hg.
      * inversion H; subst; clear H.
        destruct (IH _ _ eq_refl) as (run & m' & -> & Hrun & Hq & ->).
        exists (c :: run), m'. repeat split; auto.
      * destruct (Hk _ _ _ H) as [Hq Hs]. exists [], m. auto.
    + destruct (Hk _ _ _ H) as [Hq Hs]. exists [], m. auto.
Qed.

Lemma match_here_sound (re : regex) :
  forall s m r, match_here re s = Some (m, r) -> matches re m /\ s = m ++ r.
Proof.
  induction re as [|[cs q] re IH]; intros s m r H; simpl in H.
  - inversion H; subst. split; reflexivity.
  - destruct q.
    + destruct s as [|c s]; [discriminate|].
      destruct (in_set cs c) eqn:Hc; [|discriminate].
      destruct (match_here re s) as [[m1 r1]|] eqn:Hm; [|discriminate].
      inversion H; subst; clear H.
      destruct (IH _ _ _ Hm) as [Hq ->]. split; [|reflexivity].
      simpl. exists c, m1. auto.
    + destruct s as [|c s]; [discriminate|].
      destruct (in_set cs c) eqn:Hc; [|discriminate].
      destruct (greedy _ _ s) as [[m1 r1]|] eqn:Hg; [|discriminate].
      inversion H; subst; clear H.
      destruct (greedy_sound _ _ (matches re) IH _ _ _ Hg) as (run & m' & -> & Hrun & Hq & ->).
      split; [|reflexivity]. simpl. exists c, run, m'. auto.
    + destruct (greedy_sound _ _ (matches re) IH _ _ _ H) as (run & m' & -> & Hrun & Hq & ->).
      split; [|reflexivity]. simpl. exists run, m'. auto.
Qed.

Lemma greedy_keeps (p : N -> bool) (k : text -> option (text * text)) (s : text) :
  k s <> None -> greedy p k s <> None.
Proof.
  intros Hk. destruct s as [|c s]; simpl; [exact Hk|].
  destruct (p c); [|exact Hk].
  destruct (greedy p k s) as [[? ?]|]; [discriminate|exact Hk].
Qed.

Lemma greedy_complete (p : N -> bool) (k : text -> option (text * text)) (run rest : text) :
  Forall (fun x => p x = true) run -> k rest <> None -> greedy p k (run ++ rest) <> None.
Proof.
  intros Hrun Hk. induction Hrun as [|c run Hc _ IH]; simpl.
  - apply greedy_keeps, Hk.
  - rewrite Hc. destruct (greedy p k (run ++ rest)) as [[? ?]|]; [discriminate|contradiction].
Qed.

Lemma match_here_complete (re : regex) :
  forall m r, matches re m -> match_here re (m ++ r) <> None.
Proof.
  induction re as [|[cs q] re IH]; intros m r H; simpl in H |- *.
  - discriminate.
  - destruct q.
    + destruct H as (c & m' & -> & Hc & Hm). simpl. rewrite Hc.
      specialize (IH m' r Hm). destruct (match_here re (m' ++ r)) as [[? ?]|];
        [discriminate|contradiction].
    + destruct H as (c & run & m' & -> & Hc & Hrun & Hm). simpl. rewrite Hc.
      rewrite <- app_assoc.
      pose proof (greedy_complete _ _ run (m' ++ r) Hrun (IH m' r Hm)) as Hg.
      destruct (greedy _ _ (run ++ m' ++ r)) as [[? ?]|]; [discriminate|contradiction].
    + destruct H as (run & m' & -> & Hrun & Hm). rewrite <- app_assoc.
      apply greedy_complete; auto.
Qed.

Lemma findall_from_elem (re : regex) (s : text) :
  forall skip m, m ∈ findall_from re skip s ->
    exists s' r, match_here re s' = Some (m, r).
Proof.
  induction s as [|c s IH]; intros skip m H; simpl in H.
  - destruct skip; [|inversion H].
    destruct (match_here re []) as [[m1 r1]|] eqn:Hm; [|inversion H].
    apply list_elem_of_singleton in H as ->. eauto.
  - destruct skip as [|n]; [|eauto].
    destruct (match_here re (c :: s)) as [[m1 r1]|] eqn:Hm; [|eauto].
    apply elem_of_cons in H as [->|H]; eauto.
Qed.

Lemma findall_nil_no_match (re : regex) (s : text) :
  findall_from re 0 s = [] ->
  forall a b, s = a ++ b -> match_here re b = None.
Proof.
  induction s as [|c s IH]; intros H a b Hs; simpl in H.
  - symmetry in Hs. apply app_eq_nil in Hs as [-> ->].
    destruct (match_here re []) as [[m1 r1]|]; [discriminate|reflexivity].
  - destruct (match_here re (c :: s)) as [[m1 r1]|] eqn:Hm; [discriminate|].
    destruct a as [|x a]; simpl in Hs.
    + subst b. exact Hm.
    + inversion Hs; subst. eapply IH; eauto.
Qed.

Lemma findall_from_skip (re : regex) (a b : text) :
  findall_from re (length a) (a ++ b) = findall_from re 0 b.
Proof. induction a as [|x a IH]; simpl; auto. Qed.

Lemma findall_from_prefix_none (re : regex) (rest : text) :
  forall pre,
  (forall a b, pre = a ++ b -> b <> [] -> match_here re (b ++ rest) = None) ->
  findall_from re 0 (pre ++ rest) = findall_from re 0 rest.
Proof.
  induction pre as [|c pre IH]; intros H; [reflexivity|].
  simpl. specialize (H [] (c :: pre) eq_refl ltac:(discriminate)) as H0. simpl in H0.
  rewrite H0. apply IH. intros a b -> Hb. apply (H (c :: a) b); auto.
Qed.

(** A match of [m] at the head of [m ++ rest] leaves the search to resume at
    [rest]. *)
Lemma findall_from_match (re : regex) (c : N) (m rest : text) :
  match_here re (c :: m ++ rest) = Some (c :: m, rest) ->
  findall_from re 0 (c :: m ++ rest)
  = (c :: m) :: findall_from re 0 rest.
Proof.
  intros H. simpl. simpl in H. rewrite H. simpl. f_equal. apply findall_from_skip.
Qed.

Lemma split_run (P : N -> Prop) (c : N) (run : text) :
  Forall P run -> ~ P c ->
  forall y a b, run ++ y = a ++ c :: b -> exists a', a = run ++ a' /\ y = a' ++ c :: b.
Proof.
  intros Hrun Hc. induction Hrun as [|x run Hx _ IH]; intros y a b H; simpl in H.
  - exists a. auto.
  - destruct a as [|x' a]; simpl in H; inversion H; subst.
    + contradiction.
    + destruct (IH _ _ _ H2) as (a' & -> & ->). exists a'. auto.
Qed.

Lemma match_starts_with_quote (m : text) :
  matches data_match m -> exists m', m = 39 :: m'.
Proof.
  simpl. intros (c & m' & -> & Hc & _).
  exists m'. f_equal. unfold in_set in Hc. simpl in Hc.
  rewrite orb_false_r in Hc. apply N.eqb_eq in Hc. exact Hc.
Qed.

Lemma quote_inside (u w : text) :
  matches data_match (u ++ 39 :: w) -> u <> [] -> exists w', w = 44 :: w'.
Proof.
  simpl. intros (c0 & m0 & E0 & _ & c1 & l1 & m1 & -> & Hc1 & Hl1
                 & c2 & m2 & -> & Hc2 & c3 & l3 & m3 & -> & Hc3 & Hl3
                 & c4 & m4 & -> & Hc4 & c5 & m5 & -> & Hc5
                 & c6 & l6 & m6 & -> & Hc6 & Hl6 & c7 & m7 & -> & Hc7
                 & l8 & m8 & -> & Hl8 & ->) Hu.
  destruct u as [|u0 u]; [contradiction|]. clear Hu.
  simpl in E0. injection E0 as -> E.
  (* the letters *)
  change (c1 :: l1 ++ c2 :: c3 :: l3 ++ c4 :: c5 :: c6 :: l6 ++ c7 :: l8 ++ [])
    with ((c1 :: l1) ++ c2 :: c3 :: l3 ++ c4 :: c5 :: c6 :: l6 ++ c7 :: l8 ++ []) in E.
  symmetry in E.
  eapply (split_run (fun x => in_set [Rng 97 122; Rng 65 90] x = true)) in E
    as (a1 & -> & E); [|constructor; assumption|set_excludes].
  destruct a1 as [|x1 a1]; simpl in E.
  { exfalso. injection E as -> _. revert Hc2. set_excludes. }
  injection E as -> E.
  (* the digits *)
  change (c3 :: l3 ++ c4 :: c5 :: c6 :: l6 ++ c7 :: l8 ++ [])
    with ((c3 :: l3) ++ c4 :: c5 :: c6 :: l6 ++ c7 :: l8 ++ []) in E.
  eapply (split_run (fun x => in_set [CatDigit] x = true)) in E
    as (a3 & -> & E); [|constructor; assumption|set_excludes].
  destruct a3 as [|x3 a3]; simpl in E.
  { injection E as _ E. subst w. exists (c6 :: l6 ++ c7 :: l8 ++ []). f_equal.
    unfold in_set in Hc5. simpl in Hc5. rewrite orb_false_r in Hc5.
    apply N.eqb_eq in Hc5. exact Hc5. }
  injection E as -> E.
  destruct a3 as [|x4 a3]; simpl in E.
  { exfalso. injection E as -> _. revert Hc5. set_excludes. }
  injection E as -> E.
  (* the fields *)
  change (c6 :: l6 ++ c7 :: l8 ++ []) with ((c6 :: l6) ++ c7 :: l8 ++ []) in E.
  eapply (split_run (fun x => in_set field_set x = true))
    in E as (a6 & -> & E); [|constructor; assumption|set_excludes].
  destruct a6 as [|x6 a6]; simpl in E.
  { exfalso. injection E as -> _. revert Hc7. set_excludes. }
  injection E as -> E.
  (* the closing brackets *)
  eapply (split_run (fun x => in_set [Chr 93] x = true)) in E
    as (a8 & -> & E); [|eassumption|set_excludes].
  destruct a8; discriminate E.
Qed.

Lemma no_match_before_sample (pre post : text) :
  findall data_match pre = [] ->
  forall a b, pre = a ++ b -> b <> [] ->
    match_here data_match (b ++ sample_line ++ post) = None.
Proof.
  intros Hpre a b -> Hb.
  destruct (match_here _ (b ++ _)) as [[m r]|] eqn:Hm; [exfalso|reflexivity].
  apply match_here_sound in Hm as [Hm E].
  apply app_eq_inv in E as [(k & -> & E)|(k & -> & E)].
  - apply (match_here_complete _ _ k Hm).
    eapply findall_nil_no_match; eauto.
  - destruct k as [|x k].
    + rewrite app_nil_r in *.
      apply (match_here_complete _ _ [] Hm). rewrite app_nil_r.
      eapply findall_nil_no_match; eauto.
    + change sample_line with (39 :: 84 :: drop 2 sample_line) in E.
      simpl in E. injection E as <- E.
      apply quote_inside in Hm as [w ->]; [|exact Hb]. discriminate E.
Qed.

(** A greedy repeat takes at least every run after which the rest of the
    pattern can match. *)
Lemma greedy_takes_run (p : N -> bool) (k : text -> option (text * text)) (run rest : text) :
  Forall (fun x => p x = true) run -> k rest <> None ->
  exists ext r, greedy p k (run ++ rest) = Some (run ++ ext, r)
                /\ greedy p k rest = Some (ext, r).
Proof.
  intros Hrun Hk. induction Hrun as [|x run Hx _ IH].
  - pose proof (greedy_keeps p k rest Hk) as Hg.
    destruct (greedy p k rest) as [[ext r]|] eqn:E; [|congruence].
    exists ext, r. simpl. rewrite ?E. split; reflexivity.
  - destruct IH as (ext & r & E1 & E2). exists ext, r. split; [|exact E2].
    simpl. rewrite Hx, E1. reflexivity.
Qed.

(** The match that starts at the sample line holds the sample line, and may
    run on into the text that follows. *)
Lemma sample_match_runs_on (post : text) :
  exists ext r, match_here data_match (sample_line ++ post) = Some (sample_line ++ ext, r)
                /\ post = ext ++ r.
Proof.
  pose (run := T "100.00020,-11.472,0.2011,31.0,3.2242,32.0,99.000,99.000,99.000,6.962,0.000,0.000").
  assert (Hrun : Forall (fun x => in_set field_set x = true) run).
  { unfold run. apply Forall_forall. intros x Hx. apply list_elem_of_In in Hx.
    vm_compute in Hx.
    repeat (destruct Hx as [<-|Hx]; [vm_compute; reflexivity|]). destruct Hx. }
  set (k := match_here [([Chr 44], One); ([Chr 93], Star)]).
  assert (Hk : k (44 :: post) <> None).
  { unfold k. cbn.
    pose proof (greedy_keeps (in_set [Chr 93]) (fun s => Some ([], s)) post) as Hg.
    specialize (Hg ltac:(discriminate)).
    destruct (greedy (in_set [Chr 93]) _ post) as [[m r]|]; [discriminate|congruence]. }
  destruct (greedy_takes_run (in_set field_set) k run (44 :: post) Hrun Hk)
    as (ext0 & r & E1 & E2).
  assert (Hext : exists ext, ext0 = 44 :: ext).
  { cbn [greedy] in E2. change (in_set field_set 44) with true in E2. cbv iota in E2.
    destruct (greedy (in_set field_set) k post) as [[m1 r1]|].
    - injection E2 as <- _. eexists. reflexivity.
    - unfold k in E2. cbn in E2.
      destruct (greedy (in_set [Chr 93]) _ post) as [[m2 r2]|]; [|discriminate E2].
      injection E2 as <- _. eexists. reflexivity. }
  destruct Hext as [ext ->]. exists ext, r.
  assert (Hm : match_here data_match (sample_line ++ post) = Some (sample_line ++ ext, r)).
  { change sample_line with ([39; 84; 105; 79; 32; 49; 39; 44; 52] ++ run ++ [44]).
    fold k in E1. clearbody run. rewrite <- !app_assoc. cbn. fold k.
    match goal with
    | |- context [greedy ?p ?f (run ++ 44 :: post)] =>
      replace (greedy p f (run ++ 44 :: post)) with (Some (run ++ 44 :: ext, r))
        by (symmetry; exact E1)
    end.
    reflexivity. }
  split; [exact Hm|].
  apply match_here_sound in Hm as [_ Hm]. rewrite <- app_assoc in Hm.
  apply app_inv_head in Hm. exact Hm.
Qed.

Lemma findall_tail_nil (a b : text) :
  findall data_match (a ++ b) = [] -> findall data_match b = [].
Proof.
  intros H. unfold findall.
  rewrite <- (app_nil_r b).
  rewrite findall_from_prefix_none; [reflexivity|].
  intros x y -> _. rewrite app_nil_r.
  apply (findall_nil_no_match _ _ H (a ++ x) y). apply app_assoc.
Qed.

(** The sample line between two stretches without a match: one match, which
    begins with the sample line. *)
Lemma findall_sample_runs_on (pre post : text) :
  findall data_match pre = [] ->
  findall data_match post = [] ->
  exists ext r, match_here data_match (sample_line ++ post) = Some (sample_line ++ ext, r)
                /\ findall data_match (pre ++ sample_line ++ post) = [sample_line ++ ext].
Proof.
  intros Hpre Hpost.
  destruct (sample_match_runs_on post) as (ext & r & Hm & E).
  exists ext, r. split; [exact Hm|]. unfold findall.
  rewrite findall_from_prefix_none by (apply no_match_before_sample; exact Hpre).
  assert (Hr : findall data_match r = []) by (apply (findall_tail_nil ext); rewrite <- E; exact Hpost).
  rewrite E in Hm |- *. rewrite app_assoc in Hm |- *.
  change sample_line with (39 :: drop 1 sample_line) in Hm |- *.
  rewrite <- !app_comm_cons in Hm |- *.
  rewrite (findall_from_match _ _ _ _ Hm). f_equal. exact Hr.
Qed.

Lemma matches_members (re : regex) :
  forall m, matches re m ->
    Forall (fun c => Exists (fun it => in_set (fst it) c = true) re) m.
Proof.
  induction re as [|[cs q] re IH]; intros m H; simpl in H.
  - subst m. constructor.
  - assert (Hlater : forall m', matches re m' ->
              Forall (fun c => Exists (fun it => in_set (fst it) c = true) ((cs, q) :: re)) m').
    { intros m' Hm'. eapply Forall_impl; [apply IH, Hm'|].
      intros c Hc. apply Exists_cons_tl, Hc. }
    assert (Hrun : forall run, Forall (fun x => in_set cs x = true) run ->
              Forall (fun c => Exists (fun it => in_set (fst it) c = true) ((cs, q) :: re)) run).
    { intros run Hr. eapply Forall_impl; [exact Hr|].
      intros c Hc. apply Exists_cons_hd, Hc. }
    destruct q.
    + destruct H as (c & m' & -> & Hc & Hm). constructor; [apply Exists_cons_hd, Hc|auto].
    + destruct H as (c & run & m' & -> & Hc & Hr & Hm).
      constructor; [apply Exists_cons_hd, Hc|]. apply Forall_app. auto.
    + destruct H as (run & m' & -> & Hr & Hm). apply Forall_app. auto.
Qed.

(** No match holds a double quote, the one character that would make the
    CSV tokenizer treat commas and line ends as part of a field. *)
Lemma findall_no_double_quote (content : text) :
  Forall (fun m => 34 ∉ m) (findall data_match content).
Proof.
  apply Forall_forall. intros m Hm H34.
  apply findall_from_elem in Hm as (s' & r & Hm).
  apply match_here_sound in Hm as [Hm _]. apply matches_members in Hm.
  rewrite Forall_forall in Hm. specialize (Hm _ H34).
  unfold data_match in Hm.
  repeat (apply Exists_cons in Hm as [Hm|Hm]; [revert Hm; simpl fst; set_excludes|]).
  inversion Hm.
Qed.

(** *** Reading the records *)

Lemma split_on_nonempty (p : N -> bool) (s : text) : split_on p s <> [].
Proof.
  destruct s as [|c s]; simpl; [discriminate|].
  destruct (p c); [discriminate|]. destruct (split_on p s); discriminate.
Qed.

Lemma split_on_app (p : N -> bool) (a : text) (c : N) (b : text) :
  p c = true -> split_on p (a ++ c :: b) = split_on p a ++ split_on p b.
Proof.
  intros Hc. induction a as [|x a IH]; simpl.
  - rewrite Hc. reflexivity.
  - destruct (p x).
    + rewrite IH. reflexivity.
    + rewrite IH. pose proof (split_on_nonempty p a).
      destruct (split_on p a); [contradiction|reflexivity].
Qed.

Lemma split_on_none (p : N -> bool) (s : text) :
  Forall (fun c => p c = false) s -> split_on p s = [s].
Proof.
  induction 1 as [|c s Hc _ IH]; simpl; [reflexivity|]. rewrite Hc, IH. reflexivity.
Qed.

Lemma tokenize_step_line_feed (st : tokenizer_state) :
  tokenize_step st 10 = (tokenize_eof st, START_RECORD).
Proof. destruct st; reflexivity. Qed.

Lemma tokenize_from_line_feed (a b : text) :
  forall st, tokenize_from st (a ++ 10 :: b) = tokenize_from st a ++ tokenize b.
Proof.
  induction a as [|c a IH]; intros st.
  - simpl. rewrite tokenize_step_line_feed. reflexivity.
  - simpl. destruct (tokenize_step st c) as [done st']. rewrite IH. apply app_assoc.
Qed.

Lemma tokenize_join (ms : list text) :
  tokenize (join [10] ms) = concat (map tokenize ms).
Proof.
  induction ms as [|m ms IH]; [reflexivity|].
  destruct ms as [|m' ms].
  - simpl. rewrite !app_nil_r. reflexivity.
  - change (join [10] (m :: m' :: ms)) with (m ++ 10 :: join [10] (m' :: ms)).
    unfold tokenize at 1. rewrite tokenize_from_line_feed, IH. reflexivity.
Qed.

(** A record that was begun is completed, whatever follows. *)
Lemma tokenize_from_begun (s : text) :
  forall st, match st with IN_FIELD _ _ | EAT_CRNL _ => True | _ => False end ->
             (1 <= length (tokenize_from st s))%nat.
Proof.
  induction s as [|c s IH]; intros st Hst.
  - destruct st; try contradiction; simpl; lia.
  - destruct st as [|seen|fields field|fields|]; try contradiction; simpl.
    + destruct (c =? 10); [simpl; lia|].
      destruct (c =? 13); [apply IH; exact I|].
      destruct (is_comma c); apply IH; exact I.
    + destruct (c =? 10); [simpl; lia|]. destruct (is_comma c); simpl; lia.
Qed.

Lemma tokenize_quote_first (m : text) : (1 <= length (tokenize (39%N :: m)))%nat.
Proof. apply (tokenize_from_begun m (IN_FIELD [] [39])). exact I. Qed.

(** Inside a line, the tokenizer splits at the commas. *)
Lemma tokenize_from_in_line (s : text) :
  Forall (fun c => is_line_end c = false) s ->
  forall fields field f fs,
    split_on is_comma s = f :: fs ->
    tokenize_from (IN_FIELD fields field) s = [fields ++ (field ++ f) :: fs].
Proof.
  induction 1 as [|c s Hc _ IH]; intros fields field f fs Hs.
  - injection Hs as <- <-. simpl. rewrite app_nil_r. reflexivity.
  - unfold is_line_end in Hc. apply orb_false_iff in Hc as [H10 H13].
    simpl in Hs |- *. rewrite H10, H13.
    pose proof (split_on_nonempty is_comma s) as Hne.
    destruct (is_comma c).
    + injection Hs as <- <-. simpl.
      destruct (split_on is_comma s) as [|g gs] eqn:E; [contradiction|].
      rewrite (IH _ _ g gs eq_refl). rewrite app_nil_r, <- app_assoc. reflexivity.
    + destruct (split_on is_comma s) as [|g gs] eqn:E; [contradiction|].
      injection Hs as <- <-. simpl.
      rewrite (IH _ _ g gs eq_refl). rewrite <- app_assoc. reflexivity.
Qed.

Lemma tokenize_single_line (m : text) :
  Forall (fun c => is_line_end c = false) (39 :: m) ->
  tokenize (39 :: m) = [split_on is_comma (39 :: m)].
Proof.
  intros H. apply Forall_cons in H as [_ H].
  pose proof (split_on_nonempty is_comma m) as Hne.
  destruct (split_on is_comma m) as [|f fs] eqn:E; [contradiction|].
  change (tokenize (39 :: m)) with (tokenize_from (IN_FIELD [] [39]) m).
  rewrite (tokenize_from_in_line m H [] [39] f fs E).
  simpl. rewrite E. reflexivity.
Qed.

Lemma tokenize_one_line (m : text) :
  Forall (fun c => is_line_end c = false) (39 :: m) -> length (tokenize (39 :: m)) = 1%nat.
Proof. intros H. rewrite (tokenize_single_line m H). reflexivity. Qed.

Lemma length_concat_ge {A} (f : text -> list A) (ms : list text) :
  Forall (fun m => 1 <= length (f m))%nat ms ->
  (length ms <= length (concat (map f ms)))%nat.
Proof.
  induction 1 as [|m ms Hm _ IH]; simpl; [lia|]. rewrite length_app. lia.
Qed.

Lemma length_concat_eq {A} (f : text -> list A) (ms : list text) :
  Forall (fun m => length (f m) = 1%nat) ms ->
  length (concat (map f ms)) = length ms.
Proof.
  induction 1 as [|m ms Hm _ IH]; simpl; [lia|]. rewrite length_app. lia.
Qed.

Lemma fst_imap_pair {A} (f : nat -> string -> A) (names : list string) :
  map fst (imap (fun j name => (name, f j name)) names) = names.
Proof.
  revert f. induction names as [|n names IH]; intros f; simpl; [reflexivity|].
  f_equal. apply (IH (fun j => f (S j))).
Qed.

Lemma frame_of_records_names (names : list string) (recs : list (list text)) :
  column_names (frame_of_records names recs) = names.
Proof.
  unfold column_names, frame_of_records. simpl.
  apply (fst_imap_pair (fun j _ => column_of recs j)).
Qed.

Lemma frame_of_records_well_formed (names : list string) (recs : list (list text)) :
  well_formed (frame_of_records names recs).
Proof.
  unfold well_formed, frame_of_records. simpl.
  apply Forall_forall. intros [n v] Hin.
  apply elem_of_lookup_imap in Hin as (j & name & E & _).
  inversion E; subst. simpl. unfold column_of. apply length_map.
Qed.

Lemma read_csv_ok (names : list string) (s : text) (df : DataFrame) :
  read_csv names s = Ok df -> df = frame_of_records names (tokenize s).
Proof.
  unfold read_csv. destruct (tokenize s) as [|first rest].
  - intros [= <-]. reflexivity.
  - destruct (existsb _ rest); [discriminate|]. intros [= <-]. reflexivity.
Qed.

(** *** Columns *)

Lemma lookup_assign_same (n : string) (v : list cell) (cols : list (string * list cell)) :
  lookup_column n (assign_column n v cols) = Some v.
Proof.
  induction cols as [|[n' w] cols IH]; simpl.
  - rewrite String.eqb_refl. reflexivity.
  - destruct (String.eqb n' n) eqn:E; simpl; rewrite E; auto.
Qed.

Lemma lookup_assign_other (n n' : string) (v : list cell) (cols : list (string * list cell)) :
  n <> n' -> lookup_column n' (assign_column n v cols) = lookup_column n' cols.
Proof.
  intros Hne. induction cols as [|[m w] cols IH]; simpl.
  - apply String.eqb_neq in Hne. rewrite Hne. reflexivity.
  - destruct (String.eqb m n) eqn:E; simpl.
    + apply String.eqb_eq in E as ->. apply String.eqb_neq in Hne. rewrite Hne. reflexivity.
    + destruct (String.eqb m n'); auto.
Qed.

Lemma lookup_remove_other (n n' : string) (cols : list (string * list cell)) :
  n <> n' -> lookup_column n' (remove_column n cols) = lookup_column n' cols.
Proof.
  intros Hne. induction cols as [|[m w] cols IH]; simpl; [reflexivity|].
  destruct (String.eqb m n) eqn:E; simpl.
  - apply String.eqb_eq in E as ->. apply String.eqb_neq in Hne. rewrite Hne. reflexivity.
  - destruct (String.eqb m n'); auto.
Qed.

Lemma lookup_column_None (n : string) (cols : list (string * list cell)) :
  n ∉ map fst cols -> lookup_column n cols = None.
Proof.
  induction cols as [|[m w] cols IH]; simpl; intros H; [reflexivity|].
  apply not_elem_of_cons in H as [Hne H].
  destruct (String.eqb_spec m n); [congruence|auto].
Qed.

Lemma lookup_remove_same (n : string) (cols : list (string * list cell)) :
  NoDup (map fst cols) -> lookup_column n (remove_column n cols) = None.
Proof.
  induction cols as [|[m w] cols IH]; simpl; intros H; [reflexivity|].
  apply NoDup_cons in H as [Hm H].
  destruct (String.eqb_spec m n) as [->|Hne].
  - apply lookup_column_None, Hm.
  - simpl. destruct (String.eqb_spec m n); [congruence|auto].
Qed.

Lemma names_assign_present (n : string) (v : list cell) (cols : list (string * list cell)) :
  n ∈ map fst cols -> map fst (assign_column n v cols) = map fst cols.
Proof.
  induction cols as [|[m w] cols IH]; simpl; intros H; [inversion H|].
  destruct (String.eqb_spec m n) as [->|Hne]; [reflexivity|].
  simpl. f_equal. apply IH. apply elem_of_cons in H as [->|H]; [congruence|exact H].
Qed.

Lemma names_assign_absent (n : string) (v : list cell) (cols : list (string * list cell)) :
  n ∉ map fst cols -> map fst (assign_column n v cols) = map fst cols ++ [n].
Proof.
  induction cols as [|[m w] cols IH]; simpl; intros H; [reflexivity|].
  apply not_elem_of_cons in H as [Hne H].
  destruct (String.eqb_spec m n); [congruence|]. simpl. f_equal. auto.
Qed.

Lemma names_remove (n : string) (cols : list (string * list cell)) (a b : list string) :
  map fst cols = a ++ n :: b -> n ∉ a -> map fst (remove_column n cols) = a ++ b.
Proof.
  revert a. induction cols as [|[m w] cols IH]; simpl; intros a H Ha.
  - destruct a; discriminate.
  - destruct a as [|x a]; simpl in H; injection H as -> H.
    + rewrite String.eqb_refl. exact H.
    + apply not_elem_of_cons in Ha as [Hne Ha].
      destruct (String.eqb_spec x n); [congruence|]. simpl. f_equal. auto.
Qed.

(** *** The split *)

Lemma length_str_split_expand (col : list cell) :
  length (str_split_expand col) = split_width col.
Proof. unfold str_split_expand. rewrite length_map, length_seq. reflexivity. Qed.

Lemma split_on_one (p : N -> bool) (s : text) :
  length (split_on p s) = 1%nat -> split_on p s = [s].
Proof.
  induction s as [|c s IH]; simpl; [reflexivity|].
  destruct (p c); simpl.
  - pose proof (split_on_nonempty p s). destruct (split_on p s); [contradiction|discriminate].
  - pose proof (split_on_nonempty p s) as Hs.
    destruct (split_on p s) as [|f fs] eqn:E; [contradiction|]. simpl. intros H.
    injection (IH H) as -> ->. reflexivity.
Qed.

Lemma join_split_on (sep : N) (s : text) :
  join [sep] (split_on (fun c => c =? sep) s) = s.
Proof.
  induction s as [|c s IH]; simpl; [reflexivity|].
  destruct (N.eqb_spec c sep) as [->|Hne].
  - pose proof (split_on_nonempty (fun c => c =? sep) s) as Hne.
    destruct (split_on _ s) as [|f fs] eqn:E; [contradiction|].
    change (join [sep] ([] :: f :: fs)) with (sep :: join [sep] (f :: fs)).
    rewrite IH. reflexivity.
  - pose proof (split_on_nonempty (fun c => c =? sep) s) as Hs.
    destruct (split_on _ s) as [|f fs] eqn:E; [contradiction|].
    destruct fs as [|g fs]; simpl in IH |- *; subst s; reflexivity.
Qed.

(** *** The methods, evaluated *)

Lemma read_vald_raw_eval (arg : option string) (s : State) :
  read_vald_raw arg s =
  match read_from_buffer (fetched s) (fname (self s)) with
  | Raise e => (Raise e, requested arg s)
  | Ok (buf, ck) =>
    match utf8_decode buf with
    | None => (Raise UnicodeDecodeError, requested arg s)
    | Some content =>
      match read_csv vald_columns (join [10] (findall data_match content)) with
      | Raise e => (Raise e, requested arg s)
      | Ok df => (Ok (length (heap s), ck), set_heap (fun h => h ++ [df]) (requested arg s))
      end
    end
  end.
Proof.
  unfold read_vald_raw, requested, bind, get_state, logger_info, modify, fetch, decode,
    lift_result, alloc, ret, raise. cbn.
  destruct arg; cbn;
    (destruct (read_from_buffer (fetched s) (fname (self s))) as [[buf ck]|e]; [|reflexivity];
     cbn; destruct (utf8_decode buf) as [content|]; [|reflexivity];
     cbn; destruct (read_csv _ _); reflexivity).
Qed.

Lemma vald_raw_eval (s : State) :
  vald_raw s =
  match _vald_raw (self s) with
  | Some l => (Ok l, s)
  | None =>
    match read_vald_raw None s with
    | (Ok (l, ck), s') =>
      (Ok l, set_self (fun o => mkLoader (fname o) (Some l) (_vald o) (Some ck)) s')
    | (Raise e, s') => (Raise e, s')
    end
  end.
Proof.
  unfold vald_raw, bind, get_state, modify, ret. cbv beta iota.
  destruct (_vald_raw (self s)); [reflexivity|]. cbv beta iota.
  destruct (read_vald_raw None s) as [[[l ck]|e] s']; reflexivity.
Qed.

Lemma vald_eval (s : State) :
  vald s =
  match _vald (self s) with
  | Some p => (Ok p, s)
  | None =>
    match parse_vald None s with
    | (Ok p, s') =>
      (Ok p, set_self (fun o => mkLoader (fname o) (_vald_raw o) (Some p) (version o)) s')
    | (Raise e, s') => (Raise e, s')
    end
  end.
Proof.
  unfold vald, bind, get_state, modify, ret. cbv beta iota.
  destruct (_vald (self s)); [reflexivity|]. cbv beta iota.
  destruct (parse_vald None s) as [[p|e] s']; reflexivity.
Qed.

Lemma parse_vald_eval (arg : option nat) (s : State) :
  parse_vald arg s =
  match arg with
  | Some l => split_elm_ion l s
  | None =>
    match vald_raw s with
    | (Ok r, s') =>
      split_elm_ion (length (heap s'))
        (set_heap (fun h => h ++ [default (mkFrame 0 []) (h !! r)]) s')
    | (Raise e, s') => (Raise e, s')
    end
  end.
Proof.
  unfold parse_vald, split_elm_ion, copy, alloc, deref, bind, ret. destruct arg; [reflexivity|].
  cbv beta iota. destruct (vald_raw s) as [[r|e] s']; reflexivity.
Qed.

Lemma bind_ok {A C} (m : M A) (k : A -> M C) (s s' : State) (a : A) :
  m s = (Ok a, s') -> bind m k s = k a s'.
Proof. intros H. unfold bind. rewrite H. reflexivity. Qed.

Lemma bind_raise {A C} (m : M A) (k : A -> M C) (s s' : State) (e : exn) :
  m s = (Raise e, s') -> bind m k s = (Raise e, s').
Proof. intros H. unfold bind. rewrite H. reflexivity. Qed.

Lemma getitem_ok (l : nat) (n : string) (s : State) (df : DataFrame) (v : list cell) :
  heap s !! l = Some df -> lookup_column n (columns df) = Some v ->
  getitem l n s = (Ok v, s).
Proof. intros H Hv. unfold getitem, bind, deref. rewrite H. simpl. rewrite Hv. reflexivity. Qed.

Lemma getitem_missing (l : nat) (n : string) (s : State) (df : DataFrame) :
  heap s !! l = Some df -> lookup_column n (columns df) = None ->
  getitem l n s = (Raise (KeyError n), s).
Proof. intros H Hv. unfold getitem, bind, deref. rewrite H. simpl. rewrite Hv. reflexivity. Qed.

Lemma setitem_eval (l : nat) (n : string) (v : list cell) (s : State) (df : DataFrame) :
  heap s !! l = Some df ->
  setitem l n v s
  = (Ok tt, set_heap (fun h => <[l := mkFrame (nrows df) (assign_column n v (columns df))]> h) s).
Proof. intros H. unfold setitem, bind, deref, store, modify. rewrite H. reflexivity. Qed.

Lemma delitem_ok (l : nat) (n : string) (s : State) (df : DataFrame) (v : list cell) :
  heap s !! l = Some df -> lookup_column n (columns df) = Some v ->
  delitem l n s
  = (Ok tt, set_heap (fun h => <[l := mkFrame (nrows df) (remove_column n (columns df))]> h) s).
Proof.
  intros H Hv. unfold delitem, bind, deref, store, modify. rewrite H. simpl. rewrite Hv.
  reflexivity.
Qed.

Lemma heap_updated (l : nat) (s : State) (df new : DataFrame) :
  heap s !! l = Some df -> heap (set_heap (fun h => <[l := new]> h) s) !! l = Some new.
Proof. intros H. simpl. apply list_lookup_insert_eq. eapply lookup_lt_Some, H. Qed.

Lemma set_heap_again (l : nat) (a b : DataFrame) (s : State) :
  set_heap (fun h => <[l := b]> h) (set_heap (fun h => <[l := a]> h) s)
  = set_heap (fun h => <[l := b]> h) s.
Proof. unfold set_heap. simpl. rewrite list_insert_insert_eq. reflexivity. Qed.

(** What [parse_vald] does to the table it works on: [elm_ion] without the
    quotes, then, if the split has exactly two columns, these as [molecule]
    and [ion_charge] and [elm_ion] gone; otherwise [ValueError], the table
    keeping the stripped [elm_ion]. *)
Lemma split_elm_ion_eval (l : nat) (s : State) (df : DataFrame) (col : list cell) :
  heap s !! l = Some df ->
  lookup_column "elm_ion" (columns df) = Some col ->
  split_elm_ion l s =
  let stripped := assign_column "elm_ion" (str_replace_quote col) (columns df) in
  match str_split_expand (str_replace_quote col) with
  | [mol; ion] =>
    (Ok l, set_heap (fun h => <[l := mkFrame (nrows df)
                (remove_column "elm_ion"
                   (assign_column "ion_charge" ion (assign_column "molecule" mol stripped)))]> h) s)
  | _ => (Raise ValueError, set_heap (fun h => <[l := mkFrame (nrows df) stripped]> h) s)
  end.
Proof.
  intros Hl Hcol. unfold split_elm_ion.
  rewrite (bind_ok _ _ _ _ _ (getitem_ok _ _ _ _ _ Hl Hcol)).
  rewrite (bind_ok _ _ _ _ _ (setitem_eval _ _ _ _ _ Hl)).
  set (d1 := mkFrame (nrows df) (assign_column "elm_ion" (str_replace_quote col) (columns df))).
  pose proof (heap_updated l s df d1 Hl) as H1.
  rewrite (bind_ok _ _ _ _ _ (getitem_ok _ _ _ _ _ H1 (lookup_assign_same _ _ _))).
  unfold setitem_frame.
  destruct (str_split_expand (str_replace_quote col)) as [|mol [|ion [|x rest]]];
    try reflexivity.
  cbn [length Nat.eqb setitem_each].
  set (d2 := mkFrame (nrows df) (assign_column "molecule" mol (columns d1))).
  set (d3 := mkFrame (nrows df) (assign_column "ion_charge" ion (columns d2))).
  pose proof (heap_updated l s df d2 Hl) as H2.
  pose proof (heap_updated l s df d3 Hl) as H3.
  assert (E : (setitem l "molecule" mol ;;; setitem l "ion_charge" ion ;;; ret tt)
                (set_heap (fun h => <[l := d1]> h) s)
              = (Ok tt, set_heap (fun h => <[l := d3]> h) s)).
  { rewrite (bind_ok _ _ _ _ _ (setitem_eval _ _ _ _ _ H1)), set_heap_again.
    rewrite (bind_ok _ _ _ _ _ (setitem_eval _ _ _ _ _ H2)), set_heap_again.
    reflexivity. }
  rewrite (bind_ok _ _ _ _ _ E).
  assert (Hd : lookup_column "elm_ion" (columns d3) = Some (str_replace_quote col)).
  { cbn [columns d3 d2 d1].
    rewrite lookup_assign_other, lookup_assign_other, lookup_assign_same by discriminate.
    reflexivity. }
  rewrite (bind_ok _ _ _ _ _ (delitem_ok _ _ _ _ _ H3 Hd)), set_heap_again.
  reflexivity.
Qed.

Lemma split_elm_ion_no_column (l : nat) (s : State) (df : DataFrame) :
  heap s !! l = Some df ->
  lookup_column "elm_ion" (columns df) = None ->
  split_elm_ion l s = (Raise (KeyError "elm_ion"), s).
Proof.
  intros Hl Hcol. unfold split_elm_ion.
  rewrite (bind_raise _ _ _ _ _ (getitem_missing _ _ _ _ Hl Hcol)). reflexivity.
Qed.

(** ** The claims *)

(** C1, in the form that holds of the code.
    When the buffer is UTF-8 and no part of its text matches the row
    pattern, [read_vald_raw] returns, without raising, a new table of 0 rows
    and the 13 columns of [vald_columns], with the checksum of the fetch; so
    does the first access of the property [vald_raw]. *)
Theorem C1_no_match_gives_empty_table
    (arg : option string) (s : State) (buf : list byte) (ck : string) (content : text) :
  read_from_buffer (fetched s) (fname (self s)) = Ok (buf, ck) ->
  utf8_decode buf = Some content ->
  findall data_match content = [] ->
  let empty := mkFrame 0 (map (fun n => (n, [])) vald_columns) in
  read_vald_raw arg s
    = (Ok (length (heap s), ck), set_heap (fun h => h ++ [empty]) (requested arg s))
  /\ shape empty = (0, 13)%nat
  /\ (_vald_raw (self s) = None ->
      exists s', vald_raw s = (Ok (length (heap s)), s')
                 /\ heap s' !! length (heap s) = Some empty).
Proof.
  intros Hf Hd Hm empty.
  assert (E : forall a, read_vald_raw a s
            = (Ok (length (heap s), ck), set_heap (fun h => h ++ [empty]) (requested a s))).
  { intros a. rewrite read_vald_raw_eval, Hf, Hd, Hm. reflexivity. }
  split; [apply E|]. split; [reflexivity|].
  intros Hc. rewrite vald_raw_eval, Hc, E. eexists. split; [reflexivity|].
  simpl. apply list_lookup_middle. reflexivity.
Qed.

Lemma findall_starts_with_quote (content : text) :
  Forall (fun m => exists m', m = 39 :: m') (findall data_match content).
Proof.
  apply Forall_forall. intros m Hm.
  apply findall_from_elem in Hm as (s' & r & Hm).
  apply match_here_sound in Hm as [Hm _]. apply match_starts_with_quote, Hm.
Qed.

(** C5, in the form that holds of the code.
    When [read_vald_raw] returns a table, the table has the 13 columns of
    [vald_columns] and at least one row per match of the row pattern, and
    exactly one per match when no match contains a line feed or a carriage
    return. *)
Theorem C5_rows_and_columns
    (arg : option string) (s s' : State) (l : nat) (ck : string) :
  read_vald_raw arg s = (Ok (l, ck), s') ->
  exists buf content df,
    read_from_buffer (fetched s) (fname (self s)) = Ok (buf, ck)
    /\ utf8_decode buf = Some content
    /\ heap s' !! l = Some df
    /\ column_names df = vald_columns
    /\ shape df = (nrows df, 13%nat)
    /\ (length (findall data_match content) <= nrows df)%nat
    /\ (Forall (Forall (fun c => is_line_end c = false)) (findall data_match content) ->
        nrows df = length (findall data_match content)).
Proof.
  rewrite read_vald_raw_eval.
  destruct (read_from_buffer _ _) as [[buf ck0]|e] eqn:Hf; [|discriminate].
  destruct (utf8_decode buf) as [content|] eqn:Hd; [|discriminate].
  destruct (read_csv _ _) as [df|e] eqn:Hr; [|discriminate].
  intros [= <- <- <-]. exists buf, content, df.
  apply read_csv_ok in Hr. rewrite tokenize_join in Hr.
  pose proof (findall_starts_with_quote content) as Hq.
  assert (Hn : nrows df = length (concat (map tokenize (findall data_match content))))
    by (subst df; reflexivity).
  assert (Hc : column_names df = vald_columns)
    by (subst df; apply frame_of_records_names).
  split; [reflexivity|]. split; [exact Hd|].
  split; [simpl; apply list_lookup_middle; reflexivity|].
  split; [exact Hc|].
  split.
  { unfold shape. f_equal. rewrite <- (length_map fst).
    fold (column_names df). rewrite Hc. reflexivity. }
  split.
  - rewrite Hn. apply length_concat_ge.
    eapply Forall_impl; [exact Hq|]. intros m [m' ->]. apply tokenize_quote_first.
  - intros Hl. rewrite Hn. apply length_concat_eq.
    apply Forall_forall. intros m Hm.
    pose proof (proj1 (Forall_forall _ _) Hq m Hm) as [m' ->].
    apply tokenize_one_line. exact (proj1 (Forall_forall _ _) Hl _ Hm).
Qed.

(** C10.  The [fname] argument of [read_vald_raw] reaches the log message
    and nothing else: the location asked of the fetcher is [self.fname], and
    result and state are those of the call without the argument, the log
    apart. *)
Theorem C10_fname_argument_only_logged (arg : option string) (s : State) :
  fst (read_vald_raw arg s) = fst (read_vald_raw None s)
  /\ set_logged (fun _ => []) (snd (read_vald_raw arg s))
     = set_logged (fun _ => []) (snd (read_vald_raw None s))
  /\ fetched (snd (read_vald_raw arg s)) = fetched s ++ [fname (self s)]
  /\ logged (snd (read_vald_raw arg s))
     = logged s ++ ["Parsing VALD from: " +:+ default (fname (self s)) arg]
  /\ (forall l ck, fst (read_vald_raw arg s) = Ok (l, ck) ->
        exists buf, read_from_buffer (fetched s) (fname (self s)) = Ok (buf, ck)).
Proof.
  rewrite !read_vald_raw_eval.
  destruct (read_from_buffer _ _) as [[buf ck0]|e]; [|repeat split; discriminate].
  destruct (utf8_decode buf) as [content|]; [|repeat split; discriminate].
  destruct (read_csv _ _) as [df|e]; [|repeat split; discriminate].
  repeat split. intros l ck [= <- <-]. eauto.
Qed.

(** *** [parse_vald], evaluated *)

Lemma lookup_map {A C} (f : A -> C) (l : list A) (i : nat) :
  map f l !! i = f <$> (l !! i).
Proof. revert i. induction l as [|x l IH]; intros [|i]; simpl; auto. Qed.

Lemma str_split_expand_two (col : list cell) :
  split_width col = 2%nat ->
  str_split_expand col
  = [map (fun c => nth 0 (parts_of c) None) col; map (fun c => nth 1 (parts_of c) None) col].
Proof. intros H. unfold str_split_expand. rewrite H. reflexivity. Qed.

Lemma str_split_expand_not_two (col : list cell) :
  split_width col <> 2%nat ->
  match str_split_expand col with [_; _] => False | _ => True end.
Proof.
  intros H. pose proof (length_str_split_expand col) as Hl.
  destruct (str_split_expand col) as [|a [|b [|c r]]]; simpl in Hl; try exact I. congruence.
Qed.

Lemma parse_vald_result (arg : option nat) (s : State) (raw : DataFrame) (elm : list cell) :
  input_table arg s = Some raw ->
  lookup_column "elm_ion" (columns raw) = Some elm ->
  let col := str_replace_quote elm in
  let p := work_place arg s in
  exists s',
    (forall j df, j <> p -> heap s !! j = Some df -> heap s' !! j = Some df)
    /\ self s' = self s /\ fetched s' = fetched s
    /\ (length (heap s) <= length (heap s'))%nat /\ (p < length (heap s'))%nat
    /\ ((split_width col = 2%nat
         /\ parse_vald arg s = (Ok p, s')
         /\ heap s' !! p
            = Some (split_columns raw col (map (fun c => nth 0 (parts_of c) None) col)
                      (map (fun c => nth 1 (parts_of c) None) col)))
        \/ (split_width col <> 2%nat
            /\ parse_vald arg s = (Raise ValueError, s')
            /\ heap s' !! p
               = Some (mkFrame (nrows raw) (assign_column "elm_ion" col (columns raw))))).
Proof.
  intros Hin Hcol col p.
  assert (H0 : exists s0, parse_vald arg s = split_elm_ion p s0
             /\ heap s0 !! p = Some raw
             /\ (forall j df, heap s !! j = Some df -> heap s0 !! j = Some df)
             /\ self s0 = self s /\ fetched s0 = fetched s
             /\ (length (heap s) <= length (heap s0))%nat).
  { rewrite parse_vald_eval. destruct arg as [l|]; simpl in Hin.
    - exists s. repeat split; auto.
    - destruct (_vald_raw (self s)) as [r|] eqn:Hr; [|discriminate]. simpl in Hin.
      rewrite vald_raw_eval, Hr.
      exists (set_heap (fun h => h ++ [raw]) s).
      split; [unfold set_heap; rewrite Hin; reflexivity|].
      split; [simpl; apply list_lookup_middle; reflexivity|].
      split; [intros j df Hj; simpl; apply lookup_app_l_Some, Hj|].
      simpl. rewrite length_app. repeat split; lia. }
  destruct H0 as (s0 & -> & Hp & Hkeep & Hself & Hfet & Hlen).
  rewrite (split_elm_ion_eval _ _ _ _ Hp Hcol). cbv zeta. fold col.
  pose proof (lookup_lt_Some _ _ _ Hp) as Hlt.
  destruct (Nat.eq_dec (split_width col) 2%nat) as [Hw|Hw].
  - rewrite (str_split_expand_two _ Hw).
    eexists. split; [|split; [|split; [|split; [|split; [|left; split; [exact Hw|split; [reflexivity|]]]]]]].
    + intros j df Hj Hdf. simpl. rewrite list_lookup_insert_ne by auto. auto.
    + exact Hself.
    + exact Hfet.
    + simpl. rewrite length_insert. exact Hlen.
    + simpl. rewrite length_insert. exact Hlt.
    + simpl. apply list_lookup_insert_eq, Hlt.
  - pose proof (str_split_expand_not_two _ Hw) as Hn.
    exists (set_heap (fun h => <[p := mkFrame (nrows raw) (assign_column "elm_ion" col (columns raw))]> h) s0).
    split; [|split; [|split; [|split; [|split; [|right; split; [exact Hw|split]]]]]].
    + intros j df Hj Hdf. simpl. rewrite list_lookup_insert_ne by auto. auto.
    + exact Hself.
    + exact Hfet.
    + simpl. rewrite length_insert. exact Hlen.
    + simpl. rewrite length_insert. exact Hlt.
    + destruct (str_split_expand col) as [|a [|b [|c r]]]; try reflexivity. contradiction.
    + simpl. apply list_lookup_insert_eq, Hlt.
Qed.

Lemma parts_le_width (col : list cell) (c : cell) :
  In c col -> (length (parts_of c) <= split_width col)%nat.
Proof.
  unfold split_width. induction col as [|x col IH]; simpl; [tauto|].
  intros [->|H]; [lia|]. specialize (IH H). lia.
Qed.

Lemma split_space_first (t : text) :
  (length (split_space t) <= 2)%nat ->
  nth 0 (map Some (split_space t)) None = Some (fst (split_first_space t))
  /\ nth 1 (map Some (split_space t)) None = snd (split_first_space t).
Proof.
  unfold split_space. induction t as [|c t IH]; simpl; [auto|].
  destruct (c =? 32) eqn:Hc; simpl.
  - intros H. assert (H1 : length (split_on (fun c => c =? 32) t) = 1%nat).
    { pose proof (split_on_nonempty (fun c => c =? 32) t).
      destruct (split_on _ t); [contradiction|simpl in *; lia]. }
    rewrite (split_on_one _ _ H1). auto.
  - pose proof (split_on_nonempty (fun c => c =? 32) t) as Hne.
    destruct (split_on _ t) as [|f fs] eqn:E; [contradiction|].
    simpl. intros H. destruct (IH H) as [I0 I1]. simpl in I0.
    destruct (split_first_space t) as [a b]. simpl in *.
    split; [congruence|exact I1].
Qed.

Lemma split_space_none (t : text) : 32 ∉ t -> split_space t = [t].
Proof.
  intros H. apply split_on_none. apply Forall_forall. intros c Hc.
  apply N.eqb_neq. intros ->. contradiction.
Qed.

Lemma split_space_two (t m ic : text) :
  split_space t = [m; ic] -> t = m ++ [32] ++ ic.
Proof.
  intros H. rewrite <- (join_split_on 32 t). unfold split_space in H. rewrite H. reflexivity.
Qed.

Lemma split_columns_molecule (raw : DataFrame) (col mol ion : list cell) :
  lookup_column "molecule" (columns (split_columns raw col mol ion)) = Some mol.
Proof.
  simpl. rewrite lookup_remove_other, lookup_assign_other by discriminate.
  apply lookup_assign_same.
Qed.

Lemma split_columns_ion_charge (raw : DataFrame) (col mol ion : list cell) :
  lookup_column "ion_charge" (columns (split_columns raw col mol ion)) = Some ion.
Proof. simpl. rewrite lookup_remove_other by discriminate. apply lookup_assign_same. Qed.

Lemma split_columns_other (raw : DataFrame) (col mol ion : list cell) (n : string) :
  n <> "elm_ion"%string -> n <> "molecule"%string -> n <> "ion_charge"%string ->
  lookup_column n (columns (split_columns raw col mol ion)) = lookup_column n (columns raw).
Proof.
  intros H1 H2 H3. simpl.
  rewrite lookup_remove_other, !lookup_assign_other by congruence. reflexivity.
Qed.

Lemma split_columns_names (raw : DataFrame) (col mol ion : list cell) :
  column_names raw = vald_columns ->
  column_names (split_columns raw col mol ion)
  = tail vald_columns ++ ["molecule"; "ion_charge"]%string.
Proof.
  unfold column_names. intros H. simpl.
  assert (H1 : map fst (assign_column "elm_ion" col (columns raw)) = vald_columns).
  { rewrite names_assign_present; [exact H|]. rewrite H. in_names. }
  assert (H2 : map fst (assign_column "molecule" mol (assign_column "elm_ion" col (columns raw)))
               = vald_columns ++ ["molecule"%string]).
  { rewrite names_assign_absent; rewrite H1; [reflexivity|in_names]. }
  rewrite (names_remove _ _ [] (tail vald_columns ++ ["molecule"; "ion_charge"]%string));
    [reflexivity| |in_names].
  rewrite names_assign_absent; rewrite H2; [reflexivity|in_names].
Qed.

Lemma split_columns_no_elm_ion (raw : DataFrame) (col mol ion : list cell) :
  column_names raw = vald_columns ->
  lookup_column "elm_ion" (columns (split_columns raw col mol ion)) = None.
Proof.
  intros H. apply lookup_column_None. fold (column_names (split_columns raw col mol ion)).
  rewrite (split_columns_names _ _ _ _ H). in_names.
Qed.

(** C2, in the form that holds of the code.
    [parse_vald] returns exactly when the split of the
    quote-stripped [elm_ion] has two columns, that is when no value holds
    more than one space and some value holds one; otherwise it raises
    [ValueError].  When it returns, the table it worked on has the row count
    of the raw table, the twelve other columns unchanged and in place,
    [elm_ion] gone, and last the columns [molecule] and [ion_charge], which
    hold for every row the two parts that the split at the first space
    gives (NaN staying NaN). *)
Theorem C2_split_of_elm_ion
    (arg : option nat) (s : State) (raw : DataFrame) (elm : list cell) :
  input_table arg s = Some raw ->
  column_names raw = vald_columns ->
  lookup_column "elm_ion" (columns raw) = Some elm ->
  (split_width (str_replace_quote elm) = 2%nat ->
   exists s' parsed,
     parse_vald arg s = (Ok (work_place arg s), s')
     /\ heap s' !! work_place arg s = Some parsed
     /\ nrows parsed = nrows raw
     /\ column_names parsed = tail vald_columns ++ ["molecule"; "ion_charge"]%string
     /\ lookup_column "elm_ion" (columns parsed) = None
     /\ lookup_column "molecule" (columns parsed)
        = Some (map (fmap (fun t => fst (split_first_space (strip_quotes t)))) elm)
     /\ lookup_column "ion_charge" (columns parsed)
        = Some (map (fun c => t ← c; snd (split_first_space (strip_quotes t))) elm)
     /\ (forall n, n ∈ tail vald_columns ->
           lookup_column n (columns parsed) = lookup_column n (columns raw)))
  /\ (split_width (str_replace_quote elm) <> 2%nat ->
      exists s', parse_vald arg s = (Raise ValueError, s')).
Proof.
  intros Hin Hnames Hcol.
  destruct (parse_vald_result arg s raw elm Hin Hcol)
    as (s' & _ & _ & _ & _ & _ & [(Hw & Hp & Hh)|(Hw & Hp & _)]).
  2:{ split; [contradiction|]. eauto. }
  split; [|contradiction]. intros _. eexists s', _.
  split; [exact Hp|]. split; [exact Hh|]. split; [reflexivity|].
  split; [apply split_columns_names, Hnames|].
  split; [apply split_columns_no_elm_ion, Hnames|].
  assert (Hparts : forall c, In c elm ->
            nth 0 (parts_of (strip_quotes <$> c)) None
              = (fun t => fst (split_first_space (strip_quotes t))) <$> c
            /\ nth 1 (parts_of (strip_quotes <$> c)) None
              = (t ← c; snd (split_first_space (strip_quotes t)))).
  { intros [t|] Hc; simpl; [|auto]. apply split_space_first.
    rewrite <- Hw. rewrite <- (length_map Some).
    apply (parts_le_width _ (Some (strip_quotes t))).
    unfold str_replace_quote.
    exact (in_map (fmap strip_quotes) elm (Some t) Hc). }
  split; [|split].
  - rewrite split_columns_molecule. f_equal. unfold str_replace_quote.
    rewrite map_map. apply map_ext_in. intros c Hc. apply Hparts, Hc.
  - rewrite split_columns_ion_charge. f_equal. unfold str_replace_quote.
    rewrite map_map. apply map_ext_in. intros c Hc. apply Hparts, Hc.
  - intros n Hn. apply split_columns_other; intros ->; exfalso; absent_name Hn.
Qed.

(** C3, in the form that holds of the code.
    In a table on which [parse_vald] returns (the split has
    two columns), a row whose [elm_ion] holds no space gets the whole
    quote-stripped value as [molecule] and a missing [ion_charge]. *)
Theorem C3_value_without_space
    (arg : option nat) (s : State) (raw : DataFrame) (elm : list cell) (i : nat) (t : text) :
  input_table arg s = Some raw ->
  lookup_column "elm_ion" (columns raw) = Some elm ->
  split_width (str_replace_quote elm) = 2%nat ->
  elm !! i = Some (Some t) ->
  32 ∉ strip_quotes t ->
  exists s' parsed mol ion,
    parse_vald arg s = (Ok (work_place arg s), s')
    /\ heap s' !! work_place arg s = Some parsed
    /\ lookup_column "molecule" (columns parsed) = Some mol
    /\ lookup_column "ion_charge" (columns parsed) = Some ion
    /\ mol !! i = Some (Some (strip_quotes t))
    /\ ion !! i = Some None.
Proof.
  intros Hin Hcol Hw Hi Hsp.
  destruct (parse_vald_result arg s raw elm Hin Hcol)
    as (s' & _ & _ & _ & _ & _ & [(_ & Hp & Hh)|(Hw' & _)]); [|contradiction].
  eexists s', _, _, _.
  split; [exact Hp|]. split; [exact Hh|].
  split; [apply split_columns_molecule|]. split; [apply split_columns_ion_charge|].
  unfold str_replace_quote. rewrite !lookup_map, Hi. simpl.
  rewrite (split_space_none _ Hsp). split; reflexivity.
Qed.

(** C9.  When [parse_vald] returns, every row whose [ion_charge] is not
    missing has a [molecule], and [molecule], one space and [ion_charge]
    together are the quote-stripped [elm_ion] of that row of the raw table. *)
Theorem C9_parts_rebuild_elm_ion
    (arg : option nat) (s s' : State) (raw parsed : DataFrame)
    (elm mol ion : list cell) (p i : nat) (ic : text) :
  input_table arg s = Some raw ->
  lookup_column "elm_ion" (columns raw) = Some elm ->
  parse_vald arg s = (Ok p, s') ->
  heap s' !! p = Some parsed ->
  lookup_column "molecule" (columns parsed) = Some mol ->
  lookup_column "ion_charge" (columns parsed) = Some ion ->
  ion !! i = Some (Some ic) ->
  exists m t,
    mol !! i = Some (Some m)
    /\ elm !! i = Some (Some t)
    /\ m ++ [32] ++ ic = strip_quotes t.
Proof.
  intros Hin Hcol Hp Hh Hmol Hion Hi.
  destruct (parse_vald_result arg s raw elm Hin Hcol)
    as (s1 & _ & _ & _ & _ & _ & [(Hw & Hp1 & Hh1)|(_ & Hp1 & _)]); [|congruence].
  rewrite Hp in Hp1. injection Hp1 as E1 E2. subst s1. rewrite <- E1, Hh in Hh1.
  injection Hh1 as ->.
  rewrite split_columns_molecule in Hmol. injection Hmol as <-.
  rewrite split_columns_ion_charge in Hion. injection Hion as <-.
  unfold str_replace_quote in Hi |- *. rewrite !lookup_map in Hi |- *.
  destruct (elm !! i) as [c|] eqn:Hc; [|discriminate]. simpl in Hi |- *.
  destruct c as [t|]; simpl in Hi; [|discriminate].
  assert (Hlen : (length (split_space (strip_quotes t)) <= 2)%nat).
  { rewrite <- Hw, <- (length_map Some).
    apply (parts_le_width _ (Some (strip_quotes t))).
    apply list_elem_of_In, list_elem_of_lookup. exists i.
    unfold str_replace_quote. rewrite lookup_map, Hc. reflexivity. }
  destruct (split_space (strip_quotes t)) as [|m [|x [|y r]]] eqn:E; simpl in Hi, Hlen;
    try discriminate; [|lia].
  injection Hi as ->. exists m, t. simpl. rewrite E. repeat split.
  symmetry. apply split_space_two, E.
Qed.

(** *** What the views change *)

Lemma extends_refl (s : State) : extends s s.
Proof. unfold extends. repeat split; auto. Qed.

Lemma extends_trans (a b c : State) : extends a b -> extends b c -> extends a c.
Proof.
  intros (A1 & A2 & A3 & A4 & A5 & A6) (B1 & B2 & B3 & B4 & B5 & B6).
  unfold extends. repeat split; try congruence; auto.
  - apply B5, A5, H.
  - destruct (A5 _ H) as [H1 H2]. destruct (B5 _ H1) as [_ H3]. congruence.
Qed.

Lemma extends_length (s s' : State) :
  extends s s' -> (length (heap s) <= length (heap s'))%nat.
Proof.
  intros (_ & _ & _ & H & _).
  destruct (le_lt_dec (length (heap s)) (length (heap s'))) as [Hle|Hlt]; [exact Hle|].
  destruct (lookup_lt_is_Some_2 _ _ Hlt) as [d Hd].
  apply H, lookup_lt_Some in Hd. lia.
Qed.

Lemma vald_raw_cases (s s' : State) (res : result nat) :
  vald_raw s = (res, s') ->
  (exists r, _vald_raw (self s) = Some r /\ res = Ok r /\ s' = s)
  \/ (_vald_raw (self s) = None
      /\ fetched s' = fetched s ++ [fname (self s)]
      /\ stores s' = stores s /\ open_stores s' = open_stores s
      /\ ((exists e, res = Raise e /\ self s' = self s /\ heap s' = heap s)
          \/ (exists df ck, res = Ok (length (heap s))
                /\ heap s' = heap s ++ [df]
                /\ column_names df = vald_columns
                /\ self s' = mkLoader (fname (self s)) (Some (length (heap s)))
                                      (_vald (self s)) (Some ck)))).
Proof.
  rewrite vald_raw_eval. destruct (_vald_raw (self s)) as [r|] eqn:Hr.
  - intros [= <- <-]. left. eauto.
  - right. split; [reflexivity|]. revert H. rewrite read_vald_raw_eval.
    destruct (read_from_buffer _ _) as [[buf ck]|e].
    2:{ intros [= <- <-]. repeat split. left. eauto. }
    destruct (utf8_decode buf) as [content|].
    2:{ intros [= <- <-]. repeat split. left. eauto. }
    destruct (read_csv _ _) as [df|e] eqn:Hcsv.
    2:{ intros [= <- <-]. repeat split. left. eauto. }
    intros [= <- <-]. repeat split. right. exists df, ck. repeat split.
    apply read_csv_ok in Hcsv. subst df. apply frame_of_records_names.
Qed.

Lemma vald_raw_extends (s s' : State) (res : result nat) :
  vald_raw s = (res, s') -> extends s s'.
Proof.
  intros H. apply vald_raw_cases in H
    as [(r & Hr & -> & ->)|(Hn & Hf & Hst & Hop & [(e & -> & Hs & Hh)|(df & ck & -> & Hh & _ & Hs)])].
  - apply extends_refl.
  - unfold extends. rewrite Hst, Hop, Hs, Hh. repeat split; auto; congruence.
  - unfold extends. rewrite Hst, Hop, Hs, Hh. simpl. repeat split; auto; try congruence.
    intros l d Hl. apply lookup_app_l_Some, Hl.
Qed.

Lemma vald_raw_ok (s s' : State) (res : result nat) :
  loader_ok s -> vald_raw s = (res, s') ->
  loader_ok s'
  /\ (forall r, res = Ok r ->
        _vald_raw (self s') = Some r /\ (r < length (heap s'))%nat).
Proof.
  intros [O1 O2] H. apply vald_raw_cases in H
    as [(r & Hr & -> & ->)|(Hn & Hf & Hst & Hop & [(e & -> & Hs & Hh)|(df & ck & -> & Hh & _ & Hs)])].
  - split; [split; assumption|]. intros r' [= <-]. auto.
  - split; [|discriminate]. unfold loader_ok. rewrite Hs, Hh. auto.
  - assert (Hlen : length (heap s') = S (length (heap s)))
      by (rewrite Hh, length_app; simpl; lia).
    split.
    + unfold loader_ok. rewrite Hs, Hlen. simpl. split.
      * intros r [= <-]. lia.
      * intros p Hp. destruct (O2 _ Hp). split; [lia|eauto].
    + intros r [= <-]. rewrite Hs, Hlen. simpl. split; [reflexivity|lia].
Qed.

Lemma split_elm_ion_frame (p : nat) (s0 s' : State) (d : DataFrame) (res : result nat) :
  heap s0 !! p = Some d ->
  split_elm_ion p s0 = (res, s') ->
  self s' = self s0 /\ fetched s' = fetched s0
  /\ stores s' = stores s0 /\ open_stores s' = open_stores s0
  /\ length (heap s') = length (heap s0)
  /\ (forall j, j <> p -> heap s' !! j = heap s0 !! j)
  /\ (forall x, res = Ok x -> x = p /\ is_Some (lookup_column "elm_ion" (columns d))).
Proof.
  intros Hp. destruct (lookup_column "elm_ion" (columns d)) as [col|] eqn:Hcol.
  - rewrite (split_elm_ion_eval _ _ _ _ Hp Hcol). cbv zeta.
    assert (Hupd : forall new r,
              (r, set_heap (fun h => <[p := new]> h) s0) = (res, s') ->
              self s' = self s0 /\ fetched s' = fetched s0
              /\ stores s' = stores s0 /\ open_stores s' = open_stores s0
              /\ length (heap s') = length (heap s0)
              /\ (forall j, j <> p -> heap s' !! j = heap s0 !! j)).
    { intros new r [= <- <-]. simpl. rewrite length_insert. repeat split.
      intros j Hj. apply list_lookup_insert_ne. auto. }
    intros H.
    assert (Hres : forall x, res = Ok x -> x = p /\ is_Some (Some col)).
    { intros x ->. split; [|eauto].
      destruct (str_split_expand _) as [|a [|b [|c r]]]; congruence. }
    destruct (str_split_expand _) as [|a [|b [|c r]]];
      destruct (Hupd _ _ H) as (H1 & H2 & H3 & H4 & H5 & H6); repeat split; auto;
      apply Hres; assumption.
  - rewrite (split_elm_ion_no_column _ _ _ Hp Hcol). intros [= <- <-].
    repeat split; discriminate.
Qed.

Lemma parse_cached_cases (s s' : State) (res : result nat) :
  loader_ok s ->
  parse_vald None s = (res, s') ->
  exists r1 s1,
    vald_raw s = (r1, s1)
    /\ ((exists e, r1 = Raise e /\ res = Raise e /\ s' = s1)
        \/ (exists r d, r1 = Ok r /\ heap s1 !! r = Some d
              /\ split_elm_ion (length (heap s1)) (set_heap (fun h => h ++ [d]) s1)
                 = (res, s'))).
Proof.
  intros Hok. rewrite parse_vald_eval.
  destruct (vald_raw s) as [[r|e] s1] eqn:Hv; intros H.
  - exists (Ok r), s1. split; [reflexivity|]. right.
    destruct (vald_raw_ok _ _ _ Hok Hv) as [_ Hr]. destruct (Hr r eq_refl) as [_ Hlt].
    destruct (lookup_lt_is_Some_2 _ _ Hlt) as [d Hd].
    exists r, d. split; [reflexivity|]. split; [exact Hd|].
    rewrite <- H. unfold set_heap. rewrite Hd. reflexivity.
  - injection H as <- <-. exists (Raise e), s1. split; [reflexivity|]. left. eauto.
Qed.

Lemma vald_raw_keeps_parsed (s s' : State) (res : result nat) :
  vald_raw s = (res, s') -> _vald (self s') = _vald (self s).
Proof.
  intros H. apply vald_raw_cases in H
    as [(r & Hr & -> & ->)|(Hn & Hf & Hst & Hop & [(e & -> & Hs & Hh)|(df & ck & -> & Hh & _ & Hs)])];
    [reflexivity|congruence|rewrite Hs; reflexivity].
Qed.

Lemma vald_raw_fetches (s s' : State) (res : result nat) :
  vald_raw s = (res, s') ->
  fetched s' = fetched s \/ fetched s' = fetched s ++ [fname (self s)].
Proof.
  intros H. apply vald_raw_cases in H as [(r & Hr & -> & ->)|(Hn & Hf & _)]; auto.
Qed.

Lemma parse_cached_frame (s s' : State) (res : result nat) :
  loader_ok s ->
  parse_vald None s = (res, s') ->
  extends s s' /\ loader_ok s'
  /\ _vald (self s') = _vald (self s)
  /\ (fetched s' = fetched s \/ fetched s' = fetched s ++ [fname (self s)])
  /\ (forall p, res = Ok p ->
        (length (heap s) <= p < length (heap s'))%nat
        /\ exists r raw, _vald_raw (self s') = Some r /\ (r < p)%nat
             /\ heap s' !! r = Some raw
             /\ is_Some (lookup_column "elm_ion" (columns raw))).
Proof.
  intros Hok H.
  destruct (parse_cached_cases _ _ _ Hok H) as (r1 & s1 & Hv & Hcase).
  pose proof (vald_raw_extends _ _ _ Hv) as He.
  pose proof (vald_raw_keeps_parsed _ _ _ Hv) as Hk.
  pose proof (vald_raw_fetches _ _ _ Hv) as Hf.
  destruct (vald_raw_ok _ _ _ Hok Hv) as [Hok1 Hr1].
  destruct Hcase as [(e & -> & -> & ->)|(r & d & -> & Hd & Hs)].
  { split; [exact He|]. split; [exact Hok1|]. split; [exact Hk|]. split; [exact Hf|].
    intros p [=]. }
  destruct (Hr1 r eq_refl) as [Hc Hlt].
  assert (H0 : heap (set_heap (fun h => h ++ [d]) s1) !! length (heap s1) = Some d)
    by (simpl; apply list_lookup_middle; reflexivity).
  destruct (split_elm_ion_frame _ _ _ _ _ H0 Hs) as (F1 & F2 & F3 & F4 & F5 & F6 & F7).
  simpl in F1, F2, F3, F4, F5. rewrite length_app in F5. simpl in F5.
  assert (Hkeep : forall l df, heap s1 !! l = Some df -> heap s' !! l = Some df).
  { intros l df Hl. pose proof (lookup_lt_Some _ _ _ Hl).
    rewrite F6 by lia. simpl. apply lookup_app_l_Some, Hl. }
  assert (He1 : extends s1 s').
  { unfold extends. rewrite F1, F2, F3, F4. repeat split; auto. }
  split; [eapply extends_trans; eassumption|]. split.
  { destruct Hok1 as [O1 O2]. unfold loader_ok. rewrite F1, F5. split.
    - intros x Hx. specialize (O1 _ Hx). lia.
    - intros x Hx. destruct (O2 _ Hx). split; [lia|assumption]. }
  split; [congruence|]. split; [rewrite F2; exact Hf|].
  intros p Hp. destruct (F7 _ Hp) as [-> Hcol].
  pose proof (extends_length _ _ He). split; [lia|].
  exists r, d. rewrite F1. repeat split; auto.
Qed.

(** C7, in the form that holds of the code.
    Called without a table, [parse_vald] works on a copy:
    every table that existed, the cached raw table among them, is left as it
    was, and when it returns the table it returns is a new object, not the
    cached raw table, which still has its [elm_ion] column. *)
Theorem C7_parse_works_on_a_copy (s s' : State) (res : result nat) :
  loader_ok s ->
  parse_vald None s = (res, s') ->
  (forall l df, heap s !! l = Some df -> heap s' !! l = Some df)
  /\ (forall r0, _vald_raw (self s) = Some r0 -> _vald_raw (self s') = Some r0)
  /\ (forall p, res = Ok p ->
        (length (heap s) <= p)%nat
        /\ exists r raw, _vald_raw (self s') = Some r /\ r <> p
             /\ heap s' !! r = Some raw
             /\ is_Some (lookup_column "elm_ion" (columns raw))).
Proof.
  intros Hok H.
  destruct (parse_cached_frame _ _ _ Hok H) as ((_ & _ & _ & Hh & Hc & _) & _ & _ & _ & Hp).
  split; [exact Hh|]. split; [intros r0 Hr0; apply Hc, Hr0|].
  intros p Hres. destruct (Hp p Hres) as [Hlen (r & raw & H1 & H2 & H3 & H4)].
  split; [lia|]. exists r, raw. repeat split; auto. lia.
Qed.


Lemma access_frame (v : view) (s s' : State) (res : result nat) :
  loader_ok s ->
  access v s = (res, s') ->
  extends s s' /\ loader_ok s'
  /\ (fetched s' = fetched s \/ fetched s' = fetched s ++ [fname (self s)])
  /\ (forall x, res = Ok x -> cached v s' = Some x /\ (x < length (heap s'))%nat
                              /\ is_Some (_vald_raw (self s'))).
Proof.
  intros Hok. destruct v; simpl.
  - intros H. pose proof (vald_raw_extends _ _ _ H) as He.
    pose proof (vald_raw_fetches _ _ _ H) as Hf.
    destruct (vald_raw_ok _ _ _ Hok H) as [Hok' Hr].
    split; [exact He|]. split; [exact Hok'|]. split; [exact Hf|].
    intros x Hx. destruct (Hr _ Hx) as [H1 H2]. rewrite H1. eauto.
  - rewrite vald_eval. destruct (_vald (self s)) as [p|] eqn:Hc.
    + intros [= <- <-]. split; [apply extends_refl|]. split; [exact Hok|].
      split; [auto|]. intros x [= <-]. destruct Hok as [_ O2].
      destruct (O2 _ Hc). auto.
    + destruct (parse_vald None s) as [[p|e] s1] eqn:Hp; intros [= <- <-];
        destruct (parse_cached_frame _ _ _ Hok Hp)
          as (He & Hok1 & Hk & Hf & Hres).
      * destruct (Hres p eq_refl) as [Hlen (r & raw & H1 & H2 & H3 & H4)].
        split; [|split; [|split; [exact Hf|]]].
        -- destruct He as (E1 & E2 & E3 & E4 & E5 & E6).
           unfold extends. simpl.
           split; [exact E1|]. split; [exact E2|]. split; [exact E3|].
           split; [exact E4|]. split; [exact E5|]. intros q Hq. congruence.
        -- destruct Hok1 as [O1 O2]. unfold loader_ok. simpl. split; [exact O1|].
           intros q [= <-]. split; [lia|]. rewrite H1. eauto.
        -- intros x [= <-]. simpl. rewrite H1. repeat split; eauto. lia.
      * split; [exact He|]. split; [exact Hok1|]. split; [exact Hf|]. intros x [=].
Qed.



(** *** The export *)

Lemma to_hdf_eval (path : string) (s : State) :
  to_hdf path s =
  if hdf_open_ok path then
    match vald_raw (opened path s) with
    | (Raise e, s2) => (Raise e, close path s2)
    | (Ok r, s2) =>
      if hdf_put_ok path "/vald_raw" then
        match vald (written path "/vald_raw" (default (mkFrame 0 []) (heap s2 !! r)) s2) with
        | (Raise e, s4) => (Raise e, close path s4)
        | (Ok p, s4) =>
          if hdf_put_ok path "/vald"
          then (Ok tt, close path
                         (written path "/vald" (default (mkFrame 0 []) (heap s4 !! p)) s4))
          else (Raise StorageError, close path s4)
        end
      else (Raise StorageError, close path s2)
    end
  else (Raise StorageError, s).
Proof.
  unfold to_hdf, with_HDFStore_w, HDFStore_w.
  destruct (hdf_open_ok path); [|reflexivity].
  unfold bind at 1. unfold modify, ret. cbv beta iota. fold (opened path s).
  unfold bind at 1. destruct (vald_raw (opened path s)) as [[r|e] s2]; [|reflexivity].
  unfold bind at 1. unfold put at 1. unfold bind at 1. unfold deref at 1. cbv beta iota.
  destruct (hdf_put_ok path "/vald_raw"); [|reflexivity].
  unfold modify at 1. cbv beta iota.
  fold (written path "/vald_raw" (default (mkFrame 0 []) (heap s2 !! r)) s2).
  unfold bind at 1. destruct (vald _) as [[p|e] s4]; [|reflexivity].
  unfold put, bind, deref. cbv beta iota.
  destruct (hdf_put_ok path "/vald"); reflexivity.
Qed.

Lemma remove_first_head (x : string) (l : list string) : remove_first x (x :: l) = l.
Proof. simpl. rewrite String.eqb_refl. reflexivity. Qed.

(** The exits of [to_hdf]: the handle, the stores, and what a refused
    write raises. *)
Lemma to_hdf_exits
    (path : string) (s s' : State) (res : result unit) :
  loader_ok s ->
  to_hdf path s = (res, s') ->
  open_stores s' = open_stores s
  /\ (forall other, other <> path -> stores s' !! other = stores s !! other)
  /\ (hdf_open_ok path = false -> res = Raise StorageError /\ stores s' = stores s)
  /\ (res = Ok tt ->
      hdf_open_ok path = true /\ hdf_put_ok path "/vald_raw" = true
      /\ hdf_put_ok path "/vald" = true
      /\ exists r p raw parsed,
           _vald_raw (self s') = Some r /\ _vald (self s') = Some p
           /\ heap s' !! r = Some raw /\ heap s' !! p = Some parsed
           /\ stores s' !! path = Some (<["/vald" := parsed]> (<["/vald_raw" := raw]> ∅)))
  /\ (forall e, res = Raise e -> hdf_open_ok path = true ->
      exists st, stores s' !! path = Some st
                 /\ (st = ∅ \/ exists raw, st = <["/vald_raw" := raw]> ∅))
  /\ (hdf_open_ok path = true ->
      forall r s2, vald_raw (opened path s) = (Ok r, s2) ->
        (hdf_put_ok path "/vald_raw" = false -> res = Raise StorageError)
        /\ (hdf_put_ok path "/vald_raw" = true ->
            forall p s4,
              vald (written path "/vald_raw" (default (mkFrame 0 []) (heap s2 !! r)) s2)
                = (Ok p, s4) ->
              hdf_put_ok path "/vald" = false -> res = Raise StorageError)).
Proof.
  intros Hok. rewrite to_hdf_eval.
  destruct (hdf_open_ok path) eqn:Hopen.
  2:{ intros [= <- <-]. repeat split; auto; try discriminate. }
  assert (Hok1 : loader_ok (opened path s)) by exact Hok.
  destruct (vald_raw (opened path s)) as [[r|e] s2] eqn:Hraw.
  2:{ intros [= <- <-]. destruct (vald_raw_extends _ _ _ Hraw) as (E1 & E2 & _).
      simpl in E1, E2. unfold close. simpl. rewrite E1, E2, remove_first_head.
      split; [reflexivity|]. split; [intros o Ho; apply lookup_insert_ne; auto|].
      split; [discriminate|]. split; [discriminate|]. split.
      - intros e0 _ _. exists ∅. split; [apply lookup_insert_eq|auto].
      - intros _ r s2' [=]. }
  destruct (vald_raw_extends _ _ _ Hraw) as (E1 & E2 & _). simpl in E1, E2.
  destruct (vald_raw_ok _ _ _ Hok1 Hraw) as [Hok2 Hr].
  destruct (Hr r eq_refl) as [Hcr Hlt].
  destruct (lookup_lt_is_Some_2 _ _ Hlt) as [raw Hrawd]. rewrite Hrawd. simpl.
  destruct (hdf_put_ok path "/vald_raw") eqn:Hput1.
  2:{ intros [= <- <-]. unfold close. simpl. rewrite E1, E2, remove_first_head.
      split; [reflexivity|]. split; [intros o Ho; apply lookup_insert_ne; auto|].
      split; [discriminate|]. split; [discriminate|]. split.
      - intros e0 _ _. exists ∅. split; [apply lookup_insert_eq|auto].
      - intros _ r' s2' [= <- <-]. split; [reflexivity|discriminate]. }
  set (s3 := written path "/vald_raw" raw s2).
  assert (Hok3 : loader_ok s3) by exact Hok2.
  assert (Hst3 : stores s3 = <[path := <["/vald_raw" := raw]> ∅]> (stores s)).
  { unfold s3, written. simpl. rewrite E1, lookup_insert_eq. simpl.
    apply insert_insert_eq. }
  destruct (vald s3) as [[p|e] s4] eqn:Hparsed.
  2:{ intros [= <- <-].
      destruct (access_frame ParsedView _ _ _ Hok3 Hparsed) as ((F1 & F2 & _) & _).
      unfold close. simpl. rewrite F1, F2, Hst3. simpl. rewrite E2, remove_first_head.
      split; [reflexivity|]. split; [intros o Ho; apply lookup_insert_ne; auto|].
      split; [discriminate|]. split; [discriminate|]. split.
      - intros e0 _ _. eexists. split; [apply lookup_insert_eq|eauto].
      - intros _ r' s2' [= <- <-]. split; [discriminate|].
        intros _ p s4' H. rewrite Hrawd in H. simpl in H. fold s3 in H. congruence. }
  destruct (access_frame ParsedView _ _ _ Hok3 Hparsed)
    as ((F1 & F2 & F3 & F4 & F5 & F6) & Hok4 & _ & Hres).
  destruct (Hres p eq_refl) as (Hcp & Hltp & _). simpl in Hcp.
  destruct (lookup_lt_is_Some_2 _ _ Hltp) as [parsed Hpd].
  destruct (F5 r Hcr) as [Hcr4 _].
  destruct (hdf_put_ok path "/vald") eqn:Hput2; intros [= <- <-];
    unfold close; simpl; rewrite ?F1, F2, ?Hst3; simpl; rewrite E2, remove_first_head.
  - split; [reflexivity|]. split.
    { intros o Ho. rewrite lookup_insert_ne by auto. apply lookup_insert_ne. auto. }
    split; [discriminate|]. split.
    + intros _. repeat split. exists r, p, raw, parsed.
      split; [exact Hcr4|]. split; [exact Hcp|]. split; [apply F4, Hrawd|].
      split; [exact Hpd|]. rewrite Hpd, lookup_insert_eq. simpl.
      rewrite lookup_insert_eq. reflexivity.
    + split; [discriminate|]. intros _ r' s2' [= <- <-]. split; [discriminate|].
      intros _ p' s4' H. discriminate.
  - split; [reflexivity|]. split; [intros o Ho; apply lookup_insert_ne; auto|].
    split; [discriminate|]. split; [discriminate|]. split.
    + intros e0 _ _. eexists. split; [apply lookup_insert_eq|eauto].
    + intros _ r' s2' _. split; [discriminate|]. reflexivity.
Qed.

(** When [to_hdf] returns, and what it raises otherwise. *)
Lemma to_hdf_outcome (path : string) (s s' : State) (res : result unit) :
  to_hdf path s = (res, s') ->
  (res = Ok tt <->
   hdf_open_ok path = true
   /\ exists r s2, vald_raw (opened path s) = (Ok r, s2)
        /\ hdf_put_ok path "/vald_raw" = true
        /\ exists p s4,
             vald (written path "/vald_raw" (default (mkFrame 0 []) (heap s2 !! r)) s2)
               = (Ok p, s4)
             /\ hdf_put_ok path "/vald" = true)
  /\ (hdf_open_ok path = true ->
      (forall e s2, vald_raw (opened path s) = (Raise e, s2) -> res = Raise e)
      /\ (forall r s2 e s4,
            vald_raw (opened path s) = (Ok r, s2) ->
            hdf_put_ok path "/vald_raw" = true ->
            vald (written path "/vald_raw" (default (mkFrame 0 []) (heap s2 !! r)) s2)
              = (Raise e, s4) ->
            res = Raise e)).
Proof.
  rewrite to_hdf_eval.
  destruct (hdf_open_ok path) eqn:Hopen.
  2:{ intros [= <- <-]. split; [|discriminate].
      split; [discriminate|]. intros [H _]. discriminate H. }
  destruct (vald_raw (opened path s)) as [[r|e] s2] eqn:Hraw.
  2:{ intros [= <- <-]. split.
      - split; [discriminate|]. intros (_ & r & s2' & H & _). discriminate H.
      - intros _. split; [intros e0 s2' [= <- _]; reflexivity|].
        intros r s2' e0 s4 H. discriminate H. }
  destruct (hdf_put_ok path "/vald_raw") eqn:Hput1.
  2:{ intros [= <- <-]. split.
      - split; [discriminate|]. intros (_ & r' & s2' & _ & H & _). discriminate H.
      - intros _. split; [intros e0 s2' H; discriminate H|].
        intros r' s2' e0 s4 _ H. discriminate H. }
  destruct (vald _) as [[p|e] s4] eqn:Hparsed.
  2:{ intros [= <- <-]. split.
      - split; [discriminate|].
        intros (_ & r' & s2' & [= <- <-] & _ & p & s4' & H & _). congruence.
      - intros _. split; [intros e0 s2' H; discriminate H|].
        intros r' s2' e0 s4' [= <- <-] _ H. congruence. }
  destruct (hdf_put_ok path "/vald") eqn:Hput2; intros [= <- <-]; split.
  - split; [intros _|reflexivity]. split; [reflexivity|].
    exists r, s2. split; [reflexivity|]. split; [reflexivity|].
    exists p, s4. split; [exact Hparsed|reflexivity].
  - intros _. split; [intros e0 s2' H; discriminate H|].
    intros r' s2' e0 s4' [= <- <-] _ H. congruence.
  - split; [discriminate|].
    intros (_ & r' & s2' & _ & _ & p' & s4' & _ & H). congruence.
  - intros _. split; [intros e0 s2' H; discriminate H|].
    intros r' s2' e0 s4' [= <- <-] _ H. congruence.
Qed.

(** C8.  [to_hdf] leaves no store handle open, whether it returns or raises.
    When the store cannot be opened it raises and the disk is as before.
    When it can, only the store at the path changes: what it held is gone,
    and it holds what was written before the exit: nothing, or the raw table
    under [/vald_raw], or, exactly when [to_hdf] returns, the raw table under
    [/vald_raw] and the parsed table under [/vald].  It returns exactly when
    the store opens, both views are had and both writes are accepted; a
    refused write raises [StorageError] to the caller, and an exception of a
    view reaches the caller as it is. *)
Theorem C8_export_releases_the_store
    (path : string) (s s' : State) (res : result unit) :
  loader_ok s ->
  to_hdf path s = (res, s') ->
  open_stores s' = open_stores s
  /\ (forall other, other <> path -> stores s' !! other = stores s !! other)
  /\ (hdf_open_ok path = false -> res = Raise StorageError /\ stores s' = stores s)
  /\ (res = Ok tt ->
      hdf_open_ok path = true /\ hdf_put_ok path "/vald_raw" = true
      /\ hdf_put_ok path "/vald" = true
      /\ exists r p raw parsed,
           _vald_raw (self s') = Some r /\ _vald (self s') = Some p
           /\ heap s' !! r = Some raw /\ heap s' !! p = Some parsed
           /\ stores s' !! path = Some (<["/vald" := parsed]> (<["/vald_raw" := raw]> ∅)))
  /\ (forall e, res = Raise e -> hdf_open_ok path = true ->
      exists st, stores s' !! path = Some st
                 /\ (st = ∅ \/ exists raw, st = <["/vald_raw" := raw]> ∅))
  /\ (hdf_open_ok path = true ->
      forall r s2, vald_raw (opened path s) = (Ok r, s2) ->
        (hdf_put_ok path "/vald_raw" = false -> res = Raise StorageError)
        /\ (hdf_put_ok path "/vald_raw" = true ->
            forall p s4,
              vald (written path "/vald_raw" (default (mkFrame 0 []) (heap s2 !! r)) s2)
                = (Ok p, s4) ->
              hdf_put_ok path "/vald" = false -> res = Raise StorageError))
  /\ (res = Ok tt <->
      hdf_open_ok path = true
      /\ exists r s2, vald_raw (opened path s) = (Ok r, s2)
           /\ hdf_put_ok path "/vald_raw" = true
           /\ exists p s4,
                vald (written path "/vald_raw" (default (mkFrame 0 []) (heap s2 !! r)) s2)
                  = (Ok p, s4)
                /\ hdf_put_ok path "/vald" = true)
  /\ (hdf_open_ok path = true ->
      (forall e s2, vald_raw (opened path s) = (Raise e, s2) -> res = Raise e)
      /\ (forall r s2 e s4,
            vald_raw (opened path s) = (Ok r, s2) ->
            hdf_put_ok path "/vald_raw" = true ->
            vald (written path "/vald_raw" (default (mkFrame 0 []) (heap s2 !! r)) s2)
              = (Raise e, s4) ->
            res = Raise e)).
Proof.
  intros Hok H.
  destruct (to_hdf_exits path s s' res Hok H) as (H1 & H2 & H3 & H4 & H5 & H6).
  destruct (to_hdf_outcome path s s' res H) as (H7 & H8).
  exact (conj H1 (conj H2 (conj H3 (conj H4 (conj H5 (conj H6 (conj H7 H8))))))).
Qed.

(** *** The sample line *)

(** What follows the sample line on its line adds fields past the
    thirteenth, which are dropped. *)
Lemma read_csv_sample_runs_on (ext : text) :
  Forall (fun c => is_line_end c = false) (sample_line ++ ext) ->
  read_csv vald_columns (join [10] [sample_line ++ ext]) = Ok (one_row (T "'TiO 1'")).
Proof.
  intros H.
  pose (body := T "'TiO 1',4100.00020,-11.472,0.2011,31.0,3.2242,32.0,99.000,99.000,99.000,6.962,0.000,0.000").
  assert (Ht : tokenize (join [10] [sample_line ++ ext])
               = [split_on is_comma body ++ split_on is_comma ext]).
  { change (join [10] [sample_line ++ ext]) with (39 :: drop 1 sample_line ++ ext).
    change (sample_line ++ ext) with (39 :: drop 1 sample_line ++ ext) in H.
    rewrite (tokenize_single_line _ H).
    change (39 :: drop 1 sample_line ++ ext) with (body ++ 44 :: ext).
    rewrite split_on_app by reflexivity. reflexivity. }
  unfold read_csv. rewrite Ht. vm_compute. reflexivity.
Qed.

(** C4, in the form that holds of the code.
    The sample line between two stretches of text that hold no match, where
    the match that starts at the sample line (it may run on into the text
    that follows) holds no line feed and no carriage return: the raw table
    has one row, whose [elm_ion] is the quoted ['TiO 1'], and the parsed
    table has for that row [molecule] TiO, [ion_charge] 1 and [wl_air] the
    token 4100.00020, which denotes 4100.0002. *)
Theorem C4_sample_line
    (s : State) (buf : list byte) (ck : string) (pre post : text) :
  _vald_raw (self s) = None ->
  _vald (self s) = None ->
  read_from_buffer (fetched s) (fname (self s)) = Ok (buf, ck) ->
  utf8_decode buf = Some (pre ++ sample_line ++ post) ->
  findall data_match pre = [] ->
  findall data_match post = [] ->
  (forall m r, match_here data_match (sample_line ++ post) = Some (m, r) ->
               Forall (fun c => is_line_end c = false) m) ->
  exists s1 s2 raw parsed,
    vald_raw s = (Ok (length (heap s)), s1)
    /\ heap s1 !! length (heap s) = Some raw
    /\ nrows raw = 1%nat
    /\ lookup_column "elm_ion" (columns raw) = Some [Some (T "'TiO 1'")]
    /\ vald s1 = (Ok (length (heap s1)), s2)
    /\ heap s2 !! length (heap s1) = Some parsed
    /\ nrows parsed = 1%nat
    /\ lookup_column "molecule" (columns parsed) = Some [Some (T "TiO")]
    /\ lookup_column "ion_charge" (columns parsed) = Some [Some (T "1")]
    /\ lookup_column "wl_air" (columns parsed) = Some [Some (T "4100.00020")]
    /\ exists q, decimal_value (T "4100.00020") = Some q /\ (q == 4100.0002)%Q.
Proof.
  intros Hc1 Hc2 Hf Hd Hpre Hpost Hline.
  set (raw := one_row (T "'TiO 1'")).
  assert (Hread : read_vald_raw None s
            = (Ok (length (heap s), ck), set_heap (fun h => h ++ [raw]) (requested None s))).
  { destruct (findall_sample_runs_on pre post Hpre Hpost) as (ext & r & Hm & Hall).
    rewrite read_vald_raw_eval, Hf, Hd, Hall.
    rewrite (read_csv_sample_runs_on ext (Hline _ _ Hm)). reflexivity. }
  set (s1 := set_self (fun o => mkLoader (fname o) (Some (length (heap s))) (_vald o) (Some ck))
               (set_heap (fun h => h ++ [raw]) (requested None s))).
  assert (Hraw : vald_raw s = (Ok (length (heap s)), s1)).
  { rewrite vald_raw_eval, Hc1, Hread. reflexivity. }
  assert (Hh1 : heap s1 !! length (heap s) = Some raw)
    by (simpl; apply list_lookup_middle; reflexivity).
  assert (Hin : input_table None s1 = Some raw) by (simpl; exact Hh1).
  assert (Hcol : lookup_column "elm_ion" (columns raw) = Some [Some (T "'TiO 1'")])
    by (vm_compute; reflexivity).
  destruct (parse_vald_result None s1 raw _ Hin Hcol)
    as (s2 & _ & _ & _ & _ & _ & [(_ & Hp & Hh)|(Hw & _)]).
  2:{ exfalso. apply Hw. vm_compute. reflexivity. }
  exists s1. eexists. exists raw. eexists.
  split; [exact Hraw|]. split; [exact Hh1|]. split; [reflexivity|]. split; [exact Hcol|].
  split.
  { rewrite vald_eval. change (_vald (self s1)) with (_vald (self s)). rewrite Hc2, Hp.
    reflexivity. }
  split; [simpl; apply Hh|].
  split; [reflexivity|].
  split; [vm_compute; reflexivity|]. split; [vm_compute; reflexivity|].
  split; [vm_compute; reflexivity|].
  eexists. split; [vm_compute; reflexivity|]. reflexivity.
Qed.

(** *** The invariant of the loader

    [loader_ok] holds of a new loader ([new_loader_ok] below) and every
    method keeps it, so it holds of every loader, however it was used. *)

Lemma split_elm_ion_keeps (l : nat) (s s' : State) (res : result nat) :
  split_elm_ion l s = (res, s') ->
  self s' = self s /\ length (heap s') = length (heap s).
Proof.
  destruct (heap s !! l) as [d|] eqn:Hl.
  - intros H. destruct (split_elm_ion_frame _ _ _ _ _ Hl H) as (H1 & _ & _ & _ & H5 & _).
    auto.
  - unfold split_elm_ion, getitem, deref. unfold bind at 1. unfold bind at 1.
    rewrite Hl. simpl. intros [= <- <-]. auto.
Qed.

Lemma read_vald_raw_keeps_ok (arg : option string) (s : State) :
  loader_ok s -> loader_ok (snd (read_vald_raw arg s)).
Proof.
  intros [O1 O2]. rewrite read_vald_raw_eval.
  destruct (read_from_buffer _ _) as [[buf ck]|e]; [|split; assumption].
  destruct (utf8_decode buf) as [content|]; [|split; assumption].
  destruct (read_csv _ _) as [df|e]; [|split; assumption].
  unfold loader_ok. simpl. rewrite length_app. simpl. split.
  - intros r Hr. specialize (O1 _ Hr). lia.
  - intros p Hp. destruct (O2 _ Hp). split; [lia|assumption].
Qed.

Lemma parse_vald_keeps_ok (arg : option nat) (s : State) :
  loader_ok s -> loader_ok (snd (parse_vald arg s)).
Proof.
  intros Hok. destruct (parse_vald arg s) as [res s'] eqn:H. simpl.
  destruct arg as [l|].
  - rewrite parse_vald_eval in H. destruct (split_elm_ion_keeps _ _ _ _ H) as [H1 H2].
    unfold loader_ok. rewrite H1, H2. exact Hok.
  - apply (parse_cached_frame _ _ _ Hok H).
Qed.

Lemma access_keeps_ok (v : view) (s : State) :
  loader_ok s -> loader_ok (snd (access v s)).
Proof.
  intros Hok. destruct (access v s) as [res s'] eqn:H. simpl.
  apply (access_frame _ _ _ _ Hok H).
Qed.

Lemma to_hdf_keeps_ok (path : string) (s : State) :
  loader_ok s -> loader_ok (snd (to_hdf path s)).
Proof.
  intros Hok. rewrite to_hdf_eval.
  destruct (hdf_open_ok path); [|exact Hok].
  assert (Hok1 : loader_ok (opened path s)) by exact Hok.
  pose proof (access_keeps_ok RawView _ Hok1) as Hok2. simpl in Hok2.
  destruct (vald_raw (opened path s)) as [[r|e] s2]; [|exact Hok2]. simpl in Hok2.
  destruct (hdf_put_ok path "/vald_raw"); [|exact Hok2].
  set (s3 := written path "/vald_raw" _ s2).
  assert (Hok3 : loader_ok s3) by exact Hok2.
  pose proof (access_keeps_ok ParsedView _ Hok3) as Hok4. simpl in Hok4.
  destruct (vald s3) as [[p|e] s4]; [|exact Hok4]. simpl in Hok4.
  destruct (hdf_put_ok path "/vald"); exact Hok4.
Qed.

(** *** The format line of the source comment *)

(** The padded sample line of the comment in [read_vald_raw] is one match,
    blanks included, and reads as one row of thirteen fields. *)
Example padded_sample_line :
  let line := T "'TiO 1',     4100.00020, -11.472,  0.2011, 31.0,  3.2242, 32.0, 99.000, 99.000, 99.000, 6.962, 0.000, 0.000," in
  findall data_match (T "Elm Ion       WL_air(A)  log gf* E_low(eV)" ++ [10] ++ line ++ [10])
  = [line]
  /\ shape <$> (match read_csv vald_columns line with Ok df => Some df | Raise _ => None end)
     = Some (1, 13)%nat.
Proof. split; vm_compute; reflexivity. Qed.

(** ** Further properties of the reader *)

(** *** Reading *)

(** X1.  An access of the raw view that raises caches nothing: the loader
    and the tables are as before, the fetcher has been asked once, and the
    next access asks it again. *)
Theorem X1_failed_read_caches_nothing (s s' : State) (e : exn) :
  vald_raw s = (Raise e, s') ->
  self s' = self s
  /\ _vald_raw (self s') = None
  /\ heap s' = heap s
  /\ fetched s' = fetched s ++ [fname (self s)]
  /\ fetched (snd (vald_raw s')) = fetched s ++ [fname (self s); fname (self s)].
Proof.
  intros H. apply vald_raw_cases in H
    as [(r & _ & Hr & _)|(Hn & Hf & _ & _ & [(e' & _ & Hs & Hh)|(df & ck & Hr & _)])];
    try discriminate.
  split; [exact Hs|]. split; [rewrite Hs; exact Hn|]. split; [exact Hh|]. split; [exact Hf|].
  destruct (vald_raw s') as [res s''] eqn:H2. simpl.
  apply vald_raw_cases in H2 as [(r & Hr & _)|(_ & Hf2 & _)].
  - rewrite Hs in Hr. congruence.
  - rewrite Hf2, Hf, Hs, <- app_assoc. reflexivity.
Qed.

(** X2.  [read_vald_raw] never touches the loader's attributes, the stores
    or an existing table.  Every call logs one message and asks the fetcher
    once, for [self.fname].  It creates a table, at a new address, exactly
    when it returns, and that table is well formed, with the columns of
    [vald_columns]. *)
Theorem X2_read_vald_raw_frame (arg : option string) (s : State) :
  let res := fst (read_vald_raw arg s) in
  let s' := snd (read_vald_raw arg s) in
  self s' = self s
  /\ stores s' = stores s /\ open_stores s' = open_stores s
  /\ fetched s' = fetched s ++ [fname (self s)]
  /\ length (logged s') = S (length (logged s))
  /\ (forall l df, heap s !! l = Some df -> heap s' !! l = Some df)
  /\ (forall e, res = Raise e -> heap s' = heap s)
  /\ (forall l ck, res = Ok (l, ck) ->
        l = length (heap s)
        /\ exists df, heap s' = heap s ++ [df] /\ well_formed df
                      /\ column_names df = vald_columns).
Proof.
  cbv zeta. rewrite read_vald_raw_eval.
  assert (Hlog : length (logged (requested arg s)) = S (length (logged s))).
  { simpl. rewrite length_app. simpl. lia. }
  destruct (read_from_buffer _ _) as [[buf ck0]|e0].
  2:{ simpl fst; simpl snd. repeat split; auto; discriminate. }
  destruct (utf8_decode buf) as [content|].
  2:{ simpl fst; simpl snd. repeat split; auto; discriminate. }
  destruct (read_csv _ _) as [df|e0] eqn:Hcsv.
  2:{ simpl fst; simpl snd. repeat split; auto; discriminate. }
  simpl fst; simpl snd.
  split; [reflexivity|]. split; [reflexivity|]. split; [reflexivity|].
  split; [reflexivity|]. split; [exact Hlog|].
  split; [intros l d Hl; simpl; apply lookup_app_l_Some, Hl|].
  split; [discriminate|].
  intros l ck [= <- <-]. split; [reflexivity|]. exists df.
  apply read_csv_ok in Hcsv. subst df.
  split; [reflexivity|].
  split; [apply frame_of_records_well_formed|apply frame_of_records_names].
Qed.

(** *** The views *)

Lemma parse_after_raw (s s0 : State) (r : nat) :
  loader_ok s -> vald_raw s = (Ok r, s0) -> parse_vald None s = parse_vald None s0.
Proof.
  intros Hok Hv. destruct (vald_raw_ok _ _ _ Hok Hv) as [_ Hr].
  destruct (Hr r eq_refl) as [Hc _].
  rewrite !parse_vald_eval, Hv. rewrite (vald_raw_eval s0), Hc. reflexivity.
Qed.

Lemma access_keeps_raw_attrs (v : view) (s s' : State) (res : result nat) (r : nat) :
  loader_ok s -> _vald_raw (self s) = Some r -> access v s = (res, s') ->
  version (self s') = version (self s) /\ _vald_raw (self s') = Some r.
Proof.
  intros Hok Hr. destruct v; simpl.
  - rewrite vald_raw_eval, Hr. intros [= <- <-]. auto.
  - rewrite vald_eval. destruct (_vald (self s)) as [p|]; [intros [= <- <-]; auto|].
    destruct (parse_vald None s) as [[p|e] s1] eqn:Hp.
    + destruct (parse_cached_cases _ _ _ Hok Hp) as (r1 & s0 & Hv & Hcase).
      rewrite vald_raw_eval, Hr in Hv. injection Hv as <- <-.
      destruct Hcase as [(e & [=] & _)|(r' & d & [= <-] & Hd & Hs)].
      assert (H0 : heap (set_heap (fun h => h ++ [d]) s) !! length (heap s) = Some d)
        by (simpl; apply list_lookup_middle; reflexivity).
      destruct (split_elm_ion_frame _ _ _ _ _ H0 Hs) as (F1 & _).
      intros [= <- <-]. simpl. rewrite F1. simpl. auto.
    + destruct (parse_cached_cases _ _ _ Hok Hp) as (r1 & s0 & Hv & Hcase).
      rewrite vald_raw_eval, Hr in Hv. injection Hv as <- <-.
      destruct Hcase as [(e' & [=] & _)|(r' & d & [= <-] & Hd & Hs)].
      assert (H0 : heap (set_heap (fun h => h ++ [d]) s) !! length (heap s) = Some d)
        by (simpl; apply list_lookup_middle; reflexivity).
      destruct (split_elm_ion_frame _ _ _ _ _ H0 Hs) as (F1 & _).
      intros [= <- <-]. rewrite F1. simpl. auto.
Qed.

Lemma accesses_keep_raw_attrs (vs : list view) (s : State) (r : nat) :
  loader_ok s -> _vald_raw (self s) = Some r ->
  version (self (accesses vs s)) = version (self s)
  /\ _vald_raw (self (accesses vs s)) = Some r.
Proof.
  revert s. induction vs as [|v vs IH]; intros s Hok Hr; simpl; [auto|].
  destruct (access v s) as [res s1] eqn:Ha. simpl.
  destruct (access_keeps_raw_attrs _ _ _ _ _ Hok Hr Ha) as [Hv Hr1].
  pose proof (access_keeps_ok v _ Hok) as Hok1. rewrite Ha in Hok1. simpl in Hok1.
  destruct (IH _ Hok1 Hr1) as [Hv2 Hr2]. split; [congruence|exact Hr2].
Qed.

(** X4.  The first access of the raw view that returns sets [version] to
    the checksum the fetcher gave with the buffer, and no later access of a
    view changes it. *)
Theorem X4_version_is_the_checksum (s s1 : State) (r : nat) :
  loader_ok s ->
  _vald_raw (self s) = None ->
  vald_raw s = (Ok r, s1) ->
  exists buf ck,
    read_from_buffer (fetched s) (fname (self s)) = Ok (buf, ck)
    /\ version (self s1) = Some ck
    /\ forall vs, version (self (accesses vs s1)) = Some ck.
Proof.
  intros Hok Hn Hv.
  destruct (vald_raw_ok _ _ _ Hok Hv) as [Hok1 Hr]. destruct (Hr r eq_refl) as [Hc _].
  revert Hv. rewrite vald_raw_eval, Hn, read_vald_raw_eval.
  destruct (read_from_buffer _ _) as [[buf ck]|e]; [|discriminate].
  destruct (utf8_decode buf) as [content|]; [|discriminate].
  destruct (read_csv _ _) as [df|e]; [|discriminate].
  intros [= <- <-]. exists buf, ck. split; [reflexivity|]. split; [reflexivity|].
  intros vs. destruct (accesses_keep_raw_attrs vs _ _ Hok1 Hc) as [Hv _].
  rewrite Hv. reflexivity.
Qed.

Lemma parse_no_rows (s : State) (r : nat) :
  loader_ok s ->
  _vald_raw (self s) = Some r ->
  heap s !! r = Some no_rows ->
  exists s', parse_vald None s = (Raise ValueError, s')
             /\ extends s s' /\ _vald (self s') = _vald (self s).
Proof.
  intros Hok Hr Hh.
  assert (Hin : input_table None s = Some no_rows) by (simpl; rewrite Hr; exact Hh).
  destruct (parse_vald_result None s no_rows [] Hin eq_refl)
    as (s' & _ & _ & _ & _ & _ & [(Hw & _)|(_ & Hp & _)]); [discriminate Hw|].
  exists s'. split; [exact Hp|].
  destruct (parse_cached_frame _ _ _ Hok Hp) as (He & _ & Hk & _). auto.
Qed.

(** X5.  When the source holds no data row, the raw view is an empty table
    but the parsed view cannot be had: the access raises [ValueError] (the
    split of an empty column has no columns to assign), the raw table stays
    cached and no parsed table is. *)
Theorem X5_no_rows_no_parsed_view
    (s : State) (buf : list byte) (ck : string) (content : text) :
  loader_ok s ->
  _vald_raw (self s) = None ->
  _vald (self s) = None ->
  read_from_buffer (fetched s) (fname (self s)) = Ok (buf, ck) ->
  utf8_decode buf = Some content ->
  findall data_match content = [] ->
  exists s',
    vald s = (Raise ValueError, s')
    /\ _vald (self s') = None
    /\ _vald_raw (self s') = Some (length (heap s))
    /\ heap s' !! length (heap s) = Some no_rows.
Proof.
  intros Hok Hn Hp Hf Hd Hm.
  assert (Hv : exists s0, vald_raw s = (Ok (length (heap s)), s0)
             /\ heap s0 !! length (heap s) = Some no_rows
             /\ _vald (self s0) = None).
  { rewrite vald_raw_eval, Hn, read_vald_raw_eval, Hf, Hd, Hm. eexists.
    split; [reflexivity|]. split; [simpl; apply list_lookup_middle; reflexivity|].
    simpl. exact Hp. }
  destruct Hv as (s0 & Hv & Hh0 & Hp0).
  destruct (vald_raw_ok _ _ _ Hok Hv) as [Hok0 Hr]. destruct (Hr _ eq_refl) as [Hc0 _].
  destruct (parse_no_rows _ _ Hok0 Hc0 Hh0) as (s' & Hparse & (_ & _ & _ & E4 & E5 & _) & Hk).
  exists s'. rewrite vald_eval, Hp, (parse_after_raw _ _ _ Hok Hv), Hparse.
  split; [reflexivity|]. split; [congruence|].
  split; [apply E5, Hc0|apply E4, Hh0].
Qed.

(** X6.  Exporting a source without data rows fails after the destination
    was replaced: [to_hdf] raises [ValueError], the handle is released, and
    the store is left holding the empty raw table under [/vald_raw] and no
    parsed table. *)
Theorem X6_export_without_rows
    (path : string) (s : State) (buf : list byte) (ck : string) (content : text) :
  loader_ok s ->
  _vald_raw (self s) = None ->
  _vald (self s) = None ->
  read_from_buffer (fetched s) (fname (self s)) = Ok (buf, ck) ->
  utf8_decode buf = Some content ->
  findall data_match content = [] ->
  hdf_open_ok path = true ->
  hdf_put_ok path "/vald_raw" = true ->
  exists s',
    to_hdf path s = (Raise ValueError, s')
    /\ open_stores s' = open_stores s
    /\ stores s' !! path = Some (<["/vald_raw" := no_rows]> ∅).
Proof.
  intros Hok Hn Hp Hf Hd Hm Hopen Hput.
  rewrite to_hdf_eval, Hopen.
  assert (Hv : exists s2, vald_raw (opened path s) = (Ok (length (heap s)), s2)
             /\ heap s2 !! length (heap s) = Some no_rows
             /\ _vald (self s2) = None
             /\ stores s2 = <[path := ∅]> (stores s)
             /\ open_stores s2 = path :: open_stores s).
  { rewrite vald_raw_eval. change (_vald_raw (self (opened path s))) with (_vald_raw (self s)).
    rewrite Hn, read_vald_raw_eval.
    change (fetched (opened path s)) with (fetched s).
    change (self (opened path s)) with (self s).
    rewrite Hf, Hd, Hm. eexists.
    split; [reflexivity|]. split; [simpl; apply list_lookup_middle; reflexivity|].
    simpl. auto. }
  destruct Hv as (s2 & Hv & Hh2 & Hp2 & Hst2 & Hop2).
  assert (Hok1 : loader_ok (opened path s)) by exact Hok.
  destruct (vald_raw_ok _ _ _ Hok1 Hv) as [Hok2 Hr]. destruct (Hr _ eq_refl) as [Hc2 _].
  rewrite Hv, Hput, Hh2. simpl default.
  set (s3 := written path "/vald_raw" no_rows s2).
  assert (Hok3 : loader_ok s3) by exact Hok2.
  destruct (parse_no_rows s3 _ Hok3 Hc2 Hh2) as (s4 & Hparse & (E1 & E2 & _) & _).
  rewrite vald_eval. change (_vald (self s3)) with (_vald (self s2)). rewrite Hp2, Hparse.
  eexists. split; [reflexivity|]. unfold close. simpl. rewrite E1, E2. simpl.
  rewrite Hop2, Hst2, remove_first_head. split; [reflexivity|].
  rewrite lookup_insert_eq. simpl. rewrite lookup_insert_eq. reflexivity.
Qed.

(** *** Parsing a supplied table *)

Lemma lookup_column_in (n : string) (cols : list (string * list cell)) (v : list cell) :
  lookup_column n cols = Some v -> (n, v) ∈ cols.
Proof.
  induction cols as [|[m w] cols IH]; simpl; [discriminate|].
  destruct (String.eqb_spec m n) as [->|_].
  - intros [= ->]. apply list_elem_of_here.
  - intros H. apply list_elem_of_further, IH, H.
Qed.

Lemma lookup_column_name (n : string) (cols : list (string * list cell)) (v : list cell) :
  lookup_column n cols = Some v -> n ∈ map fst cols.
Proof.
  intros H. apply lookup_column_in in H. apply list_elem_of_In.
  apply list_elem_of_In in H. exact (in_map fst _ _ H).
Qed.

(** X7.  [parse_vald] consumes the table it is given: after a call that
    returned, the table has no [elm_ion] column any more, and a second call
    on the same table raises [KeyError] and changes nothing. *)
Theorem X7_second_parse_raises_KeyError
    (l p : nat) (s s1 : State) (raw : DataFrame) :
  heap s !! l = Some raw ->
  column_names raw = vald_columns ->
  parse_vald (Some l) s = (Ok p, s1) ->
  p = l /\ parse_vald (Some l) s1 = (Raise (KeyError "elm_ion"), s1).
Proof.
  intros Hl Hnames Hp.
  destruct (lookup_column "elm_ion" (columns raw)) as [elm|] eqn:Hcol.
  2:{ rewrite parse_vald_eval, (split_elm_ion_no_column _ _ _ Hl Hcol) in Hp. discriminate. }
  destruct (parse_vald_result (Some l) s raw elm Hl Hcol)
    as (s' & _ & _ & _ & _ & _ & [(_ & Hp' & Hh)|(_ & Hp' & _)]); [|congruence].
  rewrite Hp in Hp'. simpl in Hp'. injection Hp' as -> <-. split; [reflexivity|].
  rewrite parse_vald_eval. eapply split_elm_ion_no_column; [exact Hh|].
  apply split_columns_no_elm_ion, Hnames.
Qed.

(** X8.  A parse that fails is not undone.  When the split of a supplied
    table does not have two columns, [parse_vald] raises [ValueError] after
    it has already replaced [elm_ion] by its quote-stripped values; the
    table keeps its columns and its other values, and gets no [molecule]
    or [ion_charge]. *)
Theorem X8_failed_parse_leaves_stripped_column
    (l : nat) (s : State) (raw : DataFrame) (elm : list cell) :
  heap s !! l = Some raw ->
  lookup_column "elm_ion" (columns raw) = Some elm ->
  split_width (str_replace_quote elm) <> 2%nat ->
  exists s' df,
    parse_vald (Some l) s = (Raise ValueError, s')
    /\ heap s' !! l = Some df
    /\ nrows df = nrows raw
    /\ column_names df = column_names raw
    /\ lookup_column "elm_ion" (columns df) = Some (str_replace_quote elm)
    /\ (forall n, n <> "elm_ion"%string ->
          lookup_column n (columns df) = lookup_column n (columns raw)).
Proof.
  intros Hl Hcol Hw.
  destruct (parse_vald_result (Some l) s raw elm Hl Hcol)
    as (s' & _ & _ & _ & _ & _ & [(Hw' & _)|(_ & Hp & Hh)]); [contradiction|].
  exists s'. eexists. split; [exact Hp|]. split; [exact Hh|]. split; [reflexivity|].
  split; [|split].
  - unfold column_names. simpl. apply names_assign_present.
    eapply lookup_column_name, Hcol.
  - simpl. apply lookup_assign_same.
  - intros n Hn. simpl. apply lookup_assign_other. congruence.
Qed.

Lemma well_formed_assign (k : nat) (n : string) (v : list cell)
      (cols : list (string * list cell)) :
  Forall (fun c => length (snd c) = k) cols -> length v = k ->
  Forall (fun c => length (snd c) = k) (assign_column n v cols).
Proof.
  intros H Hv. induction H as [|[m w] cols Hc H IH]; simpl.
  - constructor; [exact Hv|constructor].
  - destruct (String.eqb m n); constructor; auto.
Qed.

Lemma well_formed_remove (k : nat) (n : string) (cols : list (string * list cell)) :
  Forall (fun c => length (snd c) = k) cols ->
  Forall (fun c => length (snd c) = k) (remove_column n cols).
Proof.
  intros H. induction H as [|[m w] cols Hc H IH]; simpl; [constructor|].
  destruct (String.eqb m n); [exact H|constructor; auto].
Qed.

(** X9.  [parse_vald] keeps tables well formed: when the raw table has a
    cell in every column for every row, so has the table returned, with the
    same number of rows. *)
Theorem X9_parsed_table_is_well_formed
    (arg : option nat) (s s' : State) (raw parsed : DataFrame) (p : nat) :
  input_table arg s = Some raw ->
  well_formed raw ->
  parse_vald arg s = (Ok p, s') ->
  heap s' !! p = Some parsed ->
  well_formed parsed /\ nrows parsed = nrows raw.
Proof.
  intros Hin Hwf Hp Hh.
  destruct (lookup_column "elm_ion" (columns raw)) as [elm|] eqn:Hcol.
  2:{ exfalso. revert Hp. rewrite parse_vald_eval. destruct arg as [l|]; simpl in Hin.
      - rewrite (split_elm_ion_no_column _ _ _ Hin Hcol). discriminate.
      - destruct (_vald_raw (self s)) as [r|] eqn:Hr; [|discriminate]. simpl in Hin.
        rewrite vald_raw_eval, Hr.
        erewrite split_elm_ion_no_column; [discriminate| |exact Hcol].
        simpl. rewrite Hin. apply list_lookup_middle. reflexivity. }
  destruct (parse_vald_result arg s raw elm Hin Hcol)
    as (s1 & _ & _ & _ & _ & _ & [(_ & Hp' & Hh')|(_ & Hp' & _)]); [|congruence].
  rewrite Hp in Hp'. injection Hp' as -> ->. rewrite Hh in Hh'. injection Hh' as ->.
  split; [|reflexivity]. unfold well_formed in *. simpl.
  assert (Hlen : length elm = nrows raw).
  { apply lookup_column_in in Hcol. rewrite Forall_forall in Hwf. apply (Hwf _ Hcol). }
  apply well_formed_remove.
  repeat apply well_formed_assign; auto;
    unfold str_replace_quote; rewrite ?length_map; exact Hlen.
Qed.

(** *** The shape of a match *)

Lemma in_set_chr (a c : N) : in_set [Chr a] c = true -> c = a.
Proof.
  unfold in_set. simpl. rewrite orb_false_r. apply N.eqb_eq.
Qed.

Lemma in_set_digit (c : N) : in_set [CatDigit] c = true -> uni_digit c = true.
Proof. unfold in_set. simpl. rewrite orb_false_r. auto. Qed.

Lemma match_shape (m : text) :
  matches data_match m ->
  exists L D F K,
    m = 39 :: L ++ 32 :: D ++ 39 :: 44 :: F ++ 44 :: K
    /\ L <> [] /\ Forall (fun x => in_set letter_set x = true) L
    /\ D <> [] /\ Forall (fun x => uni_digit x = true) D
    /\ F <> [] /\ Forall (fun x => in_set field_set x = true) F
    /\ Forall (fun x => x = 93) K.
Proof.
  simpl. intros (c0 & m0 & -> & Hc0 & c1 & l1 & m1 & -> & Hc1 & Hl1
                 & c2 & m2 & -> & Hc2 & c3 & l3 & m3 & -> & Hc3 & Hl3
                 & c4 & m4 & -> & Hc4 & c5 & m5 & -> & Hc5
                 & c6 & l6 & m6 & -> & Hc6 & Hl6 & c7 & m7 & -> & Hc7
                 & l8 & m8 & -> & Hl8 & ->).
  apply in_set_chr in Hc0, Hc2, Hc4, Hc5, Hc7. subst.
  exists (c1 :: l1), (c3 :: l3), (c6 :: l6), l8. rewrite app_nil_r.
  split; [reflexivity|]. split; [discriminate|]. split; [constructor; assumption|].
  split; [discriminate|]. split.
  { constructor; [apply in_set_digit, Hc3|].
    eapply Forall_impl; [exact Hl3|]. intros x. apply in_set_digit. }
  split; [discriminate|]. split; [constructor; assumption|].
  eapply Forall_impl; [exact Hl8|]. intros x. apply in_set_chr.
Qed.

Lemma findall_from_substring (re : regex) (s : text) :
  forall skip m, m ∈ findall_from re skip s -> exists a b, s = a ++ m ++ b.
Proof.
  induction s as [|c s IH]; intros skip m H; simpl in H.
  - destruct skip; [|inversion H].
    destruct (match_here re []) as [[m1 r1]|] eqn:Hm; [|inversion H].
    apply list_elem_of_singleton in H as ->.
    apply match_here_sound in Hm as [_ Hm]. exists [], r1. exact Hm.
  - assert (Hrec : forall k, m ∈ findall_from re k s -> exists a b, c :: s = a ++ m ++ b).
    { intros k Hk. destruct (IH _ _ Hk) as (a & b & ->). exists (c :: a), b. reflexivity. }
    destruct skip as [|n]; [|eauto].
    destruct (match_here re (c :: s)) as [[m1 r1]|] eqn:Hm; [|eauto].
    apply elem_of_cons in H as [->|H]; [|eauto].
    apply match_here_sound in Hm as [_ Hm]. exists [], r1. exact Hm.
Qed.

(** X10.  Every text that the row pattern selects is a part of the buffer
    of this shape: a quote, letters of [a-zA-Z], one space, digits, a quote
    and a comma, then at least one character of the set and a comma, then
    closing brackets only.  It is never empty and holds no double quote. *)
Theorem X10_shape_of_a_match (content m : text) :
  m ∈ findall data_match content ->
  (exists a b, content = a ++ m ++ b)
  /\ (exists L D F K,
        m = 39 :: L ++ 32 :: D ++ 39 :: 44 :: F ++ 44 :: K
        /\ L <> [] /\ Forall (fun x => in_set letter_set x = true) L
        /\ D <> [] /\ Forall (fun x => uni_digit x = true) D
        /\ F <> [] /\ Forall (fun x => in_set field_set x = true) F
        /\ Forall (fun x => x = 93) K)
  /\ 34 ∉ m.
Proof.
  intros H. split; [eapply findall_from_substring, H|]. split.
  - apply findall_from_elem in H as (s' & r & H).
    apply match_here_sound in H as [H _]. apply match_shape, H.
  - pose proof (findall_no_double_quote content) as Hq.
    rewrite Forall_forall in Hq. apply Hq, H.
Qed.

(** *** Matches that stay on their line *)

Lemma leading_app (p : N -> bool) (a b : text) :
  Forall (fun x => p x = true) a ->
  match b with c :: _ => p c = false | [] => True end ->
  leading p (a ++ b) = a.
Proof.
  intros Ha Hb. induction Ha as [|x a Hx _ IH]; simpl.
  - destruct b as [|c b]; simpl; [reflexivity|]. rewrite Hb. reflexivity.
  - rewrite Hx, IH. reflexivity.
Qed.

Lemma strip_quotes_none (t : text) : 39 ∉ t -> strip_quotes t = t.
Proof.
  unfold strip_quotes. induction t as [|c t IH]; intros H; [reflexivity|].
  apply not_elem_of_cons in H as [Hc Ht].
  rewrite filter_cons_True, IH; [reflexivity|exact Ht|].
  destruct (N.eqb_spec c 39); [congruence|exact I].
Qed.

Lemma strip_quotes_app (a b : text) : strip_quotes (a ++ b) = strip_quotes a ++ strip_quotes b.
Proof. apply filter_app. Qed.

Lemma letter_is_plain (x : N) :
  in_set letter_set x = true -> x <> 39 /\ x <> 32 /\ x <> 44.
Proof.
  unfold in_set. simpl. rewrite orb_false_r. intros H.
  apply orb_true_iff in H as [H|H]; apply andb_true_iff in H as [H1 H2];
    apply N.leb_le in H1, H2; lia.
Qed.

Lemma digit_is_plain (x : N) :
  uni_digit x = true -> x <> 39 /\ x <> 32 /\ x <> 44.
Proof.
  unfold uni_digit. destruct (N.ltb_spec x 128) as [Hx|Hx]; [|lia].
  intros H. apply andb_true_iff in H as [H1 H2]. apply N.leb_le in H1, H2. lia.
Qed.

Lemma quoted_token_is_a_value (t : text) : cell_of (39 :: t) = Some (39 :: t).
Proof.
  unfold cell_of. rewrite bool_decide_eq_false_2; [reflexivity|].
  intros H. apply list_elem_of_In in H. vm_compute in H.
  repeat (destruct H as [H|H]; [discriminate H|]). exact H.
Qed.

(** The parts of a match: the element and the charge between its quotes
    are what [quoted_element] and [quoted_charge] read off it, its first
    field is the quoted pair, and the split of that field at its spaces has
    exactly these two parts. *)
Lemma match_fields (m : text) :
  matches data_match m ->
  let e := quoted_element m in
  let q := quoted_charge m in
  e <> [] /\ Forall (fun x => in_set letter_set x = true) e
  /\ q <> [] /\ Forall (fun x => uni_digit x = true) q
  /\ nth 0 (split_on is_comma m) [] = 39 :: e ++ 32 :: q ++ [39]
  /\ parts_of (Some (strip_quotes (39 :: e ++ 32 :: q ++ [39]))) = [Some e; Some q].
Proof.
  intros H. destruct (match_shape m H) as (L & D & F & K & -> & HL0 & HL & HD0 & HD & _).
  assert (He : quoted_element (39 :: L ++ 32 :: D ++ 39 :: 44 :: F ++ 44 :: K) = L).
  { unfold quoted_element. simpl drop. apply leading_app; [exact HL|reflexivity]. }
  assert (Hq : quoted_charge (39 :: L ++ 32 :: D ++ 39 :: 44 :: F ++ 44 :: K) = D).
  { unfold quoted_charge. rewrite He.
    change (drop (2 + length L) (39 :: L ++ 32 :: D ++ 39 :: 44 :: F ++ 44 :: K))
      with (drop (S (length L)) (L ++ 32 :: D ++ 39 :: 44 :: F ++ 44 :: K)).
    replace (L ++ 32 :: D ++ 39 :: 44 :: F ++ 44 :: K)
      with ((L ++ [32]) ++ D ++ 39 :: 44 :: F ++ 44 :: K)
      by (rewrite <- app_assoc; reflexivity).
    rewrite drop_app_length' by (rewrite length_app; simpl; lia).
    apply leading_app; [exact HD|]. unfold uni_digit. reflexivity. }
  cbv zeta. rewrite He, Hq.
  assert (HL' : Forall (fun x => x <> 39 /\ x <> 32 /\ x <> 44) L).
  { eapply Forall_impl; [exact HL|]. intros x. apply letter_is_plain. }
  assert (HD' : Forall (fun x => x <> 39 /\ x <> 32 /\ x <> 44) D).
  { eapply Forall_impl; [exact HD|]. intros x. apply digit_is_plain. }
  split; [exact HL0|]. split; [exact HL|]. split; [exact HD0|]. split; [exact HD|]. split.
  - replace (39 :: L ++ 32 :: D ++ 39 :: 44 :: F ++ 44 :: K)
      with ((39 :: L ++ 32 :: D ++ [39]) ++ 44 :: F ++ 44 :: K).
    2:{ simpl. rewrite <- !app_assoc. simpl. rewrite <- !app_assoc. reflexivity. }
    rewrite split_on_app by reflexivity. rewrite split_on_none; [reflexivity|].
    constructor; [reflexivity|]. apply Forall_app. split.
    + eapply Forall_impl; [exact HL'|]. intros x (_ & _ & Hx).
      unfold is_comma. apply N.eqb_neq, Hx.
    + constructor; [reflexivity|]. apply Forall_app. split; [|repeat constructor].
      eapply Forall_impl; [exact HD'|]. intros x (_ & _ & Hx).
      unfold is_comma. apply N.eqb_neq, Hx.
  - assert (Hs : strip_quotes (39 :: L ++ 32 :: D ++ [39]) = L ++ 32 :: D).
    { change (39 :: L ++ 32 :: D ++ [39]) with ([39] ++ L ++ [32] ++ D ++ [39]).
      rewrite !strip_quotes_app.
      rewrite (strip_quotes_none L), (strip_quotes_none D).
      - change (strip_quotes [39]) with (@nil N). change (strip_quotes [32]) with [32].
        rewrite app_nil_r. reflexivity.
      - intros Hin. rewrite Forall_forall in HD'. destruct (HD' _ Hin) as [Hx _]. congruence.
      - intros Hin. rewrite Forall_forall in HL'. destruct (HL' _ Hin) as [Hx _]. congruence. }
    rewrite Hs. unfold parts_of, split_space.
    rewrite split_on_app by reflexivity.
    rewrite !split_on_none; [reflexivity| |].
    + eapply Forall_impl; [exact HD'|]. intros x (_ & Hx & _). apply N.eqb_neq, Hx.
    + eapply Forall_impl; [exact HL'|]. intros x (_ & Hx & _). apply N.eqb_neq, Hx.
Qed.

Lemma findall_matches (content : text) :
  Forall (matches data_match) (findall data_match content).
Proof.
  apply Forall_forall. intros m H.
  apply findall_from_elem in H as (s' & r & H).
  apply match_here_sound in H as [H _]. exact H.
Qed.

Lemma rows_of_matches (ms : list text) :
  Forall (matches data_match) ms ->
  Forall (Forall (fun c => is_line_end c = false)) ms ->
  tokenize (join [10] ms) = map (split_on is_comma) ms.
Proof.
  intros Hm Hl. rewrite tokenize_join.
  induction Hm as [|m ms Hm _ IH]; [reflexivity|].
  apply Forall_cons in Hl as [Hl1 Hl2]. simpl. rewrite (IH Hl2).
  destruct (match_shape m Hm) as (L & D & F & K & -> & _).
  rewrite (tokenize_single_line _ Hl1). reflexivity.
Qed.

Lemma split_width_two (col : list cell) :
  col <> [] -> Forall (fun c => length (parts_of c) = 2%nat) col -> split_width col = 2%nat.
Proof.
  unfold split_width. intros Hne H. induction H as [|c col Hc H IH]; [contradiction|].
  simpl. rewrite Hc. destruct col as [|c' col]; [reflexivity|].
  rewrite IH by discriminate. reflexivity.
Qed.

(** X11.  When every match of the row pattern lies on one line, there is
    at least one, and the raw table can be built, the first access of the
    parsed view returns a new table with one row per match, in their
    order: [molecule] holds the letters between the opening quote and the
    space, [ion_charge] the digits after the space, both present and not
    empty in every row. *)
Theorem X11_parsed_view_of_one_line_matches
    (s s1 : State) (r : nat) (buf : list byte) (ck : string) (content : text) :
  loader_ok s ->
  _vald_raw (self s) = None ->
  _vald (self s) = None ->
  read_from_buffer (fetched s) (fname (self s)) = Ok (buf, ck) ->
  utf8_decode buf = Some content ->
  findall data_match content <> [] ->
  Forall (Forall (fun c => is_line_end c = false)) (findall data_match content) ->
  vald_raw s = (Ok r, s1) ->
  let ms := findall data_match content in
  exists s' parsed,
    vald s = (Ok (S (length (heap s))), s')
    /\ _vald (self s') = Some (S (length (heap s)))
    /\ heap s' !! S (length (heap s)) = Some parsed
    /\ nrows parsed = length ms
    /\ column_names parsed = tail vald_columns ++ ["molecule"; "ion_charge"]%string
    /\ lookup_column "molecule" (columns parsed)
       = Some (map (fun m => Some (quoted_element m)) ms)
    /\ lookup_column "ion_charge" (columns parsed)
       = Some (map (fun m => Some (quoted_charge m)) ms)
    /\ Forall (fun m => quoted_element m <> []
                        /\ Forall (fun x => in_set letter_set x = true) (quoted_element m)
                        /\ quoted_charge m <> []
                        /\ Forall (fun x => uni_digit x = true) (quoted_charge m)) ms.
Proof.
  intros Hok Hn Hp Hf Hd Hne Hl Hraw ms.
  pose proof (findall_matches content) as Hms. fold ms in Hms, Hne, Hl.
  set (recs := map (split_on is_comma) ms).
  set (raw := frame_of_records vald_columns recs).
  assert (Hs1 : r = length (heap s) /\ heap s1 = heap s ++ [raw] /\ _vald (self s1) = None).
  { rewrite vald_raw_eval, Hn, read_vald_raw_eval, Hf, Hd in Hraw. fold ms in Hraw.
    destruct (read_csv vald_columns (join [10] ms)) as [df|e] eqn:Hcsv; [|discriminate Hraw].
    apply read_csv_ok in Hcsv. rewrite (rows_of_matches ms Hms Hl) in Hcsv. subst df.
    injection Hraw as <- <-. simpl. auto. }
  destruct Hs1 as (-> & Hh1 & Hp1).
  destruct (vald_raw_ok _ _ _ Hok Hraw) as [Hok1 Hr]. destruct (Hr _ eq_refl) as [Hc1 _].
  assert (Hin : input_table None s1 = Some raw).
  { simpl. rewrite Hc1. simpl. rewrite Hh1. apply list_lookup_middle. reflexivity. }
  assert (Hrow : Forall (fun m =>
              parts_of (strip_quotes <$> cell_of (nth 0 (split_on is_comma m) []))
              = [Some (quoted_element m); Some (quoted_charge m)]) ms).
  { eapply Forall_impl; [exact Hms|]. intros m Hm.
    destruct (match_fields m Hm) as (_ & _ & _ & _ & E1 & E2).
    rewrite E1, quoted_token_is_a_value. exact E2. }
  set (elm := column_of recs 0).
  assert (Hcol : lookup_column "elm_ion" (columns raw) = Some elm) by reflexivity.
  assert (Helm : str_replace_quote elm
                 = map (fun m => strip_quotes <$> cell_of (nth 0 (split_on is_comma m) [])) ms).
  { unfold str_replace_quote, elm, column_of, recs. rewrite !map_map. reflexivity. }
  assert (Hw : split_width (str_replace_quote elm) = 2%nat).
  { apply split_width_two.
    - rewrite Helm. destruct ms; [contradiction|discriminate].
    - rewrite Helm. apply Forall_map. eapply Forall_impl; [exact Hrow|].
      intros m E. simpl. rewrite E. reflexivity. }
  destruct (parse_vald_result None s1 raw elm Hin Hcol)
    as (s2 & _ & _ & _ & _ & _ & [(_ & Hparse & Hh2)|(Hw' & _)]); [|contradiction].
  assert (Hwp : work_place None s1 = S (length (heap s))).
  { simpl. rewrite Hh1, length_app. simpl. lia. }
  rewrite Hwp in Hparse, Hh2.
  eexists. eexists.
  rewrite vald_eval, Hp, (parse_after_raw _ _ _ Hok Hraw), Hparse.
  split; [reflexivity|]. split; [reflexivity|]. split; [exact Hh2|].
  split; [simpl; unfold recs; apply length_map|].
  split; [apply split_columns_names, frame_of_records_names|].
  split.
  { rewrite split_columns_molecule, Helm, map_map. f_equal.
    apply map_ext_Forall. eapply Forall_impl; [exact Hrow|].
    intros m E. simpl. rewrite E. reflexivity. }
  split.
  { rewrite split_columns_ion_charge, Helm, map_map. f_equal.
    apply map_ext_Forall. eapply Forall_impl; [exact Hrow|].
    intros m E. simpl. rewrite E. reflexivity. }
  eapply Forall_impl; [exact Hms|]. intros m Hm.
  destruct (match_fields m Hm) as (H1 & H2 & H3 & H4 & _). auto.
Qed.

(** X3.  What [read_vald_raw] raises: the fetcher's exception, unchanged;
    [UnicodeDecodeError] for a buffer that is not UTF-8; and for a buffer
    that is, nothing but [ParserError], and not that either when every match
    lies on one line and no match after the first has more fields than both
    the first match and the 13 column names. *)
Theorem X3_read_vald_raw_raises (arg : option string) (s : State) :
  let res := fst (read_vald_raw arg s) in
  match read_from_buffer (fetched s) (fname (self s)) with
  | Raise e => res = Raise e
  | Ok (buf, ck) =>
    match utf8_decode buf with
    | None => res = Raise UnicodeDecodeError
    | Some content =>
      let ms := findall data_match content in
      (res = Ok (length (heap s), ck) \/ res = Raise ParserError)
      /\ (Forall (Forall (fun c => is_line_end c = false)) ms ->
          (forall first rest, ms = first :: rest ->
             Forall (fun m => (fields_of m <= Nat.max (fields_of first) 13)%nat) rest) ->
          res = Ok (length (heap s), ck))
    end
  end.
Proof.
  cbv zeta. rewrite read_vald_raw_eval.
  destruct (read_from_buffer _ _) as [[buf ck]|e]; [|reflexivity].
  destruct (utf8_decode buf) as [content|]; [|reflexivity].
  pose proof (findall_matches content) as Hms.
  set (ms := findall data_match content) in *.
  split.
  - unfold read_csv. destruct (tokenize _) as [|first rest]; [left; reflexivity|].
    destruct (existsb _ rest); [right|left]; reflexivity.
  - intros Hl Hf. unfold read_csv. rewrite (rows_of_matches ms Hms Hl).
    destruct ms as [|first rest]; [reflexivity|].
    specialize (Hf first rest eq_refl). cbn [map].
    change (length vald_columns) with 13%nat.
    replace (existsb _ _) with false; [reflexivity|].
    symmetry. apply not_true_is_false. intros Hex.
    apply existsb_exists in Hex as (r & Hin & Hlt).
    apply in_map_iff in Hin as (m & <- & Hin).
    rewrite Forall_forall in Hf. apply list_elem_of_In in Hin. specialize (Hf m Hin).
    apply Nat.ltb_lt in Hlt. unfold fields_of in Hf. lia.
Qed.

(** *** Exporting *)

(** An export when both views are cached: nothing is read or built, and the
    store holds what the disk accepted. *)
Lemma to_hdf_of_cached_views
    (path : string) (s : State) (r p : nat) (raw parsed : DataFrame) :
  _vald_raw (self s) = Some r ->
  _vald (self s) = Some p ->
  heap s !! r = Some raw ->
  heap s !! p = Some parsed ->
  to_hdf path s
  = if hdf_open_ok path then
      if hdf_put_ok path "/vald_raw" then
        if hdf_put_ok path "/vald"
        then (Ok tt,
              set_stores (<[path := <["/vald" := parsed]> (<["/vald_raw" := raw]> ∅)]>) s)
        else (Raise StorageError, set_stores (<[path := <["/vald_raw" := raw]> ∅]>) s)
      else (Raise StorageError, set_stores (<[path := ∅]>) s)
    else (Raise StorageError, s).
Proof.
  intros Hr Hp Hraw Hparsed.
  rewrite to_hdf_eval. destruct (hdf_open_ok path); [|reflexivity].
  rewrite vald_raw_eval.
  change (_vald_raw (self (opened path s))) with (_vald_raw (self s)). rewrite Hr.
  change (heap (opened path s)) with (heap s). rewrite Hraw. simpl default.
  destruct (hdf_put_ok path "/vald_raw").
  2:{ f_equal. unfold close, opened, set_stores, set_open_stores.
      cbn [self heap fetched logged stores open_stores].
      rewrite remove_first_head. reflexivity. }
  rewrite vald_eval.
  change (_vald (self (written path "/vald_raw" raw (opened path s)))) with (_vald (self s)).
  rewrite Hp.
  change (heap (written path "/vald_raw" raw (opened path s))) with (heap s).
  rewrite Hparsed. simpl default.
  destruct (hdf_put_ok path "/vald"); f_equal;
    unfold close, written, opened, set_stores, set_open_stores;
    cbn [self heap fetched logged stores open_stores];
    rewrite remove_first_head; f_equal;
    rewrite !lookup_insert_eq; cbn [default]; rewrite !insert_insert_eq; reflexivity.
Qed.

Lemma to_hdf_returned (path : string) (s s1 : State) :
  loader_ok s ->
  to_hdf path s = (Ok tt, s1) ->
  hdf_open_ok path = true /\ hdf_put_ok path "/vald_raw" = true
  /\ hdf_put_ok path "/vald" = true
  /\ exists r p raw parsed,
       _vald_raw (self s1) = Some r /\ _vald (self s1) = Some p
       /\ heap s1 !! r = Some raw /\ heap s1 !! p = Some parsed
       /\ stores s1 = <[path := <["/vald" := parsed]> (<["/vald_raw" := raw]> ∅)]> (stores s)
       /\ open_stores s1 = open_stores s.
Proof.
  intros Hok. rewrite to_hdf_eval.
  destruct (hdf_open_ok path) eqn:Hopen; [|discriminate].
  assert (Hok1 : loader_ok (opened path s)) by exact Hok.
  destruct (vald_raw (opened path s)) as [[r|e] s2] eqn:Hraw; [|discriminate].
  destruct (vald_raw_extends _ _ _ Hraw) as (E1 & E2 & _). simpl in E1, E2.
  destruct (vald_raw_ok _ _ _ Hok1 Hraw) as [Hok2 Hr].
  destruct (Hr r eq_refl) as [Hcr Hlt].
  destruct (lookup_lt_is_Some_2 _ _ Hlt) as [raw Hrawd]. rewrite Hrawd. simpl default.
  destruct (hdf_put_ok path "/vald_raw") eqn:Hput1; [|discriminate].
  set (s3 := written path "/vald_raw" raw s2).
  assert (Hok3 : loader_ok s3) by exact Hok2.
  assert (Hst3 : stores s3 = <[path := <["/vald_raw" := raw]> ∅]> (stores s)).
  { unfold s3, written. simpl. rewrite E1, lookup_insert_eq. simpl.
    apply insert_insert_eq. }
  destruct (vald s3) as [[p|e] s4] eqn:Hparsed; [|discriminate].
  destruct (access_frame ParsedView _ _ _ Hok3 Hparsed)
    as ((F1 & F2 & F3 & F4 & F5 & F6) & Hok4 & _ & Hres).
  destruct (Hres p eq_refl) as (Hcp & Hltp & _). simpl in Hcp.
  destruct (lookup_lt_is_Some_2 _ _ Hltp) as [parsed Hpd].
  destruct (F5 r Hcr) as [Hcr4 _].
  destruct (hdf_put_ok path "/vald") eqn:Hput2; [|discriminate].
  intros [= <-]. split; [reflexivity|]. split; [reflexivity|]. split; [reflexivity|].
  exists r, p, raw, parsed.
  split; [exact Hcr4|]. split; [exact Hcp|]. split; [apply F4, Hrawd|]. split; [exact Hpd|].
  unfold close. simpl. rewrite F1, F2, Hst3, Hpd. simpl. rewrite E2, remove_first_head.
  split; [|reflexivity].
  rewrite lookup_insert_eq. simpl. apply insert_insert_eq.
Qed.

(** X13.  Whatever its outcome, [to_hdf] asks the source at most once, and
    not at all when the raw table is cached or the store cannot be opened (in
    which case nothing at all changes).  It keeps the loader's location,
    every table that exists and every view that is cached. *)
Theorem X13_export_fetches_at_most_once
    (path : string) (s s' : State) (res : result unit) :
  loader_ok s ->
  to_hdf path s = (res, s') ->
  (fetched s' = fetched s \/ fetched s' = fetched s ++ [fname (self s)])
  /\ (is_Some (_vald_raw (self s)) -> fetched s' = fetched s)
  /\ (hdf_open_ok path = false -> s' = s)
  /\ fname (self s') = fname (self s)
  /\ (forall l df, heap s !! l = Some df -> heap s' !! l = Some df)
  /\ (forall r, _vald_raw (self s) = Some r -> _vald_raw (self s') = Some r)
  /\ (forall p, _vald (self s) = Some p -> _vald (self s') = Some p).
Proof.
  intros Hok. rewrite to_hdf_eval.
  destruct (hdf_open_ok path) eqn:Hopen.
  2:{ intros [= <- <-]. repeat split; auto. }
  assert (Hok1 : loader_ok (opened path s)) by exact Hok.
  destruct (vald_raw (opened path s)) as [r1 s2] eqn:Hraw.
  destruct (access_frame RawView _ _ _ Hok1 Hraw)
    as ((_ & _ & E3 & E4 & E5 & E6) & Hok2 & Hf2 & Hres2).
  simpl in E3, E4, E5, E6, Hf2.
  assert (Hstop : forall e, res = Raise e -> s' = close path s2 ->
    (fetched s' = fetched s \/ fetched s' = fetched s ++ [fname (self s)])
    /\ (is_Some (_vald_raw (self s)) -> fetched s' = fetched s)
    /\ (true = false -> s' = s)
    /\ fname (self s') = fname (self s)
    /\ (forall l df, heap s !! l = Some df -> heap s' !! l = Some df)
    /\ (forall r, _vald_raw (self s) = Some r -> _vald_raw (self s') = Some r)
    /\ (forall p, _vald (self s) = Some p -> _vald (self s') = Some p)).
  { intros e _ ->. simpl. split; [exact Hf2|]. split; [intros [r Hr]; apply (E5 r Hr)|].
    split; [discriminate|]. split; [exact E3|]. split; [exact E4|].
    split; [intros r Hr; apply (E5 r Hr)|exact E6]. }
  destruct r1 as [r|e]; [|intros [= <- <-]; eapply Hstop; reflexivity].
  destruct (hdf_put_ok path "/vald_raw"); [|intros [= <- <-]; eapply Hstop; reflexivity].
  destruct (Hres2 r eq_refl) as (Hcr & _). simpl in Hcr.
  set (s3 := written path "/vald_raw" (default (mkFrame 0 []) (heap s2 !! r)) s2).
  assert (Hok3 : loader_ok s3) by exact Hok2.
  destruct (vald s3) as [r4 s4] eqn:Hparsed.
  destruct (access_frame ParsedView _ _ _ Hok3 Hparsed)
    as ((_ & _ & F3 & F4 & F5 & F6) & _ & _ & _).
  simpl in F3, F4, F5, F6. destruct (F5 r Hcr) as [Hcr4 Hf4].
  assert (Hend : forall s5, fetched s5 = fetched s4 -> self s5 = self s4 -> heap s5 = heap s4 ->
    (fetched s5 = fetched s \/ fetched s5 = fetched s ++ [fname (self s)])
    /\ (is_Some (_vald_raw (self s)) -> fetched s5 = fetched s)
    /\ (true = false -> s5 = s)
    /\ fname (self s5) = fname (self s)
    /\ (forall l df, heap s !! l = Some df -> heap s5 !! l = Some df)
    /\ (forall r, _vald_raw (self s) = Some r -> _vald_raw (self s5) = Some r)
    /\ (forall p, _vald (self s) = Some p -> _vald (self s5) = Some p)).
  { intros s5 -> -> ->. rewrite Hf4. split; [exact Hf2|].
    split; [intros [r0 Hr0]; apply (E5 r0 Hr0)|]. split; [discriminate|].
    split; [congruence|]. split; [intros l df Hl; apply F4, E4, Hl|].
    split; [intros r0 Hr0; destruct (E5 r0 Hr0) as [Hx _]; apply (F5 r0 Hx)|].
    intros p Hp. apply F6, E6, Hp. }
  destruct r4 as [p|e]; [|intros [= <- <-]; apply Hend; reflexivity].
  destruct (hdf_put_ok path "/vald"); intros [= <- <-]; apply Hend; reflexivity.
Qed.

(** *** The two views together *)

Lemma parse_cached_split (s s' : State) (p : nat) :
  loader_ok s ->
  parse_vald None s = (Ok p, s') ->
  exists r raw elm,
    _vald_raw (self s') = Some r /\ r <> p
    /\ heap s' !! r = Some raw
    /\ lookup_column "elm_ion" (columns raw) = Some elm
    /\ heap s' !! p = Some (parsed_from raw elm).
Proof.
  intros Hok Hparse.
  destruct (parse_cached_cases _ _ _ Hok Hparse)
    as (r1 & s1 & Hraw & [(e & _ & He & _)|(r & d & -> & Hd & _)]); [discriminate He|].
  destruct (vald_raw_ok _ _ _ Hok Hraw) as [Hok1 Hr]. destruct (Hr r eq_refl) as [Hc1 Hlt].
  rewrite (parse_after_raw _ _ _ Hok Hraw) in Hparse.
  destruct (parse_cached_frame _ _ _ Hok1 Hparse) as ((_ & _ & _ & E4 & E5 & _) & _ & _ & _ & Hres).
  destruct (Hres p eq_refl) as (Hp & r' & raw' & Hc' & Hlt' & Hraw' & [elm Helm]).
  destruct (E5 r Hc1) as [Hc _]. rewrite Hc in Hc'. injection Hc' as <-.
  rewrite (E4 _ _ Hd) in Hraw'. injection Hraw' as <-.
  assert (Hin : input_table None s1 = Some d) by (simpl; rewrite Hc1; exact Hd).
  destruct (parse_vald_result None s1 d elm Hin Helm)
    as (s2 & _ & _ & _ & _ & _ & [(_ & Hp2 & Hh2)|(_ & Hp2 & _)]);
    rewrite Hparse in Hp2; [|discriminate Hp2].
  injection Hp2 as -> <-.
  exists r, d, elm. split; [exact Hc|]. split; [simpl; lia|].
  split; [apply E4, Hd|]. split; [exact Helm|exact Hh2].
Qed.

Lemma access_keeps_agreement (v : view) (s : State) :
  loader_ok s -> views_agree s -> views_agree (snd (access v s)).
Proof.
  intros Hok Hag. destruct v; simpl.
  - destruct (vald_raw s) as [res s'] eqn:Hraw. simpl.
    destruct (vald_raw_cases _ _ _ Hraw)
      as [(r & _ & _ & ->)|(Hn & _ & _ & _ & Hs)]; [exact Hag|].
    assert (Hp : _vald (self s) = None).
    { destruct (_vald (self s)) as [p|] eqn:Hp; [|reflexivity].
      destruct Hok as [_ O2]. destruct (O2 p Hp) as [_ [r Hr]]. congruence. }
    intros p Hp'. exfalso.
    destruct Hs as [(e & _ & Hs & _)|(df & ck & _ & _ & _ & Hs)]; rewrite Hs in Hp';
      simpl in Hp'; congruence.
  - rewrite vald_eval. destruct (_vald (self s)) as [p|] eqn:Hp; [exact Hag|].
    destruct (parse_vald None s) as [[p|e] s'] eqn:Hparse; simpl.
    + intros p' [= <-]. exact (parse_cached_split _ _ _ Hok Hparse).
    + destruct (parse_cached_frame _ _ _ Hok Hparse) as (_ & _ & Hk & _).
      intros p' Hp'. congruence.
Qed.

(** X14.  The two views of a loader agree, however they are read: after
    any sequence of accesses of the views of a loader that had no parsed
    table, failed accesses included, the parsed table that is cached is the
    parsed table of the raw table that is cached, and a different object. *)
Theorem X14_views_agree (vs : list view) (s : State) (p : nat) :
  loader_ok s ->
  _vald (self s) = None ->
  _vald (self (accesses vs s)) = Some p ->
  exists r raw elm,
    _vald_raw (self (accesses vs s)) = Some r /\ r <> p
    /\ heap (accesses vs s) !! r = Some raw
    /\ lookup_column "elm_ion" (columns raw) = Some elm
    /\ heap (accesses vs s) !! p
       = Some (split_columns raw (str_replace_quote elm)
                 (map (fun c => nth 0 (parts_of c) None) (str_replace_quote elm))
                 (map (fun c => nth 1 (parts_of c) None) (str_replace_quote elm))).
Proof.
  intros Hok Hn.
  assert (Hag : views_agree s) by (intros q Hq; congruence).
  clear Hn. revert s Hok Hag p.
  induction vs as [|v vs IH]; intros s Hok Hag p Hp.
  - exact (Hag p Hp).
  - simpl in *. apply IH; [apply access_keeps_ok, Hok|apply access_keeps_agreement; assumption|exact Hp].
Qed.

(** *** A new loader *)

(** X15.  The first access of either view of a new loader, whether it
    returns or raises, asks the source exactly once, for the location that
    was given (as it is, an empty one too) or for [VALD_URL] when none was,
    and the location of the loader stays that one. *)
Theorem X15_first_access_asks_the_location
    (fname_arg : option string) (v : view) (s : State) :
  self s = __init__ fname_arg ->
  loader_ok s
  /\ fetched (snd (access v s)) = fetched s ++ [default VALD_URL fname_arg]
  /\ fname (self (snd (access v s))) = default VALD_URL fname_arg.
Proof.
  intros H.
  assert (Hok : loader_ok s) by (split; intros x Hx; rewrite H in Hx; discriminate Hx).
  assert (Hf : fname (self s) = default VALD_URL fname_arg)
    by (rewrite H; destruct fname_arg; reflexivity).
  assert (Hn : _vald_raw (self s) = None) by (rewrite H; reflexivity).
  assert (Hp : _vald (self s) = None) by (rewrite H; reflexivity).
  assert (Hraw : forall r1 s1, vald_raw s = (r1, s1) ->
            fetched s1 = fetched s ++ [default VALD_URL fname_arg]
            /\ fname (self s1) = default VALD_URL fname_arg).
  { intros r1 s1 Hraw. destruct (vald_raw_extends _ _ _ Hraw) as (_ & _ & E3 & _).
    destruct (vald_raw_cases _ _ _ Hraw) as [(r & Hr & _)|(_ & E & _)]; [congruence|].
    rewrite E, E3, Hf. auto. }
  split; [exact Hok|]. destruct v; simpl.
  - destruct (vald_raw s) as [r1 s1] eqn:E. exact (Hraw r1 s1 eq_refl).
  - rewrite vald_eval, Hp.
    destruct (parse_vald None s) as [res s'] eqn:Hparse.
    assert (Hs' : fetched s' = fetched s ++ [default VALD_URL fname_arg]
                  /\ fname (self s') = default VALD_URL fname_arg).
    { destruct (parse_cached_cases _ _ _ Hok Hparse)
        as (r1 & s1 & E & [(e & _ & _ & ->)|(r & d & _ & _ & Hsplit)]);
        destruct (Hraw r1 s1 E) as [F1 F2]; [auto|].
      assert (Hd : heap (set_heap (fun h => h ++ [d]) s1) !! length (heap s1) = Some d)
        by (simpl; apply list_lookup_middle; reflexivity).
      destruct (split_elm_ion_frame _ _ _ _ _ Hd Hsplit) as (G1 & G2 & _).
      rewrite G1, G2. auto. }
    destruct res as [p|e]; simpl; exact Hs'.
Qed.

(** *** When there is a match *)

Lemma digit_in_set (c : N) : uni_digit c = true -> in_set [CatDigit] c = true.
Proof. intros H. unfold in_set. simpl. rewrite H. reflexivity. Qed.

Lemma shape_matches (L D F K : text) :
  L <> [] -> Forall (fun x => in_set letter_set x = true) L ->
  D <> [] -> Forall (fun x => uni_digit x = true) D ->
  F <> [] -> Forall (fun x => in_set field_set x = true) F ->
  Forall (fun x => x = 93) K ->
  matches data_match (39 :: L ++ 32 :: D ++ 39 :: 44 :: F ++ 44 :: K).
Proof.
  intros HL0 HL HD0 HD HF0 HF HK.
  destruct L as [|c1 l1]; [contradiction|]. destruct D as [|c3 l3]; [contradiction|].
  destruct F as [|c6 l6]; [contradiction|].
  apply Forall_cons in HL as [Hc1 Hl1]. apply Forall_cons in HD as [Hc3 Hl3].
  apply Forall_cons in HF as [Hc6 Hl6].
  simpl. exists 39, ((c1 :: l1) ++ 32 :: (c3 :: l3) ++ 39 :: 44 :: (c6 :: l6) ++ 44 :: K).
  split; [reflexivity|]. split; [reflexivity|].
  exists c1, l1, (32 :: (c3 :: l3) ++ 39 :: 44 :: (c6 :: l6) ++ 44 :: K).
  split; [reflexivity|]. split; [exact Hc1|]. split; [exact Hl1|].
  exists 32, ((c3 :: l3) ++ 39 :: 44 :: (c6 :: l6) ++ 44 :: K).
  split; [reflexivity|]. split; [reflexivity|].
  exists c3, l3, (39 :: 44 :: (c6 :: l6) ++ 44 :: K).
  split; [reflexivity|]. split; [apply digit_in_set, Hc3|].
  split; [eapply Forall_impl; [exact Hl3|]; intros x; apply digit_in_set|].
  exists 39, (44 :: (c6 :: l6) ++ 44 :: K). split; [reflexivity|]. split; [reflexivity|].
  exists 44, ((c6 :: l6) ++ 44 :: K). split; [reflexivity|]. split; [reflexivity|].
  exists c6, l6, (44 :: K). split; [reflexivity|]. split; [exact Hc6|]. split; [exact Hl6|].
  exists 44, K. split; [reflexivity|]. split; [reflexivity|].
  exists K, []. split; [symmetry; apply app_nil_r|]. split; [|reflexivity].
  eapply Forall_impl; [exact HK|]. intros x ->. reflexivity.
Qed.

(** X16.  The row pattern finds nothing exactly when the text holds no
    stretch made of a quote, letters of [a-zA-Z], one space, digits, a quote
    and a comma, then characters of the set and a comma. *)
Theorem X16_nothing_found_iff_no_row (content : text) :
  findall data_match content = []
  <-> ~ exists a L D F b,
          L <> [] /\ Forall (fun x => in_set letter_set x = true) L
          /\ D <> [] /\ Forall (fun x => uni_digit x = true) D
          /\ F <> [] /\ Forall (fun x => in_set field_set x = true) F
          /\ content = a ++ (39 :: L ++ 32 :: D ++ 39 :: 44 :: F ++ [44]) ++ b.
Proof.
  split.
  - intros Hnil (a & L & D & F & b & HL0 & HL & HD0 & HD & HF0 & HF & ->).
    pose proof (shape_matches L D F [] HL0 HL HD0 HD HF0 HF (List.Forall_nil _)) as Hm.
    apply (match_here_complete _ _ b) in Hm. apply Hm.
    exact (findall_nil_no_match _ _ Hnil a _ eq_refl).
  - intros Hno. destruct (findall data_match content) as [|m ms] eqn:E; [reflexivity|].
    exfalso. apply Hno.
    assert (Hin : m ∈ findall data_match content) by (rewrite E; apply list_elem_of_here).
    destruct (findall_from_substring _ _ _ _ Hin) as (a & b & ->).
    pose proof (findall_matches (a ++ m ++ b)) as Hms. rewrite E in Hms.
    apply Forall_cons in Hms as [Hm _].
    destruct (match_shape m Hm) as (L & D & F & K & -> & HL0 & HL & HD0 & HD & HF0 & HF & _).
    exists a, L, D, F, (K ++ b). repeat (split; [assumption|]).
    f_equal. simpl. repeat (rewrite <- app_assoc; simpl). reflexivity.
Qed.

(** *** Parsing the cached table itself *)

(** X17.  Handing the loader's own raw table to [parse_vald] spoils both
    views: the call works on the cached object, so afterwards the raw view
    returns a table that has [molecule] and [ion_charge] and no [elm_ion],
    and the first access of the parsed view raises [KeyError] and caches
    nothing. *)
Theorem X17_parsing_the_cached_table_spoils_the_views
    (s s1 : State) (r p : nat) (raw : DataFrame) :
  _vald_raw (self s) = Some r ->
  _vald (self s) = None ->
  heap s !! r = Some raw ->
  column_names raw = vald_columns ->
  parse_vald (Some r) s = (Ok p, s1) ->
  p = r
  /\ vald_raw s1 = (Ok r, s1)
  /\ (exists df, heap s1 !! r = Some df
        /\ lookup_column "elm_ion" (columns df) = None
        /\ is_Some (lookup_column "molecule" (columns df))
        /\ is_Some (lookup_column "ion_charge" (columns df)))
  /\ exists s2, vald s1 = (Raise (KeyError "elm_ion"), s2) /\ _vald (self s2) = None.
Proof.
  intros Hr Hn Hl Hnames Hp.
  destruct (lookup_column "elm_ion" (columns raw)) as [elm|] eqn:Hcol.
  2:{ rewrite parse_vald_eval, (split_elm_ion_no_column _ _ _ Hl Hcol) in Hp. discriminate. }
  destruct (parse_vald_result (Some r) s raw elm Hl Hcol)
    as (s' & _ & Hself & _ & _ & _ & [(_ & Hp' & Hh)|(_ & Hp' & _)]); [|congruence].
  rewrite Hp in Hp'. simpl in Hp'. injection Hp' as -> <-. simpl in Hh.
  assert (Hr1 : _vald_raw (self s1) = Some r) by (rewrite Hself; exact Hr).
  assert (Hn1 : _vald (self s1) = None) by (rewrite Hself; exact Hn).
  assert (Hgone : lookup_column "elm_ion"
                    (columns (split_columns raw (str_replace_quote elm)
                       (map (fun c => nth 0 (parts_of c) None) (str_replace_quote elm))
                       (map (fun c => nth 1 (parts_of c) None) (str_replace_quote elm)))) = None)
    by apply split_columns_no_elm_ion, Hnames.
  split; [reflexivity|]. split; [rewrite vald_raw_eval, Hr1; reflexivity|]. split.
  { eexists. split; [exact Hh|]. split; [exact Hgone|].
    rewrite split_columns_molecule, split_columns_ion_charge. split; eexists; reflexivity. }
  eexists. rewrite vald_eval, Hn1, parse_vald_eval, vald_raw_eval, Hr1.
  erewrite split_elm_ion_no_column.
  - split; [reflexivity|]. simpl. exact Hn1.
  - simpl. apply list_lookup_middle. reflexivity.
  - rewrite Hh. simpl default. exact Hgone.
Qed.

End VALD.

(** ** The claims at concrete inputs *)

Lemma new_loader_ok (fname_arg : option string) : loader_ok (new_loader fname_arg).
Proof. split; intros x H; discriminate H. Defined.

Lemma holding_ok (df : DataFrame) : loader_ok (holding df).
Proof. split; intros x H; discriminate H. Defined.

(** ** Two exports

    The disk answers each call of [to_hdf] for itself: the second export
    has its own answers [open_again] and [put_again]. *)

(** X12.  Once [to_hdf] has returned, exporting again, to the same path or
    to another, asks the source for nothing and builds no table, whatever
    the disk does then.  When the disk refuses to open the store nothing
    changes at all.  When it accepts the open and both writes, the export
    returns and the store holds the two tables that the first export wrote;
    when the path is the same, the whole state is then exactly as it was. *)
Theorem X12_export_again
    (unicode_decimal : N -> bool)
    (read_from_buffer : list string -> string -> result (list byte * string))
    (open_first open_again : string -> bool)
    (put_first put_again : string -> string -> bool)
    (path other : string) (s s1 : State) :
  loader_ok s ->
  to_hdf unicode_decimal read_from_buffer open_first put_first path s = (Ok tt, s1) ->
  let again := to_hdf unicode_decimal read_from_buffer open_again put_again other s1 in
  fetched (snd again) = fetched s1
  /\ heap (snd again) = heap s1
  /\ self (snd again) = self s1
  /\ open_stores (snd again) = open_stores s1
  /\ (open_again other = false -> again = (Raise StorageError, s1))
  /\ (open_again other = true ->
      put_again other "/vald_raw" = true ->
      put_again other "/vald" = true ->
      exists st, stores s1 !! path = Some st
                 /\ again = (Ok tt, set_stores (<[other := st]>) s1)
                 /\ (other = path -> again = (Ok tt, s1))).
Proof.
  intros Hok H again.
  destruct (to_hdf_returned _ _ _ _ _ _ _ Hok H)
    as (_ & _ & _ & r & p & raw & parsed & Hr & Hp & Hraw & Hparsed & Hst & _).
  pose proof (to_hdf_of_cached_views unicode_decimal read_from_buffer open_again put_again
                other s1 r p raw parsed Hr Hp Hraw Hparsed) as E.
  fold again in E.
  assert (Hsame : fetched (snd again) = fetched s1 /\ heap (snd again) = heap s1
                  /\ self (snd again) = self s1 /\ open_stores (snd again) = open_stores s1).
  { rewrite E. destruct (open_again other); [|auto].
    destruct (put_again other "/vald_raw"); [|auto].
    destruct (put_again other "/vald"); auto. }
  destruct Hsame as (S1 & S2 & S3 & S4).
  split; [exact S1|]. split; [exact S2|]. split; [exact S3|]. split; [exact S4|]. split.
  - intros Ho. rewrite E, Ho. reflexivity.
  - intros Ho Hp1 Hp2. rewrite Ho, Hp1, Hp2 in E.
    exists (<["/vald"%string := parsed]> (<["/vald_raw"%string := raw]> ∅)).
    split; [rewrite Hst; apply lookup_insert_eq|]. split; [exact E|].
    intros ->. rewrite E. f_equal.
    destruct s1 as [o h f l st op]. unfold set_stores. simpl in *. f_equal.
    rewrite Hst. apply insert_insert_eq.
Qed.

(** C1 as stated fails for a buffer that is not UTF-8: the Latin-1 bytes of
    [cafe] with an acute accent hold no match, however they are read, and [read_vald_raw] raises
    [UnicodeDecodeError]; so does the raw view. *)
Lemma C1_counterexample :
  let buf := B "caf" ++ [xe9] in
  let s := new_loader None in
  utf8_decode buf = None
  /\ findall some_decimals data_match (map Byte.to_N buf) = []
  /\ fst (read_vald_raw some_decimals (serve buf "md5") None s) = Raise UnicodeDecodeError
  /\ fst (vald_raw some_decimals (serve buf "md5") s) = Raise UnicodeDecodeError.
Proof. repeat split; vm_compute; reflexivity. Qed.

(** C1 at a file without data rows. *)
Lemma C1_witness :
  let s := new_loader None in
  findall some_decimals data_match (T "no data rows here") = []
  /\ read_vald_raw some_decimals (serve (B "no data rows here") "d41d") None s
     = (Ok (0%nat, "d41d"%string),
        set_heap (fun h => h ++ [mkFrame 0 (map (fun n => (n, [])) vald_columns)])
          (requested None s)).
Proof.
  intros s. split; [vm_compute; reflexivity|].
  apply (C1_no_match_gives_empty_table some_decimals (serve (B "no data rows here") "d41d")
           None s (B "no data rows here") "d41d" (T "no data rows here")).
  - reflexivity.
  - vm_compute. reflexivity.
  - vm_compute. reflexivity.
Defined.

(** C2 as stated fails on a value with two spaces: the split at the first
    space would give TiO and "1 2", the code raises [ValueError]. *)
Lemma C2_counterexample :
  let s := holding (one_row (T "'TiO 1 2'")) in
  split_first_space (strip_quotes (T "'TiO 1 2'")) = (T "TiO", Some (T "1 2"))
  /\ fst (parse_vald some_decimals unreachable (Some 0%nat) s) = Raise ValueError.
Proof. split; vm_compute; reflexivity. Qed.

(** C2 at a table of two rows, one value without a space. *)
Lemma C2_witness :
  let s := holding (two_rows (T "'TiO 1'") (T "'CO'")) in
  exists s' parsed,
    parse_vald some_decimals unreachable (Some 0%nat) s = (Ok 0%nat, s')
    /\ heap s' !! 0%nat = Some parsed
    /\ column_names parsed = tail vald_columns ++ ["molecule"; "ion_charge"]%string
    /\ lookup_column "molecule" (columns parsed) = Some [Some (T "TiO"); Some (T "CO")]
    /\ lookup_column "ion_charge" (columns parsed) = Some [Some (T "1"); None].
Proof.
  intros s.
  destruct (proj1 (C2_split_of_elm_ion some_decimals unreachable (Some 0%nat) s
                     (two_rows (T "'TiO 1'") (T "'CO'"))
                     [Some (T "'TiO 1'"); Some (T "'CO'")] eq_refl eq_refl eq_refl) eq_refl)
    as (s' & parsed & H1 & H2 & H3 & H4 & H5 & H6 & H7 & H8).
  exists s', parsed. repeat split; assumption.
Defined.

(** C3 as stated fails when no value has a space: [ValueError]. *)
Lemma C3_counterexample :
  let s := holding (one_row (T "'TiO'")) in
  (32 ∉ strip_quotes (T "'TiO'"))
  /\ fst (parse_vald some_decimals unreachable (Some 0%nat) s) = Raise ValueError.
Proof.
  split; [|vm_compute; reflexivity].
  intros H. apply list_elem_of_In in H. vm_compute in H. intuition discriminate.
Qed.

(** C3 at the second row of a table whose first row has a space. *)
Lemma C3_witness :
  let s := holding (two_rows (T "'TiO 1'") (T "'CO'")) in
  exists s' parsed mol ion,
    parse_vald some_decimals unreachable (Some 0%nat) s = (Ok 0%nat, s')
    /\ heap s' !! 0%nat = Some parsed
    /\ lookup_column "molecule" (columns parsed) = Some mol
    /\ lookup_column "ion_charge" (columns parsed) = Some ion
    /\ mol !! 1%nat = Some (Some (T "CO"))
    /\ ion !! 1%nat = Some None.
Proof.
  intros s.
  apply (C3_value_without_space some_decimals unreachable (Some 0%nat) s
           (two_rows (T "'TiO 1'") (T "'CO'"))
           [Some (T "'TiO 1'"); Some (T "'CO'")] 1%nat (T "'CO'")).
  - reflexivity.
  - reflexivity.
  - reflexivity.
  - reflexivity.
  - intros H. apply list_elem_of_In in H. vm_compute in H. intuition discriminate.
Defined.

(** C4 as stated fails when the text after the sample line lets the match
    run on: a line feed and [5,] hold no match themselves, yet they are
    taken into the match of the sample line and make a second row. *)
Lemma C4_counterexample :
  let post := [10] ++ T "5," in
  let buf := B "'TiO 1',4100.00020,-11.472,0.2011,31.0,3.2242,32.0,99.000,99.000,99.000,6.962,0.000,0.000,"
             ++ [x0a] ++ B "5," in
  let rs := vald_raw some_decimals (serve buf "md5") (new_loader None) in
  utf8_decode buf = Some (sample_line ++ post)
  /\ findall some_decimals data_match post = []
  /\ findall some_decimals data_match (sample_line ++ post) = [sample_line ++ post]
  /\ fst rs = Ok 0%nat
  /\ nrows <$> heap (snd rs) !! 0%nat = Some 2%nat.
Proof. repeat split; vm_compute; reflexivity. Qed.

(** C4 at a file that holds the sample line after a title line, with a
    remark after it on the same line: the match runs on to the comma of the
    remark, and the row is that of the sample line. *)
Lemma C4_witness :
  let s := new_loader None in
  let buf := B "# VALD extract" ++ [x0a]
             ++ B "'TiO 1',4100.00020,-11.472,0.2011,31.0,3.2242,32.0,99.000,99.000,99.000,6.962,0.000,0.000, 5.0, see references"
             ++ [x0a] in
  let pre := T "# VALD extract" ++ [10] in
  let post := T " 5.0, see references" ++ [10] in
  utf8_decode buf = Some (pre ++ sample_line ++ post)
  /\ findall some_decimals data_match (pre ++ sample_line ++ post) = [sample_line ++ T " 5.0,"]
  /\ exists s1 s2 raw parsed,
       vald_raw some_decimals (serve buf "md5") s = (Ok 0%nat, s1)
       /\ heap s1 !! 0%nat = Some raw
       /\ nrows raw = 1%nat
       /\ lookup_column "elm_ion" (columns raw) = Some [Some (T "'TiO 1'")]
       /\ vald some_decimals (serve buf "md5") s1 = (Ok (length (heap s1)), s2)
       /\ heap s2 !! length (heap s1) = Some parsed
       /\ nrows parsed = 1%nat
       /\ lookup_column "molecule" (columns parsed) = Some [Some (T "TiO")]
       /\ lookup_column "ion_charge" (columns parsed) = Some [Some (T "1")]
       /\ lookup_column "wl_air" (columns parsed) = Some [Some (T "4100.00020")]
       /\ exists q, decimal_value (T "4100.00020") = Some q /\ (q == 4100.0002)%Q.
Proof.
  intros s buf pre post. split; [vm_compute; reflexivity|].
  split; [vm_compute; reflexivity|].
  apply (C4_sample_line some_decimals (serve buf "md5") s buf "md5" pre post).
  - reflexivity.
  - reflexivity.
  - reflexivity.
  - vm_compute. reflexivity.
  - vm_compute. reflexivity.
  - vm_compute. reflexivity.
  - intros m r H. vm_compute in H. injection H as <- _. repeat constructor.
Defined.

(** C5 as stated fails when a match runs over a line feed: one match, two
    rows. *)
Lemma C5_counterexample :
  let buf := B "'A 1',1," ++ [x0a] ++ B "2," in
  let rs := read_vald_raw some_decimals (serve buf "md5") None (new_loader None) in
  length <$> (findall some_decimals data_match <$> utf8_decode buf) = Some 1%nat
  /\ fst rs = Ok (0%nat, "md5"%string)
  /\ shape <$> heap (snd rs) !! 0%nat = Some (2, 13)%nat.
Proof. repeat split; vm_compute; reflexivity. Qed.

(** C5 at a file of two data rows with other text between them. *)
Lemma C5_witness :
  let buf := B "# VALD extract" ++ [x0a] ++ B "'TiO 1',4100.00020,-11.472," ++ [x0a]
             ++ B "a remark" ++ [x0a] ++ B "'CO 2',5000.5,-9.82," ++ [x0a] in
  let rs := read_vald_raw some_decimals (serve buf "md5") None (new_loader None) in
  length <$> (findall some_decimals data_match <$> utf8_decode buf) = Some 2%nat
  /\ exists buf' content df,
       serve buf "md5" [] VALD_URL = Ok (buf', "md5"%string)
       /\ utf8_decode buf' = Some content
       /\ heap (snd rs) !! 0%nat = Some df
       /\ column_names df = vald_columns
       /\ shape df = (nrows df, 13%nat)
       /\ (length (findall some_decimals data_match content) <= nrows df)%nat
       /\ (Forall (Forall (fun c => is_line_end c = false))
                  (findall some_decimals data_match content) ->
           nrows df = length (findall some_decimals data_match content)).
Proof.
  intros buf rs. split; [vm_compute; reflexivity|].
  apply (C5_rows_and_columns some_decimals (serve buf "md5") None
           (new_loader None) (snd rs) 0%nat "md5").
  vm_compute. reflexivity.
Defined.



(** C7 as stated fails for a supplied table: it is not copied, and after the
    call it has lost its [elm_ion] column. *)
Lemma C7_counterexample :
  let s := holding (one_row (T "'TiO 1'")) in
  let rs := parse_vald some_decimals unreachable (Some 0%nat) s in
  heap s !! 0%nat = Some (one_row (T "'TiO 1'"))
  /\ fst rs = Ok 0%nat
  /\ (df ← heap (snd rs) !! 0%nat; lookup_column "elm_ion" (columns df)) = None
  /\ (df ← heap s !! 0%nat; lookup_column "elm_ion" (columns df))
     = Some [Some (T "'TiO 1'")].
Proof. repeat split; vm_compute; reflexivity. Qed.

(** C7 at a new loader whose file has one row. *)
Lemma C7_witness :
  let s := new_loader None in
  let rs := parse_vald some_decimals (serve one_row_file "md5") None s in
  fst rs = Ok 1%nat
  /\ exists r raw, _vald_raw (self (snd rs)) = Some r /\ r <> 1%nat
       /\ heap (snd rs) !! r = Some raw
       /\ is_Some (lookup_column "elm_ion" (columns raw)).
Proof.
  intros s rs. split; [vm_compute; reflexivity|].
  destruct (C7_parse_works_on_a_copy some_decimals (serve one_row_file "md5") s (snd rs) (fst rs)
              (new_loader_ok None) (surjective_pairing rs)) as (_ & _ & H).
  destruct (H 1%nat) as [_ Hr]; [vm_compute; reflexivity|exact Hr].
Defined.

(** C8 at a new loader whose file has one row: on a disk that takes every
    write the export returns and the store holds the two tables; on a disk
    that refuses the second write it raises [StorageError], and the store
    holds the raw table only.  No handle stays open in either case. *)
Lemma C8_witness :
  let s := new_loader None in
  let to_disk := to_hdf some_decimals (serve one_row_file "md5") disk_opens in
  let done := to_disk disk_writes "vald.h5" s in
  let failed := to_disk disk_full_at_vald "vald.h5" s in
  (fst done = Ok tt
   /\ open_stores (snd done) = []
   /\ exists r p raw parsed,
        heap (snd done) !! r = Some raw /\ heap (snd done) !! p = Some parsed
        /\ stores (snd done) !! "vald.h5"%string
           = Some (<["/vald"%string := parsed]> (<["/vald_raw"%string := raw]> ∅)))
  /\ (fst failed = Raise StorageError
      /\ open_stores (snd failed) = []
      /\ exists st, stores (snd failed) !! "vald.h5"%string = Some st
           /\ (st = ∅ \/ exists raw, st = <["/vald_raw"%string := raw]> ∅)).
Proof.
  intros s to_disk done failed. split.
  - destruct (C8_export_releases_the_store some_decimals (serve one_row_file "md5")
                disk_opens disk_writes "vald.h5" s (snd done) (fst done)
                (new_loader_ok None) (surjective_pairing done))
      as (H1 & _ & _ & H4 & _ & _ & H7 & _).
    assert (Hres : fst done = Ok tt).
    { apply H7. split; [reflexivity|].
      eexists _, _. split; [vm_compute; reflexivity|]. split; [reflexivity|].
      eexists _, _. split; [vm_compute; reflexivity|reflexivity]. }
    split; [exact Hres|]. split; [exact H1|].
    destruct (H4 Hres) as (_ & _ & _ & r & p & raw & parsed & _ & _ & Hr & Hp & Hst).
    exists r, p, raw, parsed. split; [exact Hr|]. split; [exact Hp|exact Hst].
  - destruct (C8_export_releases_the_store some_decimals (serve one_row_file "md5")
                disk_opens disk_full_at_vald "vald.h5" s (snd failed) (fst failed)
                (new_loader_ok None) (surjective_pairing failed))
      as (H1 & _ & _ & _ & H5 & H6 & _).
    assert (Hres : fst failed = Raise StorageError).
    { destruct (H6 eq_refl 0%nat
                  (snd (vald_raw some_decimals (serve one_row_file "md5")
                          (opened "vald.h5" s)))) as [_ H].
      - vm_compute. reflexivity.
      - eapply (H eq_refl); [vm_compute; reflexivity|reflexivity]. }
    split; [exact Hres|]. split; [exact H1|]. apply (H5 StorageError); [exact Hres|reflexivity].
Defined.

(** C9 at the table of one row. *)
Lemma C9_witness :
  let s := holding (one_row (T "'TiO 1'")) in
  exists m t,
    [Some (T "TiO")] !! 0%nat = Some (Some m)
    /\ [Some (T "'TiO 1'")] !! 0%nat = Some (Some t)
    /\ m ++ [32] ++ T "1" = strip_quotes t.
Proof.
  intros s.
  pose (rs := parse_vald some_decimals unreachable (Some 0%nat) s).
  apply (C9_parts_rebuild_elm_ion some_decimals unreachable (Some 0%nat) s (snd rs)
           (one_row (T "'TiO 1'")) (default (mkFrame 0 []) (heap (snd rs) !! 0%nat))
           [Some (T "'TiO 1'")] [Some (T "TiO")] [Some (T "1")] 0%nat 0%nat (T "1")).
  - reflexivity.
  - reflexivity.
  - vm_compute. reflexivity.
  - vm_compute. reflexivity.
  - vm_compute. reflexivity.
  - vm_compute. reflexivity.
  - reflexivity.
Defined.

(** ** The further properties at concrete inputs *)

(** X1 at a loader whose source cannot be reached. *)
Lemma X1_witness :
  let s := new_loader None in
  let s' := snd (vald_raw some_decimals unreachable s) in
  fst (vald_raw some_decimals unreachable s) = Raise FetchError
  /\ _vald_raw (self s') = None
  /\ fetched (snd (vald_raw some_decimals unreachable s')) = [VALD_URL; VALD_URL].
Proof.
  intros s s'. split; [reflexivity|].
  destruct (X1_failed_read_caches_nothing some_decimals unreachable s s' FetchError eq_refl)
    as (_ & H2 & _ & _ & H5).
  split; [exact H2|exact H5].
Defined.

(** X4 at the file of one row. *)
Lemma X4_witness :
  let s := new_loader None in
  let s1 := snd (vald_raw some_decimals (serve one_row_file "md5") s) in
  exists buf ck,
    serve one_row_file "md5" (fetched s) (fname (self s)) = Ok (buf, ck)
    /\ version (self s1) = Some ck
    /\ forall vs,
         version (self (accesses some_decimals (serve one_row_file "md5") vs s1)) = Some ck.
Proof.
  intros s s1.
  apply (X4_version_is_the_checksum some_decimals (serve one_row_file "md5") s s1 0%nat).
  - apply new_loader_ok.
  - reflexivity.
  - vm_compute. reflexivity.
Defined.

(** X5 at a file without data rows. *)
Lemma X5_witness :
  let s := new_loader None in
  exists s',
    vald some_decimals (serve (B "no data rows here") "d41d") s = (Raise ValueError, s')
    /\ _vald (self s') = None
    /\ _vald_raw (self s') = Some 0%nat
    /\ heap s' !! 0%nat = Some no_rows.
Proof.
  intros s.
  apply (X5_no_rows_no_parsed_view some_decimals (serve (B "no data rows here") "d41d") s
           (B "no data rows here") "d41d" (T "no data rows here")).
  - apply new_loader_ok.
  - reflexivity.
  - reflexivity.
  - reflexivity.
  - vm_compute. reflexivity.
  - vm_compute. reflexivity.
Defined.

(** X6 at a file without data rows and a disk that takes every write. *)
Lemma X6_witness :
  let s := new_loader None in
  exists s',
    to_hdf some_decimals (serve (B "no data rows here") "d41d") disk_opens disk_writes
      "vald.h5" s = (Raise ValueError, s')
    /\ open_stores s' = []
    /\ stores s' !! "vald.h5"%string = Some (<["/vald_raw"%string := no_rows]> ∅).
Proof.
  intros s.
  apply (X6_export_without_rows some_decimals (serve (B "no data rows here") "d41d")
           disk_opens disk_writes "vald.h5" s
           (B "no data rows here") "d41d" (T "no data rows here")).
  - apply new_loader_ok.
  - reflexivity.
  - reflexivity.
  - reflexivity.
  - vm_compute. reflexivity.
  - vm_compute. reflexivity.
  - reflexivity.
  - reflexivity.
Defined.

(** X7 at the table of one row. *)
Lemma X7_witness :
  let s := holding (one_row (T "'TiO 1'")) in
  let s1 := snd (parse_vald some_decimals unreachable (Some 0%nat) s) in
  fst (parse_vald some_decimals unreachable (Some 0%nat) s) = Ok 0%nat
  /\ parse_vald some_decimals unreachable (Some 0%nat) s1 = (Raise (KeyError "elm_ion"), s1).
Proof.
  intros s s1. split; [vm_compute; reflexivity|].
  apply (X7_second_parse_raises_KeyError some_decimals unreachable 0%nat 0%nat s s1
           (one_row (T "'TiO 1'"))).
  - reflexivity.
  - reflexivity.
  - vm_compute. reflexivity.
Defined.

(** X8 at a table whose only value has no space. *)
Lemma X8_witness :
  let s := holding (one_row (T "'TiO'")) in
  exists s' df,
    parse_vald some_decimals unreachable (Some 0%nat) s = (Raise ValueError, s')
    /\ heap s' !! 0%nat = Some df
    /\ nrows df = 1%nat
    /\ column_names df = vald_columns
    /\ lookup_column "elm_ion" (columns df) = Some [Some (T "TiO")].
Proof.
  intros s.
  destruct (X8_failed_parse_leaves_stripped_column some_decimals unreachable 0%nat s
              (one_row (T "'TiO'")) [Some (T "'TiO'")] eq_refl eq_refl)
    as (s' & df & H1 & H2 & H3 & H4 & H5 & _).
  - vm_compute. discriminate.
  - exists s', df. repeat split; assumption.
Defined.

(** X9 at the table of two rows. *)
Lemma X9_witness :
  let s := holding (two_rows (T "'TiO 1'") (T "'CO'")) in
  let rs := parse_vald some_decimals unreachable (Some 0%nat) s in
  well_formed (two_rows (T "'TiO 1'") (T "'CO'"))
  /\ well_formed (default no_rows (heap (snd rs) !! 0%nat))
  /\ nrows (default no_rows (heap (snd rs) !! 0%nat)) = 2%nat.
Proof.
  intros s rs.
  assert (Hwf : well_formed (two_rows (T "'TiO 1'") (T "'CO'")))
    by apply frame_of_records_well_formed.
  split; [exact Hwf|].
  apply (X9_parsed_table_is_well_formed some_decimals unreachable (Some 0%nat) s (snd rs)
           (two_rows (T "'TiO 1'") (T "'CO'")) (default no_rows (heap (snd rs) !! 0%nat))
           0%nat).
  - reflexivity.
  - exact Hwf.
  - vm_compute. reflexivity.
  - vm_compute. reflexivity.
Defined.

(** X10 at the sample line inside the file of one row. *)
Lemma X10_witness :
  exists content, utf8_decode one_row_file = Some content
    /\ (exists a b, content = a ++ sample_line ++ b)
    /\ 34 ∉ sample_line.
Proof.
  eexists. split; [vm_compute; reflexivity|].
  match goal with |- (exists a b, ?c = _) /\ _ =>
    destruct (X10_shape_of_a_match some_decimals c sample_line) as (H1 & _ & H3)
  end.
  - vm_compute. apply list_elem_of_here.
  - split; assumption.
Defined.

(** X11 at the file of one row. *)
Lemma X11_witness :
  exists s' parsed,
    vald some_decimals (serve one_row_file "md5") (new_loader None) = (Ok 1%nat, s')
    /\ heap s' !! 1%nat = Some parsed
    /\ lookup_column "molecule" (columns parsed) = Some [Some (T "TiO")]
    /\ lookup_column "ion_charge" (columns parsed) = Some [Some (T "1")].
Proof.
  destruct (utf8_decode one_row_file) as [content|] eqn:Hd; [|vm_compute in Hd; discriminate Hd].
  assert (Hc : findall some_decimals data_match content = [sample_line]).
  { vm_compute in Hd. injection Hd as <-. vm_compute. reflexivity. }
  destruct (X11_parsed_view_of_one_line_matches some_decimals (serve one_row_file "md5")
              (new_loader None)
              (snd (vald_raw some_decimals (serve one_row_file "md5") (new_loader None)))
              0%nat one_row_file "md5" content)
    as (s' & parsed & H1 & _ & H3 & _ & _ & H6 & H7 & _).
  - apply new_loader_ok.
  - reflexivity.
  - reflexivity.
  - reflexivity.
  - exact Hd.
  - rewrite Hc. discriminate.
  - rewrite Hc. vm_compute. repeat constructor.
  - vm_compute. reflexivity.
  - exists s', parsed. rewrite Hc in H6, H7.
    split; [exact H1|]. split; [exact H3|]. split; [rewrite H6|rewrite H7]; vm_compute; reflexivity.
Defined.

(** X12 at the file of one row, exported to [vald.h5] and then once more,
    to [copy.h5], on a disk that by then refuses the key [/vald] and on one
    that takes every write. *)
Lemma X12_witness :
  let s := new_loader None in
  let export := to_hdf some_decimals (serve one_row_file "md5") disk_opens in
  let s1 := snd (export disk_writes "vald.h5" s) in
  fetched (snd (export disk_full_at_vald "copy.h5" s1)) = fetched s1
  /\ heap (snd (export disk_full_at_vald "copy.h5" s1)) = heap s1
  /\ exists st, stores s1 !! "vald.h5"%string = Some st
       /\ export disk_writes "copy.h5" s1 = (Ok tt, set_stores (<["copy.h5"%string := st]>) s1).
Proof.
  intros s export s1.
  assert (H : export disk_writes "vald.h5" s = (Ok tt, s1)).
  { rewrite (surjective_pairing (export disk_writes "vald.h5" s)). fold s1.
    f_equal; vm_compute; reflexivity. }
  destruct (X12_export_again some_decimals (serve one_row_file "md5")
              disk_opens disk_opens disk_writes disk_full_at_vald
              "vald.h5" "copy.h5" s s1 (new_loader_ok None) H) as (F1 & F2 & _).
  destruct (X12_export_again some_decimals (serve one_row_file "md5")
              disk_opens disk_opens disk_writes disk_writes
              "vald.h5" "copy.h5" s s1 (new_loader_ok None) H) as (_ & _ & _ & _ & _ & G).
  split; [exact F1|]. split; [exact F2|].
  destruct (G eq_refl eq_refl eq_refl) as (st & Hst & Hagain & _).
  exists st. split; [exact Hst|exact Hagain].
Defined.

(** X13 at a source that cannot be reached. *)
Lemma X13_witness :
  let s := new_loader None in
  let rs := to_hdf some_decimals unreachable disk_opens disk_writes "vald.h5" s in
  fst rs = Raise FetchError
  /\ (fetched (snd rs) = fetched s \/ fetched (snd rs) = fetched s ++ [fname (self s)])
  /\ fname (self (snd rs)) = fname (self s).
Proof.
  intros s rs. split; [vm_compute; reflexivity|].
  destruct (X13_export_fetches_at_most_once some_decimals unreachable disk_opens disk_writes
              "vald.h5" s (snd rs) (fst rs) (new_loader_ok None) (surjective_pairing rs))
    as (H1 & _ & _ & H4 & _).
  split; [exact H1|exact H4].
Defined.

(** X14 at the file of one row, read through the parsed view, then the raw
    view, then the parsed view again. *)
Lemma X14_witness :
  let s := accesses some_decimals (serve one_row_file "md5")
             [ParsedView; RawView; ParsedView] (new_loader None) in
  exists r raw elm,
    _vald_raw (self s) = Some r /\ r <> 1%nat
    /\ heap s !! r = Some raw
    /\ lookup_column "elm_ion" (columns raw) = Some elm
    /\ heap s !! 1%nat
       = Some (split_columns raw (str_replace_quote elm)
                 (map (fun c => nth 0 (parts_of c) None) (str_replace_quote elm))
                 (map (fun c => nth 1 (parts_of c) None) (str_replace_quote elm))).
Proof.
  intros s.
  apply (X14_views_agree some_decimals (serve one_row_file "md5")
           [ParsedView; RawView; ParsedView] (new_loader None) 1%nat).
  - apply new_loader_ok.
  - reflexivity.
  - vm_compute. reflexivity.
Defined.

(** X15 at a loader made for the location [vald.dat]. *)
Lemma X15_witness :
  let s := new_loader (Some "vald.dat"%string) in
  loader_ok s
  /\ fetched (snd (access some_decimals (serve one_row_file "md5") ParsedView s))
     = ["vald.dat"%string]
  /\ fname (self (snd (access some_decimals (serve one_row_file "md5") ParsedView s)))
     = "vald.dat"%string.
Proof.
  intros s.
  apply (X15_first_access_asks_the_location some_decimals (serve one_row_file "md5")
           (Some "vald.dat"%string) ParsedView s).
  reflexivity.
Defined.

(** X17 at a loader that holds the table of one row as its raw table. *)
Lemma X17_witness :
  let s := set_self (fun o => mkLoader (fname o) (Some 0%nat) None (Some "md5"%string))
             (holding (one_row (T "'TiO 1'"))) in
  let s1 := snd (parse_vald some_decimals unreachable (Some 0%nat) s) in
  vald_raw some_decimals unreachable s1 = (Ok 0%nat, s1)
  /\ exists s2, vald some_decimals unreachable s1 = (Raise (KeyError "elm_ion"), s2)
                /\ _vald (self s2) = None.
Proof.
  intros s s1.
  destruct (X17_parsing_the_cached_table_spoils_the_views some_decimals unreachable
              s s1 0%nat 0%nat (one_row (T "'TiO 1'")))
    as (_ & H2 & _ & H4).
  - reflexivity.
  - reflexivity.
  - reflexivity.
  - reflexivity.
  - vm_compute. reflexivity.
  - split; [exact H2|exact H4].
Defined.
